(** * The SCM file-change tree of Theia: tree building, reconciliation,
      keyboard navigation and view-mode persistence

    A shallow embedding of [packages/scm/src/browser/scm-tree-widget.tsx]
    ([ScmTreeWidget]), followed by the properties of its tree builder
    ([createTree], [toGroupNode], [buildFileChangeTree],
    [toFileChangeFolderNode], [toFileChangeNode]), of the file cursor
    ([moveToNextFileNode], [moveToPreviousFileNode], [handleLeft],
    [handleRight], [openResource]) and of [storeState] / [restoreState].
    The type guards of the nodes, [getRoot], [getResourceFromNode],
    [revealNode], the context menu of a folder ([collectUris]) and the
    state of [ScmWidget] ([packages/scm/src/browser/scm-widget.tsx]) are
    embedded as well, with their properties at the end.

    Conventions.
    - Array indices and path levels are [nat]; a JavaScript number that
      can be negative or is user supplied ([length - 1], the nesting
      threshold, a comparator's result) is a [Z].
    - [undefined] is [None]; reading past the end of an array is [None]
      as well, and reading a property of [undefined] is a [TypeError].
    - A [parent] reference of a node under construction is a value of
      [Parent]: the chain of [parent] links with the fields the builder
      reads.  In a finished tree the links are the tree structure itself.
    - The loops of the source run on a counter that is large enough
      for them; the recursion of [buildFileChangeTree] through
      [toFileChangeFolderNode] runs on [fuel], its depth.  A call that is
      [OutOfFuel] at every depth does not return (in a browser it ends in
      a stack overflow).
    - What the widget takes from its collaborators ([URI], the tree model,
      [String.prototype.localeCompare]) is a [Variable] of the section that
      uses it. *)

From Stdlib Require Import String Ascii List ZArith Lia Bool Arith PeanoNat
  Sorted Permutation.
Import ListNotations.
Open Scope string_scope.
Set Warnings "-register-all".

(** ** JavaScript values and built-ins used by the widget *)

Module Js.

(** [s.split(sep)] for a one-character separator: never the empty array. *)
Fixpoint split (sep : ascii) (s : string) : list string :=
  match s with
  | EmptyString => [EmptyString]
  | String c rest =>
      if Ascii.eqb c sep then EmptyString :: split sep rest
      else match split sep rest with
           | [] => [String c EmptyString]
           | hd :: tl => String c hd :: tl
           end
  end.

(** [a.slice(from, to)] for [0 <= from] and [0 <= to]. *)
Definition slice {A : Type} (from to : nat) (a : list A) : list A :=
  firstn (to - from) (skipn from a).

(** [a.join(sep)] on an array of strings. *)
Definition join (sep : string) (a : list string) : string :=
  String.concat sep a.

(** [x === y] where both sides are a string or [undefined]. *)
Definition strictEq (x y : option string) : bool :=
  match x, y with
  | Some a, Some b => String.eqb a b
  | None, None => true
  | _, _ => false
  end.

(** Truthiness of a value that is a string or [undefined]. *)
Definition truthy (x : option string) : bool :=
  match x with
  | Some s => negb (String.eqb s "")
  | None => false
  end.

(** [a.sort(cmp)]: the specification makes the sort stable; for a
    consistent comparator every stable sort returns the list computed
    here by stable insertion. *)
Section Sort.
Context {A : Type} (cmp : A -> A -> Z).

Fixpoint insert (x : A) (l : list A) : list A :=
  match l with
  | [] => [x]
  | y :: l' => if (cmp x y <=? 0)%Z then x :: l else y :: insert x l'
  end.

Definition sort (l : list A) : list A := fold_right insert [] l.
End Sort.

(** Values that reach [restoreState] from the state storage. *)
Inductive value :=
| Undefined
| Null
| Bool (b : bool)
| Num (n : Z)
| Str (s : string)
| Obj (fields : list (string * value)).

(** Property read [o.k] on an object; a missing property is [undefined]. *)
Fixpoint lookup (k : string) (fields : list (string * value)) : value :=
  match fields with
  | [] => Undefined
  | (k', v) :: rest => if String.eqb k k' then v else lookup k rest
  end.

End Js.

(** ** Outcomes and the builder's effect *)

(** A call returns, throws a [TypeError], or has not returned within the
    recursion depth it was given. *)
Inductive outcome (A : Type) :=
| Done (a : A)
| TypeError
| OutOfFuel.
Arguments Done {A} a.
Arguments TypeError {A}.
Arguments OutOfFuel {A}.

(** ** Data model *)

(** [ScmResourceDecorations]: copied into leaves, never inspected. *)
Record ScmResourceDecorations := {
  color : option string;
  letter : option string;
  tooltip : option string
}.

(** [ScmResource] as the builder reads it: [String(resource.sourceUri)],
    [resource.group.id] and [resource.decorations]. *)
Record ScmResource := {
  resource_sourceUri : string;
  resource_group_id : string;
  resource_decorations : option ScmResourceDecorations
}.

(** [ScmResourceGroup]; [group_provider_rootUri] is [group.provider.rootUri]. *)
Record ScmResourceGroup := {
  group_id : string;
  group_hideWhenEmpty : bool;
  group_resources : list ScmResource;
  group_provider_rootUri : option string
}.

(** [repository.provider]. *)
Record ScmProvider := {
  provider_rootUri : option string;
  provider_groups : list ScmResourceGroup
}.

(** [FileChangeNode | FileChangeFolderNode]. *)
Inductive node :=
| FileChangeNode (id sourceUri : string)
    (decorations : option ScmResourceDecorations) (selected : bool)
| FileChangeFolderNode (id groupId path sourceUri : string)
    (children : list node) (expanded selected : bool).

Record FileChangeGroupNode := {
  gn_id : string;
  gn_groupId : string;
  gn_children : list node;
  gn_expanded : bool
}.

(** [FileChangeGroupRoot], with id ['file-change-tree-root']. *)
Record FileChangeGroupRoot := {
  root_rootUri : option string;
  root_children : list FileChangeGroupNode
}.

(** Any node the tree model can hold. *)
Inductive TreeNode :=
| RootOf (r : FileChangeGroupRoot)
| GroupOf (g : FileChangeGroupNode)
| NodeOf (n : node).

Definition node_id (n : node) : string :=
  match n with
  | FileChangeNode id _ _ _ => id
  | FileChangeFolderNode id _ _ _ _ _ _ => id
  end.

Definition sourceUri (n : node) : string :=
  match n with
  | FileChangeNode _ u _ _ => u
  | FileChangeFolderNode _ _ _ u _ _ _ => u
  end.

Definition selected (n : node) : bool :=
  match n with
  | FileChangeNode _ _ _ s => s
  | FileChangeFolderNode _ _ _ _ _ _ s => s
  end.

Definition children (n : node) : list node :=
  match n with
  | FileChangeNode _ _ _ _ => []
  | FileChangeFolderNode _ _ _ _ c _ _ => c
  end.

(** [FileChangeFolderNode.is]: has [groupId], [sourceUri], [path] and
    [children]. *)
Definition FileChangeFolderNode_is (n : node) : bool :=
  match n with
  | FileChangeFolderNode _ _ _ _ _ _ _ => true
  | FileChangeNode _ _ _ _ => false
  end.

(** [FileChangeNode.is]: has [sourceUri] and is no folder. *)
Definition FileChangeNode_is (n : node) : bool :=
  negb (FileChangeFolderNode_is n).

(** The [parent] of a node under construction: a group node (whose own
    parent is the root) or a folder node. *)
Inductive Parent :=
| ParentGroup (groupId : string) (rootUri : option string)
| ParentFolder (groupId sourceUri : string) (parent : Parent).

(** What a [parent] link can point to. *)
Inductive Ancestor :=
| TheRoot (rootUri : option string)
| ANode (p : Parent).

Definition parent_groupId (p : Parent) : string :=
  match p with
  | ParentGroup g _ => g
  | ParentFolder g _ _ => g
  end.

Definition parent_of (p : Parent) : Ancestor :=
  match p with
  | ParentGroup _ r => TheRoot r
  | ParentFolder _ _ q => ANode q
  end.

Definition Parent_isFolder (p : Parent) : bool :=
  match p with
  | ParentFolder _ _ _ => true
  | ParentGroup _ _ => false
  end.

Definition Ancestor_isFolder (a : Ancestor) : bool :=
  match a with
  | ANode p => Parent_isFolder p
  | TheRoot _ => false
  end.

(** [FileChangeGroupNode.is]: [groupId] and [children], and no folder. *)
Definition Ancestor_isGroup (a : Ancestor) : bool :=
  match a with
  | ANode _ => negb (Ancestor_isFolder a)
  | TheRoot _ => false
  end.

(** [x.rootUri]: only the root has the property. *)
Definition Ancestor_rootUri (a : Ancestor) : option string :=
  match a with
  | TheRoot r => r
  | ANode _ => None
  end.

(** [ScmTreeProps]. *)
Inductive Expansion := collapsed | expanded.

Record ScmTreeProps := {
  defaultExpansion : option Expansion;
  nestingThreshold : option Z
}.

Inductive ViewMode := flat | tree.

(** One entry of [resourcePaths]. *)
Record ResourcePath := {
  resource : ScmResource;
  pathParts : list string
}.

(** [parts.length - 1]: the position of the file name. *)
Definition lastIndex (parts : list string) : Z :=
  (Z.of_nat (length parts) - 1)%Z.

(** ** The builder's monad

    The builder reads the previous tree through [getNode] and writes one
    piece of shared state, [selectionService.selection]; [Selection] is
    that cell ([None]: not written so far). *)

Definition Selection := option node.

Definition M (A : Type) : Type := Selection -> outcome (A * Selection).

Definition ret {A : Type} (a : A) : M A := fun s => Done (a, s).

Definition bind {A B : Type} (m : M A) (k : A -> M B) : M B :=
  fun s =>
    match m s with
    | Done (a, s') => k a s'
    | TypeError => TypeError
    | OutOfFuel => OutOfFuel
    end.

Definition throw {A : Type} : M A := fun _ => TypeError.

Definition diverge {A : Type} : M A := fun _ => OutOfFuel.

Definition setSelection (n : node) : M unit := fun _ => Done (tt, Some n).

Declare Scope builder_scope.
Delimit Scope builder_scope with builder.
Notation "x <- m ;; k" := (bind m (fun x => k))
  (at level 61, m at next level, right associativity) : builder_scope.
Open Scope builder_scope.

(** [a.map(f)] with an effectful [f], left to right. *)
Fixpoint mapM {A B : Type} (f : A -> M B) (l : list A) : M (list B) :=
  match l with
  | [] => ret []
  | x :: l' => y <- f x ;; ys <- mapM f l' ;; ret (y :: ys)
  end.

(** ** The tree builder *)

Section Builder.

(** [String(new URI(parentPath).resolve(relativePath))]. *)
Variable URI_resolve : option string -> string -> string.
(** [a.localeCompare(b)]. *)
Variable localeCompare : string -> string -> Z.
(** [this.model.getNode(id)]: the tree in place while the new one is
    built. *)
Variable getNode : string -> option TreeNode.
(** [this.props]. *)
Variable props : ScmTreeProps.

(** Modelled from the spec: [ExpandableTreeNode.is] of [@theia/core] is
    not part of these sources.  The spec reuses the expansion flag of a
    prior node that "was ExpandableTreeNode"; of the nodes of this tree
    the groups and the folders carry an [expanded] flag. *)
Definition ExpandableTreeNode_is (oldNode : option TreeNode) : bool :=
  match oldNode with
  | Some (GroupOf _) => true
  | Some (NodeOf n) => FileChangeFolderNode_is n
  | _ => false
  end.

(** Modelled from the spec: [SelectableTreeNode.is] of [@theia/core] is
    not part of these sources.  The spec carries the selection of a prior
    node that "was selected"; of the nodes of this tree the folders and
    the files carry a [selected] flag. *)
Definition SelectableTreeNode_is (oldNode : option TreeNode) : bool :=
  match oldNode with
  | Some (NodeOf _) => true
  | _ => false
  end.

(** [oldNode.expanded], read after [ExpandableTreeNode.is(oldNode)]. *)
Definition old_expanded (oldNode : option TreeNode) : bool :=
  match oldNode with
  | Some (GroupOf g) => gn_expanded g
  | Some (NodeOf (FileChangeFolderNode _ _ _ _ _ e _)) => e
  | _ => false
  end.

(** [oldNode.selected], read after [SelectableTreeNode.is(oldNode)]. *)
Definition old_selected (oldNode : option TreeNode) : bool :=
  match oldNode with
  | Some (NodeOf n) => selected n
  | _ => false
  end.

Definition toFileChangeNode (r : ScmResource) : M node :=
  let id := resource_group_id r ++ ":" ++ resource_sourceUri r in
  let oldNode := getNode id in
  let n := FileChangeNode id (resource_sourceUri r) (resource_decorations r)
             (SelectableTreeNode_is oldNode && old_selected oldNode) in
  if selected n then (_ <- setSelection n ;; ret n) else ret n.

Definition doCompareNodes (a b : node) : Z :=
  let isFolderA := FileChangeFolderNode_is a in
  let isFolderB := FileChangeFolderNode_is b in
  if isFolderA && negb isFolderB then (-1)%Z
  else if isFolderB && negb isFolderA then 1%Z
  else localeCompare (sourceUri a) (sourceUri b).

Definition compareNodes := doCompareNodes.

(** The loop of [getRoot] climbs while a node is a group and a folder
    at once; [n] bounds the number of links followed. *)
Fixpoint getRoot_loop (n : nat) (a : Ancestor) : Ancestor :=
  match n with
  | 0 => a
  | S n' =>
      if Ancestor_isGroup a && Ancestor_isFolder a then
        match a with
        | ANode p => getRoot_loop n' (parent_of p)
        | TheRoot _ => a
        end
      else a
  end.

Fixpoint depth (p : Parent) : nat :=
  match p with
  | ParentGroup _ _ => 1
  | ParentFolder _ _ q => S (depth q)
  end.

Definition getRoot (p : Parent) : Ancestor :=
  getRoot_loop (depth p) (parent_of p).

(** [this.props.nestingThreshold || 1]. *)
Definition threshold : Z :=
  match nestingThreshold props with
  | Some n => if (n =? 0)%Z then 1%Z else n
  | None => 1%Z
  end.

(** The inner [while (index < end)] of [buildFileChangeTree]: the end
    of the run of resources whose segment at [level] is [seg]; [n] is
    [end - index]. *)
Fixpoint runEnd (resources : list ResourcePath) (level : nat)
    (seg : option string) (n index : nat) : outcome nat :=
  match n with
  | 0 => Done index
  | S n' =>
      match nth_error resources index with
      | None => TypeError
      | Some r =>
          if Js.strictEq (nth_error (pathParts r) level) seg
          then runEnd resources level seg n' (S index)
          else Done index
      end
  end.

(** [while (thisLevel < first.length - 1 && thisLevel < last.length - 1
    && first[thisLevel] === last[thisLevel]) thisLevel++]; [n] bounds
    the iterations and [length first] is enough. *)
Fixpoint extendLevel (firstFileParts lastFileParts : list string)
    (n thisLevel : nat) : nat :=
  match n with
  | 0 => thisLevel
  | S n' =>
      if (Z.of_nat thisLevel <? lastIndex firstFileParts)%Z
         && (Z.of_nat thisLevel <? lastIndex lastFileParts)%Z
         && Js.strictEq (nth_error firstFileParts thisLevel)
                        (nth_error lastFileParts thisLevel)
      then extendLevel firstFileParts lastFileParts n' (S thisLevel)
      else thisLevel
  end.

(** [for (let i = folderStart; i < folderEnd; i++)
    result.push(this.toFileChangeNode(resources[i].resource, parent))];
    [n] is [folderEnd - i]. *)
Fixpoint inlineRun (resources : list ResourcePath) (n i : nat)
    (result : list node) : M (list node) :=
  match n with
  | 0 => ret result
  | S n' =>
      match nth_error resources i with
      | None => throw
      | Some r =>
          leaf <- toFileChangeNode (resource r) ;;
          inlineRun resources n' (S i) (result ++ [leaf])
      end
  end.

(** The type of [buildFileChangeTree], for the recursive call. *)
Definition Build : Type :=
  list ResourcePath -> nat -> nat -> nat -> Parent -> M (list node).

Definition toFileChangeFolderNode (build : Build)
    (resources : list ResourcePath) (start end_ level : nat)
    (nodeRelativePath : string) (parent : Parent) : M node :=
  let rootUri := Ancestor_rootUri (getRoot parent) in
  let parentPath :=
    match parent with
    | ParentFolder _ u _ => Some u
    | ParentGroup _ _ => rootUri
    end in
  let sourceUri := URI_resolve parentPath nodeRelativePath in
  let defaultExpansion :=
    match defaultExpansion props with
    | Some d => match d with expanded => true | collapsed => false end
    | None => true
    end in
  let id := parent_groupId parent ++ ":" ++ sourceUri in
  let oldNode := getNode id in
  let groupId := parent_groupId parent in
  let expanded :=
    if ExpandableTreeNode_is oldNode then old_expanded oldNode
    else defaultExpansion in
  let selected := SelectableTreeNode_is oldNode && old_selected oldNode in
  children <- build resources start end_ level
                (ParentFolder groupId sourceUri parent) ;;
  ret (FileChangeFolderNode id groupId nodeRelativePath sourceUri
         children expanded selected).

(** The outer [while (folderStart < end)]: [n] bounds the iterations,
    and every iteration moves [folderStart] forward. *)
Fixpoint buildLoop (build : Build) (resources : list ResourcePath)
    (end_ level : nat) (parent : Parent)
    (n folderStart : nat) (result : list node) : M (list node) :=
  match n with
  | 0 => diverge
  | S n' =>
      if (folderStart <? end_)%nat then
        match nth_error resources folderStart with
        | None => throw
        | Some firstFileChange =>
            if (Z.of_nat level =? lastIndex (pathParts firstFileChange))%Z
            then
              leaf <- toFileChangeNode (resource firstFileChange) ;;
              buildLoop build resources end_ level parent n'
                (S folderStart) (result ++ [leaf])
            else
              match runEnd resources level
                      (nth_error (pathParts firstFileChange) level)
                      (end_ - S folderStart) (S folderStart) with
              | Done folderEnd =>
                  if (Z.of_nat (folderEnd - folderStart) <? threshold)%Z
                  then
                    result' <- inlineRun resources (folderEnd - folderStart)
                                 folderStart result ;;
                    buildLoop build resources end_ level parent n'
                      folderEnd result'
                  else
                    match nth_error resources (folderEnd - 1) with
                    | None => throw
                    | Some lastFileChange =>
                        let firstFileParts := pathParts firstFileChange in
                        let lastFileParts := pathParts lastFileChange in
                        let thisLevel :=
                          extendLevel firstFileParts lastFileParts
                            (length firstFileParts) (level + 1) in
                        let nodeRelativePath :=
                          Js.join "/" (Js.slice level thisLevel firstFileParts) in
                        folder <- toFileChangeFolderNode build resources
                                    folderStart folderEnd thisLevel
                                    nodeRelativePath parent ;;
                        buildLoop build resources end_ level parent n'
                          folderEnd (result ++ [folder])
                    end
              | TypeError => throw
              | OutOfFuel => diverge
              end
        end
      else ret result
  end.

(** [buildFileChangeTree]; [fuel] bounds the depth of the recursion
    through [toFileChangeFolderNode]. *)
Fixpoint buildFileChangeTree (fuel : nat) (resources : list ResourcePath)
    (start end_ level : nat) (parent : Parent) : M (list node) :=
  match fuel with
  | 0 => diverge
  | S fuel' =>
      result <- buildLoop (buildFileChangeTree fuel') resources end_ level
                  parent (S (end_ - start)) start [] ;;
      ret (Js.sort compareNodes result)
  end.

(** [new URI(rootUri).relative(resource.sourceUri)], as the string of
    the relative path, or [undefined]. *)
Variable URI_relative : string -> string -> option string.

(** The [map] of [toGroupNode] that pairs a resource with its path
    segments below [rootUri]. *)
Definition toResourcePath (rootUri : string) (r : ScmResource)
    : ResourcePath :=
  let relativePath := URI_relative rootUri (resource_sourceUri r) in
  {| resource := r;
     pathParts := match relativePath with
                  | Some p => Js.split "/" p
                  | None => []
                  end |}.

(** [toGroupNode(group, parent)] under [this._viewMode]; [rootOfTree] is
    the [rootUri] of [parent], the root under construction. *)
Definition toGroupNode (fuel : nat) (viewMode : ViewMode)
    (rootOfTree : option string) (group : ScmResourceGroup)
    : M FileChangeGroupNode :=
  let groupNode := ParentGroup (group_id group) rootOfTree in
  children <-
    match viewMode with
    | flat => mapM toFileChangeNode (group_resources group)
    | tree =>
        let rootUri := group_provider_rootUri group in
        match rootUri with
        | Some root =>
            if Js.truthy rootUri then
              let resourcePaths :=
                map (toResourcePath root) (group_resources group) in
              buildFileChangeTree fuel resourcePaths 0
                (length (group_resources group)) 0 groupNode
            else ret []
        | None => ret []
        end
    end ;;
  ret {| gn_id := group_id group;
         gn_groupId := group_id group;
         gn_children := children;
         gn_expanded := true |}.

(** [createTree(repository)]. *)
Definition createTree (fuel : nat) (viewMode : ViewMode)
    (provider : ScmProvider) : M FileChangeGroupRoot :=
  let groups := provider_groups provider in
  groupNodes <-
    mapM (toGroupNode fuel viewMode (provider_rootUri provider))
      (filter (fun group =>
                 negb (length (group_resources group) =? 0)%nat
                 || negb (group_hideWhenEmpty group))
              groups) ;;
  ret {| root_rootUri := provider_rootUri provider;
         root_children := groupNodes |}.

End Builder.

(** ** Instances of the collaborators, for concrete runs *)

Module Instances.

(** An instance of [localeCompare]: comparison by character code.  On
    the lower-case paths of the examples it decides as the collation of
    the platform does. *)
Fixpoint codeCompare (a b : string) : Z :=
  match a, b with
  | EmptyString, EmptyString => 0
  | EmptyString, String _ _ => -1
  | String _ _, EmptyString => 1
  | String x a', String y b' =>
      if (nat_of_ascii x <? nat_of_ascii y)%nat then -1
      else if (nat_of_ascii y <? nat_of_ascii x)%nat then 1
      else codeCompare a' b'
  end.

(** Modelled from the spec: [URI.resolve] of [@theia/core] is not part
    of these sources.  The spec has a folder's location "resolvable as
    parentUri + relativePath"; here the two are joined by a slash. *)
Definition joinUri (parentPath : option string) (rel : string) : string :=
  match parentPath with
  | Some p => p ++ "/" ++ rel
  | None => rel
  end.

Fixpoint stripPrefix (p s : string) : option string :=
  match p, s with
  | EmptyString, _ => Some s
  | String x p', String y s' =>
      if Ascii.eqb x y then stripPrefix p' s' else None
  | String _ _, EmptyString => None
  end.

(** Modelled from the spec: [URI.relative] of [@theia/core] is not part
    of these sources.  The spec decomposes the path of a resource
    "relative to the repository root"; here it is what follows the root
    and a slash, and nothing when [uri] does not lie below [root]. *)
Definition relativeTo (root uri : string) : option string :=
  stripPrefix (root ++ "/") uri.

(** A tree model that holds no node. *)
Definition emptyModel (id : string) : option TreeNode := None.

Definition defaultProps : ScmTreeProps :=
  {| defaultExpansion := None; nestingThreshold := None |}.

(** A resource of the group [changes] without decorations. *)
Definition change (uri : string) : ScmResource :=
  {| resource_sourceUri := uri;
     resource_group_id := "changes";
     resource_decorations := None |}.

(** The group [changes] of a provider rooted at [rootUri]. *)
Definition changes (rootUri : option string) (uris : list string)
    : ScmResourceGroup :=
  {| group_id := "changes";
     group_hideWhenEmpty := false;
     group_resources := map change uris;
     group_provider_rootUri := rootUri |}.

Definition repo : string := "file:///repo".

(** A provider rooted at [repo] with the one group [changes]. *)
Definition providerOf (uris : list string) : ScmProvider :=
  {| provider_rootUri := Some repo;
     provider_groups := [changes (Some repo) uris] |}.

(** A previous tree in which the group [changes] and the folder [a] are
    collapsed and the file [a/x.txt] is selected. *)
Definition previousModel (id : string) : option TreeNode :=
  if String.eqb id "changes" then
    Some (GroupOf {| gn_id := "changes"; gn_groupId := "changes";
                     gn_children := []; gn_expanded := false |})
  else if String.eqb id "changes:file:///repo/a" then
    Some (NodeOf (FileChangeFolderNode "changes:file:///repo/a" "changes"
                    "a" "file:///repo/a" [] false false))
  else if String.eqb id "changes:file:///repo/a/x.txt" then
    Some (NodeOf (FileChangeNode "changes:file:///repo/a/x.txt"
                    "file:///repo/a/x.txt" None true))
  else None.

(** The resources [a/x.txt], [a/y.txt], [b.txt] with their segments. *)
Definition xyb : list ResourcePath :=
  [{| resource := change "file:///repo/a/x.txt";
      pathParts := ["a"; "x.txt"] |};
   {| resource := change "file:///repo/a/y.txt";
      pathParts := ["a"; "y.txt"] |};
   {| resource := change "file:///repo/b.txt";
      pathParts := ["b.txt"] |}].

(** Two files in sibling folders below [a/b]. *)
Definition nested : list ResourcePath :=
  [{| resource := change "file:///repo/a/b/c/x.txt";
      pathParts := ["a"; "b"; "c"; "x.txt"] |};
   {| resource := change "file:///repo/a/b/d/y.txt";
      pathParts := ["a"; "b"; "d"; "y.txt"] |}].

(** A file below the folder [a], then a file named [a]: the deletion
    of a file together with the addition of a folder of its name. *)
Definition folderThenFile : list ResourcePath :=
  [{| resource := change "file:///repo/a/x.txt";
      pathParts := ["a"; "x.txt"] |};
   {| resource := change "file:///repo/a";
      pathParts := ["a"] |}].

End Instances.

(** ** The tree model and the file cursor *)

(** A node as the tree model shows it: the node and its [parent] link. *)
Record Entry := {
  e_node : node;
  e_parent : Parent
}.

(** Modelled from the spec: the generic tree model of [@theia/core] is not
    part of these sources.  The spec gives it "selection state" and "a
    visible-order previous/next-selectable-node query"; here it is the
    list of the visible selectable nodes in display order and the
    positions of the selected ones. *)
Record TreeModel := {
  visible : list Entry;
  selectedNodes : list nat
}.

(** Modelled from the spec: [model.getNextSelectableNode()], the visible
    selectable node after [selectedNodes[0]]. *)
Definition getNextSelectableNode (m : TreeModel) : option nat :=
  match selectedNodes m with
  | [] => None
  | p :: _ => if (S p <? length (visible m))%nat then Some (S p) else None
  end.

(** Modelled from the spec: [model.getPrevSelectableNode()], the visible
    selectable node before [selectedNodes[0]]. *)
Definition getPrevSelectableNode (m : TreeModel) : option nat :=
  match selectedNodes m with
  | [] => None
  | 0 :: _ => None
  | S p :: _ => if (p <? length (visible m))%nat then Some p else None
  end.

(** Modelled from the spec: [model.selectNode(node)] makes [node] the
    selection. *)
Definition selectNode (p : nat) (m : TreeModel) : TreeModel :=
  {| visible := visible m; selectedNodes := [p] |}.

(** [FileChangeNode.is] on the node at a position. *)
Definition isFileAt (m : TreeModel) (p : nat) : bool :=
  match nth_error (visible m) p with
  | Some e => FileChangeNode_is (e_node e)
  | None => false
  end.

(** The [while (nextNode)] of [moveToNextFileNode]; [n] bounds the
    iterations, and the number of visible nodes is enough. *)
Fixpoint moveToNextFileNode_loop (n : nat) (m : TreeModel)
    (nextNode : option nat) : TreeModel * option nat :=
  match n with
  | 0 => (m, None)
  | S n' =>
      match nextNode with
      | None => (m, None)
      | Some p =>
          if isFileAt m p then (selectNode p m, Some p)
          else
            let m' := selectNode p m in
            moveToNextFileNode_loop n' m' (getNextSelectableNode m')
      end
  end.

Definition moveToNextFileNode (m : TreeModel) : TreeModel * option nat :=
  moveToNextFileNode_loop (S (length (visible m))) m (getNextSelectableNode m).

Fixpoint moveToPreviousFileNode_loop (n : nat) (m : TreeModel)
    (previousNode : option nat) : TreeModel * option nat :=
  match n with
  | 0 => (m, None)
  | S n' =>
      match previousNode with
      | None => (m, None)
      | Some p =>
          if isFileAt m p then (selectNode p m, Some p)
          else
            let m' := selectNode p m in
            moveToPreviousFileNode_loop n' m' (getPrevSelectableNode m')
      end
  end.

Definition moveToPreviousFileNode (m : TreeModel) : TreeModel * option nat :=
  moveToPreviousFileNode_loop (S (length (visible m))) m
    (getPrevSelectableNode m).

(** The calls of [this.model.selectNode] in [moveToNextFileNode], in the
    order in which the loop makes them, each written down by the position
    of the node it is given: the call on a file that ends the loop, and
    before it the call on every node that is not a file. *)
Fixpoint moveToNextFileNode_calls (n : nat) (m : TreeModel)
    (nextNode : option nat) : list nat :=
  match n with
  | 0 => []
  | S n' =>
      match nextNode with
      | None => []
      | Some p =>
          if isFileAt m p then [p]
          else
            let m' := selectNode p m in
            p :: moveToNextFileNode_calls n' m' (getNextSelectableNode m')
      end
  end.

Definition selectedByNext (m : TreeModel) : list nat :=
  moveToNextFileNode_calls (S (length (visible m))) m
    (getNextSelectableNode m).

(** The same for [moveToPreviousFileNode]. *)
Fixpoint moveToPreviousFileNode_calls (n : nat) (m : TreeModel)
    (previousNode : option nat) : list nat :=
  match n with
  | 0 => []
  | S n' =>
      match previousNode with
      | None => []
      | Some p =>
          if isFileAt m p then [p]
          else
            let m' := selectNode p m in
            p :: moveToPreviousFileNode_calls n' m' (getPrevSelectableNode m')
      end
  end.

Definition selectedByPrevious (m : TreeModel) : list nat :=
  moveToPreviousFileNode_calls (S (length (visible m))) m
    (getPrevSelectableNode m).

(** [n] forward steps of the cursor, one after the other. *)
Fixpoint moveForward (n : nat) (m : TreeModel) : TreeModel :=
  match n with
  | 0 => m
  | S n' => moveForward n' (fst (moveToNextFileNode m))
  end.

(** Modelled from the spec: the display order of the generic tree of
    [@theia/core] is not part of these sources.  The spec steps "across
    the currently visible (expanded-ancestors-only) flattened node
    order"; here a node stands before its children, the children of a
    collapsed node are left out, and so are the group nodes, which have
    no [selected] flag. *)
Fixpoint visibleBelow (parent : Parent) (n : node) : list Entry :=
  {| e_node := n; e_parent := parent |} ::
  match n with
  | FileChangeNode _ _ _ _ => []
  | FileChangeFolderNode _ g _ u c e _ =>
      if e then flat_map (visibleBelow (ParentFolder g u parent)) c else []
  end.

Definition visibleInGroup (rootUri : option string) (g : FileChangeGroupNode)
    : list Entry :=
  if gn_expanded g
  then flat_map (visibleBelow (ParentGroup (gn_groupId g) rootUri))
         (gn_children g)
  else [].

Definition visibleEntries (r : FileChangeGroupRoot) : list Entry :=
  flat_map (visibleInGroup (root_rootUri r)) (root_children r).

(** ** Keyboard handlers and [openResource] *)

(** An [EditorWidget] as [openResource] reads it: [getResourceUri()] and
    [editor.uri.scheme]. *)
Record EditorWidget := {
  ew_resourceUri : option string;
  ew_scheme : string
}.

(** What the handlers read and write. *)
Record World := {
  selectedRepository : option ScmProvider;
  model : TreeModel;
  console : list string;
  editors : list EditorWidget
}.

Definition withModel (m : TreeModel) (w : World) : World :=
  {| selectedRepository := selectedRepository w; model := m;
     console := console w; editors := editors w |}.

Definition logError (line : string) (w : World) : World :=
  {| selectedRepository := selectedRepository w; model := model w;
     console := console w ++ [line]; editors := editors w |}.

Section Handlers.

(** [resource.open()]: [None] when the promise rejects, the world after
    it otherwise. *)
Variable open : ScmResource -> World -> option World.
(** [new URI(s).path.toString()]. *)
Variable URI_path : string -> string.
(** [DiffUris.DIFF_SCHEME]. *)
Variable DIFF_SCHEME : string.
(** The diff navigator of an editor: [canNavigate()], [hasPrevious()],
    [hasNext()], [previous()] and [next()]. *)
Variable canNavigate hasPrevious hasNext : EditorWidget -> World -> bool.
Variable previous next : EditorWidget -> World -> World.
(** [super.handleLeft(event)], [super.handleRight(event)] and
    [super.handleEnter(event)] of [TreeWidget]. *)
Variable TreeWidget_handleLeft TreeWidget_handleRight
         TreeWidget_handleEnter : World -> World.

(** The [for (const widget of this.editorManager.all)] of
    [openResource]. *)
Fixpoint findEditor (r : ScmResource) (all : list EditorWidget)
    (standaloneEditor : option EditorWidget) : option EditorWidget :=
  match all with
  | [] => standaloneEditor
  | widget :: rest =>
      let resourcePath := URI_path (resource_sourceUri r) in
      let editorResourcePath := option_map URI_path (ew_resourceUri widget) in
      let isDiff := String.eqb (ew_scheme widget) DIFF_SCHEME in
      if Js.strictEq (Some resourcePath) editorResourcePath then
        if isDiff then Some widget
        else
          findEditor r rest (Some widget)
      else if isDiff
              && Js.strictEq (ew_resourceUri widget)
                             (Some (resource_sourceUri r))
      then Some widget
      else findEditor r rest standaloneEditor
  end.

Definition openResource (r : ScmResource) (w : World)
    : World * option EditorWidget :=
  match open r w with
  | None => (logError "Failed to open a SCM resource" w, None)
  | Some w' => (w', findEditor r (editors w') None)
  end.

(** [getResourceFromNode(node)]; [None] is [undefined], and a group
    that is not found makes [group.resources] throw. *)
Definition getResourceFromNode (e : Entry) (w : World)
    : outcome (option ScmResource) :=
  match selectedRepository w with
  | None => Done None
  | Some provider =>
      let groupId := parent_groupId (e_parent e) in
      match find (fun g => String.eqb (group_id g) groupId)
              (provider_groups provider) with
      | None => TypeError
      | Some group =>
          Done (find (fun r => String.eqb (resource_sourceUri r)
                                 (sourceUri (e_node e)))
                  (group_resources group))
      end
  end.

(** The selected node when exactly one node is selected and it is a
    file. *)
Definition soleSelectedFile (w : World) : option Entry :=
  match selectedNodes (model w) with
  | [p] =>
      match nth_error (visible (model w)) p with
      | Some e => if FileChangeNode_is (e_node e) then Some e else None
      | None => None
      end
  | _ => None
  end.

(** Opening the file the cursor moved to: [openResource] is started and
    its editor is not used. *)
Definition openMoved (moved : option nat) (w : World) : outcome World :=
  match moved with
  | None => Done w
  | Some p =>
      match nth_error (visible (model w)) p with
      | None => Done w
      | Some e =>
          match getResourceFromNode e w with
          | Done (Some r) => Done (fst (openResource r w))
          | Done None => Done w
          | TypeError => TypeError
          | OutOfFuel => OutOfFuel
          end
      end
  end.

Definition handleLeft (w : World) : outcome World :=
  match selectedRepository w with
  | None => Done w
  | Some _ =>
      match soleSelectedFile w with
      | Some selectedNode =>
          match getResourceFromNode selectedNode w with
          | Done None => Done (TreeWidget_handleLeft w)
          | Done (Some selectedResource) =>
              match openResource selectedResource w with
              | (w1, Some widget) =>
                  if canNavigate widget w1 && hasPrevious widget w1
                  then Done (previous widget w1)
                  else
                    let '(m, previousNode) :=
                      moveToPreviousFileNode (model w1) in
                    openMoved previousNode (withModel m w1)
              | (w1, None) => Done (TreeWidget_handleLeft w1)
              end
          | TypeError => TypeError
          | OutOfFuel => OutOfFuel
          end
      | None => Done (TreeWidget_handleLeft w)
      end
  end.

Definition handleRight (w : World) : outcome World :=
  match selectedRepository w with
  | None => Done w
  | Some _ =>
      match soleSelectedFile w with
      | Some selectedNode =>
          match getResourceFromNode selectedNode w with
          | Done None => Done (TreeWidget_handleRight w)
          | Done (Some selectedResource) =>
              match openResource selectedResource w with
              | (w1, Some widget) =>
                  if canNavigate widget w1 && hasNext widget w1
                  then Done (next widget w1)
                  else
                    let '(m, nextNode) := moveToNextFileNode (model w1) in
                    openMoved nextNode (withModel m w1)
              | (w1, None) => Done w1
              end
          | TypeError => TypeError
          | OutOfFuel => OutOfFuel
          end
      | None => Done (TreeWidget_handleRight w)
      end
  end.

Definition handleEnter (w : World) : outcome World :=
  match soleSelectedFile w with
  | Some selectedNode =>
      match getResourceFromNode selectedNode w with
      | Done (Some selectedResource) =>
          Done (fst (openResource selectedResource w))
      | Done None => Done w
      | TypeError => TypeError
      | OutOfFuel => OutOfFuel
      end
  | None => Done (TreeWidget_handleEnter w)
  end.

End Handlers.

(** Modelled from the spec: [TreeWidget.handleLeft] of [@theia/core] is
    not part of these sources.  The spec calls it the default
    "collapse/expand/ancestor-navigation" handling, and the comment above
    [handleLeft] says that it collapses an expanded folder and otherwise
    "moves the selection up to the parent folder", with no effect below a
    group header.  A file has nothing to collapse, so for a file it is the
    move to the parent folder; this is the only case used below. *)
Definition isFolderEntry (g u : string) (e : Entry) : bool :=
  match e_node e with
  | FileChangeFolderNode _ g' _ u' _ _ _ => String.eqb g g' && String.eqb u u'
  | FileChangeNode _ _ _ _ => false
  end.

Fixpoint positionOf {A : Type} (f : A -> bool) (l : list A) : option nat :=
  match l with
  | [] => None
  | x :: l' => if f x then Some 0 else option_map S (positionOf f l')
  end.

Definition selectParent (w : World) : World :=
  match selectedNodes (model w) with
  | [p] =>
      match nth_error (visible (model w)) p with
      | Some e =>
          match e_parent e with
          | ParentFolder g u _ =>
              match positionOf (isFolderEntry g u) (visible (model w)) with
              | Some q => withModel (selectNode q (model w)) w
              | None => w
              end
          | ParentGroup _ _ => w
          end
      | None => w
      end
  | _ => w
  end.

(** ** View mode persistence *)

Inductive completion := Normal | Throws.

Definition ViewMode_string (v : ViewMode) : string :=
  match v with
  | tree => "tree"
  | flat => "flat"
  end.

Section Persistence.

(** What [TreeWidget] stores: opaque here. *)
Variable TreeState : Type.
(** [super.storeState()] and [super.restoreState(tree)]. *)
Variable TreeWidget_storeState : TreeState -> Js.value.
Variable TreeWidget_restoreState :
  Js.value -> TreeState -> TreeState * completion.

Record Widget := {
  _viewMode : ViewMode;
  treeState : TreeState
}.

(** [storeState()]; its two [console.warn] lines are not modelled. *)
Definition storeState (w : Widget) : Js.value :=
  Js.Obj [("mode", Js.Str (ViewMode_string (_viewMode w)));
          ("tree", TreeWidget_storeState (treeState w))].

(** [const { mode, tree } = oldState]: throws on [undefined] and [null],
    and reads [undefined] from a value without the property. *)
Definition destructure (oldState : Js.value)
    : option (Js.value * Js.value) :=
  match oldState with
  | Js.Undefined | Js.Null => None
  | Js.Obj fields => Some (Js.lookup "mode" fields, Js.lookup "tree" fields)
  | _ => Some (Js.Undefined, Js.Undefined)
  end.

(** [mode === 'tree']. *)
Definition isTreeMode (mode : Js.value) : bool :=
  match mode with
  | Js.Str s => String.eqb s "tree"
  | _ => false
  end.

Definition restoreState (oldState : Js.value) (w : Widget)
    : Widget * completion :=
  match destructure oldState with
  | None => (w, Throws)
  | Some (mode, tree_) =>
      let viewMode := if isTreeMode mode then tree else flat in
      let '(t, c) := TreeWidget_restoreState tree_ (treeState w) in
      ({| _viewMode := viewMode; treeState := t |}, c)
  end.

End Persistence.

Arguments _viewMode {TreeState} w.
Arguments treeState {TreeState} w.

(** ** The type guards on objects

    The guards of the source look at the property names of an object.
    [Keys] is the set of the names an object has; the node types above
    are the objects the builder makes, told apart by these guards. *)

Module Guards.

Definition Keys := list string.

(** ['k' in node]. *)
Definition has (k : string) (node : Keys) : bool :=
  existsb (String.eqb k) node.

(** [FileChangeFolderNode.is]. *)
Definition FileChangeFolderNode_is (node : Keys) : bool :=
  has "groupId" node && has "sourceUri" node && has "path" node
  && has "children" node.

(** [FileChangeGroupNode.is]. *)
Definition FileChangeGroupNode_is (node : Keys) : bool :=
  has "groupId" node && has "children" node
  && negb (FileChangeFolderNode_is node).

(** [FileChangeNode.is]. *)
Definition FileChangeNode_is (node : Keys) : bool :=
  has "sourceUri" node && negb (FileChangeFolderNode_is node).

(** The object literals of [createTree], [toGroupNode],
    [toFileChangeFolderNode] and [toFileChangeNode]. *)
Definition rootLiteral : Keys :=
  ["id"; "parent"; "visible"; "rootUri"; "children"].

Definition groupLiteral : Keys :=
  ["id"; "groupId"; "parent"; "children"; "expanded"].

Definition folderLiteral : Keys :=
  ["id"; "groupId"; "path"; "sourceUri"; "children"; "parent"; "expanded";
   "selected"].

Definition fileLiteral : Keys :=
  ["id"; "sourceUri"; "decorations"; "parent"; "selected"].

(** The three guards on an object, in the order group, folder, file. *)
Definition classify (node : Keys) : bool * bool * bool :=
  (FileChangeGroupNode_is node, FileChangeFolderNode_is node,
   FileChangeNode_is node).

End Guards.

(** ** The context menu of a folder *)

(** [ScmResourceFolderElement.collectUris(uris, node)]: the array after
    the call; [find(...)!] leaves [undefined] in it when the group has
    no resource at the location of a file. *)
Fixpoint collectUris (group : ScmResourceGroup)
    (uris : list (option ScmResource)) (n : node)
    : list (option ScmResource) :=
  match n with
  | FileChangeFolderNode _ _ _ _ c _ _ =>
      fold_left (fun uris child => collectUris group uris child) c uris
  | FileChangeNode _ u _ _ =>
      uris ++ [find (fun r => String.eqb (resource_sourceUri r) u)
                 (group_resources group)]
  end.

(** [ScmResourceFolderElement.contextMenuArgs]. *)
Definition folderContextMenuArgs (group : ScmResourceGroup) (n : node)
    : list (option ScmResource) * bool :=
  (collectUris group [] n, true).

(** [repository.provider.groups.find(g => g.id === groupId)], the group
    [renderNode] hands to the element of a node. *)
Definition findGroup (provider : ScmProvider) (groupId : string)
    : option ScmResourceGroup :=
  find (fun g => String.eqb (group_id g) groupId) (provider_groups provider).

(** ** [ScmWidget]: the view that holds the tree widget

    [packages/scm/src/browser/scm-widget.tsx].  [CommitState] is what the
    commit widget keeps; its [storeState] and [restoreState] are not part
    of these sources. *)

Section ScmWidget.

Variable TreeState : Type.
Variable TreeWidget_storeState : TreeState -> Js.value.
Variable TreeWidget_restoreState :
  Js.value -> TreeState -> TreeState * completion.
Variable CommitState : Type.
(** [this.commitWidget.storeState()] and
    [this.commitWidget.restoreState(commitState)]. *)
Variable ScmCommitWidget_storeState : CommitState -> Js.value.
Variable ScmCommitWidget_restoreState :
  Js.value -> CommitState -> CommitState * completion.

Record ScmWidget := {
  commitWidget : CommitState;
  resourceWidget : Widget TreeState
}.

(** [get viewMode()]. *)
Definition ScmWidget_viewMode (w : ScmWidget) : ViewMode :=
  _viewMode (resourceWidget w).

(** [ScmWidget.storeState()]; its two [console.warn] lines are not
    modelled. *)
Definition ScmWidget_storeState (w : ScmWidget) : Js.value :=
  Js.Obj [("commitState", ScmCommitWidget_storeState (commitWidget w));
          ("changesTreeState",
           storeState TreeState TreeWidget_storeState (resourceWidget w))].

(** [const { commitState, changesTreeState } = oldState]. *)
Definition ScmWidget_destructure (oldState : Js.value)
    : option (Js.value * Js.value) :=
  match oldState with
  | Js.Undefined | Js.Null => None
  | Js.Obj fields =>
      Some (Js.lookup "commitState" fields,
            Js.lookup "changesTreeState" fields)
  | _ => Some (Js.Undefined, Js.Undefined)
  end.

(** [ScmWidget.restoreState(oldState)]: the commit widget first, and the
    tree widget when that call returns. *)
Definition ScmWidget_restoreState (oldState : Js.value) (w : ScmWidget)
    : ScmWidget * completion :=
  match ScmWidget_destructure oldState with
  | None => (w, Throws)
  | Some (commitState, changesTreeState) =>
      let '(c, done) :=
        ScmCommitWidget_restoreState commitState (commitWidget w) in
      match done with
      | Throws => ({| commitWidget := c;
                      resourceWidget := resourceWidget w |}, Throws)
      | Normal =>
          let '(t, done') :=
            restoreState TreeState TreeWidget_restoreState changesTreeState
              (resourceWidget w) in
          ({| commitWidget := c; resourceWidget := t |}, done')
      end
  end.

End ScmWidget.

Arguments commitWidget {TreeState CommitState} s.
Arguments resourceWidget {TreeState CommitState} s.

(** ** [revealNode]

    A node of the tree in place together with its [parent] links, and
    with the [expanded] flag of the nodes that have one. *)

Inductive LinkedNode :=
| LinkedRoot
| LinkedGroup (id : string) (expanded : bool)
| LinkedFolder (id : string) (expanded : bool) (parent : LinkedNode)
| LinkedFile (id : string) (parent : LinkedNode).

(** Modelled from the spec: [ExpandableTreeNode.is] of [@theia/core] is
    not part of these sources; as for the builder, the groups and the
    folders carry an [expanded] flag. *)
Definition LinkedNode_isExpandable (n : LinkedNode) : bool :=
  match n with
  | LinkedGroup _ _ | LinkedFolder _ _ _ => true
  | _ => false
  end.

(** [node.expanded]. *)
Definition LinkedNode_expanded (n : LinkedNode) : bool :=
  match n with
  | LinkedGroup _ e | LinkedFolder _ e _ => e
  | _ => false
  end.

(** [node.id]. *)
Definition LinkedNode_id (n : LinkedNode) : string :=
  match n with
  | LinkedRoot => "file-change-tree-root"
  | LinkedGroup id _ | LinkedFolder id _ _ | LinkedFile id _ => id
  end.

(** Modelled from the spec: [model.expandNode] of [@theia/core] is not
    part of these sources.  The spec has the reveal "expand" each
    ancestor; here [expandNode(node)] sets the [expanded] flag of [node],
    and the calls are recorded by the id of their node. *)
Definition expandNode (n : LinkedNode) (calls : list string)
    : LinkedNode * list string :=
  (match n with
   | LinkedGroup id _ => LinkedGroup id true
   | LinkedFolder id _ p => LinkedFolder id true p
   | _ => n
   end,
   (calls ++ [LinkedNode_id n])%list).

(** [if (!parentNode.expanded) await this.model.expandNode(parentNode)]. *)
Definition expandIfCollapsed (parentNode : LinkedNode) (calls : list string)
    : LinkedNode * list string :=
  if negb (LinkedNode_expanded parentNode) then expandNode parentNode calls
  else (parentNode, calls).

(** [revealNode(node)], its awaits taken in sequence: the node with its
    links, and the calls of [expandNode], after the call. *)
Fixpoint revealNode (node : LinkedNode) (calls : list string)
    : LinkedNode * list string :=
  match node with
  | LinkedFolder id e parentNode =>
      if LinkedNode_isExpandable parentNode then
        let '(p, c) := revealNode parentNode calls in
        let '(p', c') := expandIfCollapsed p c in
        (LinkedFolder id e p', c')
      else (node, calls)
  | LinkedFile id parentNode =>
      if LinkedNode_isExpandable parentNode then
        let '(p, c) := revealNode parentNode calls in
        let '(p', c') := expandIfCollapsed p c in
        (LinkedFile id p', c')
      else (node, calls)
  | _ => (node, calls)
  end.

(** ** The nodes of a forest *)

(** The nodes of a forest, a node before its children. *)
Fixpoint nodesOf (n : node) : list node :=
  n :: match n with
       | FileChangeNode _ _ _ _ => []
       | FileChangeFolderNode _ _ _ _ c _ _ => flat_map nodesOf c
       end.

(** ** The nodes a model holds *)

(** [node.id] of any node of the tree. *)
Definition TreeNode_id (t : TreeNode) : string :=
  match t with
  | RootOf _ => "file-change-tree-root"
  | GroupOf g => gn_id g
  | NodeOf n => node_id n
  end.

(** The nodes of a tree from the root down, a node before its
    children. *)
Definition heldBy (r : FileChangeGroupRoot) : list TreeNode :=
  RootOf r ::
  flat_map (fun g => GroupOf g
                     :: map NodeOf (flat_map nodesOf (gn_children g)))
    (root_children r).

(** Modelled from the spec: the tree model of [@theia/core] is not part
    of these sources.  The spec has it provide "node storage by id";
    here [model.getNode(id)], once [model.root] is set to [r], is the
    node of [r] with that id, and no node of an earlier root is left. *)
Definition modelOf (r : FileChangeGroupRoot) (id : string)
    : option TreeNode :=
  find (fun held => String.eqb (TreeNode_id held) id) (heldBy r).

(** ** A sample tree, model and world *)

Module Samples.

Import Instances.

(** A previous tree in which the folder [c] is collapsed. *)
Definition collapsedC (id : string) : option TreeNode :=
  if String.eqb id "changes:file:///repo/c" then
    Some (NodeOf (FileChangeFolderNode "changes:file:///repo/c" "changes"
                    "c" "file:///repo/c" [] false false))
  else None.

Definition sampleProvider : ScmProvider :=
  providerOf ["file:///repo/a/x.txt"; "file:///repo/c/z.txt"].

(** The tree of [a/x.txt] and [c/z.txt] over [collapsedC]: the folder
    [a] open, the folder [c] closed. *)
Definition sampleRoot : FileChangeGroupRoot :=
  {| root_rootUri := Some repo;
     root_children :=
       [{| gn_id := "changes";
           gn_groupId := "changes";
           gn_children :=
             [FileChangeFolderNode "changes:file:///repo/a" "changes" "a"
                "file:///repo/a"
                [FileChangeNode "changes:file:///repo/a/x.txt"
                   "file:///repo/a/x.txt" None false]
                true false;
              FileChangeFolderNode "changes:file:///repo/c" "changes" "c"
                "file:///repo/c"
                [FileChangeNode "changes:file:///repo/c/z.txt"
                   "file:///repo/c/z.txt" None false]
                false false];
           gn_expanded := true |}] |}.

(** The model of [sampleRoot] with the file [a/x.txt] selected: the
    visible selectable nodes are the folder [a], the file [a/x.txt]
    and the folder [c], at positions 0, 1 and 2. *)
Definition sampleModel : TreeModel :=
  {| visible := visibleEntries sampleRoot; selectedNodes := [1] |}.

(** The model of the folder [a] with the files [a/x.txt] and [a/y.txt],
    at positions 0, 1 and 2, the first file selected. *)
Definition twoFiles : TreeModel :=
  {| visible :=
       visibleBelow (ParentGroup "changes" (Some repo))
         (FileChangeFolderNode "changes:file:///repo/a" "changes" "a"
            "file:///repo/a"
            [FileChangeNode "changes:file:///repo/a/x.txt"
               "file:///repo/a/x.txt" None false;
             FileChangeNode "changes:file:///repo/a/y.txt"
               "file:///repo/a/y.txt" None false]
            true false);
     selectedNodes := [1] |}.

(** The tree of [a/x.txt] and [c/z.txt] with both folders open. *)
Definition openRoot : FileChangeGroupRoot :=
  {| root_rootUri := Some repo;
     root_children :=
       [{| gn_id := "changes";
           gn_groupId := "changes";
           gn_children :=
             [FileChangeFolderNode "changes:file:///repo/a" "changes" "a"
                "file:///repo/a"
                [FileChangeNode "changes:file:///repo/a/x.txt"
                   "file:///repo/a/x.txt" None false]
                true false;
              FileChangeFolderNode "changes:file:///repo/c" "changes" "c"
                "file:///repo/c"
                [FileChangeNode "changes:file:///repo/c/z.txt"
                   "file:///repo/c/z.txt" None false]
                true false];
           gn_expanded := true |}] |}.

(** The model of [openRoot] with the file [a/x.txt] selected: the
    visible selectable nodes are the folder [a], the file [a/x.txt], the
    folder [c] and the file [c/z.txt], at positions 0 to 3. *)
Definition openModel : TreeModel :=
  {| visible := visibleEntries openRoot; selectedNodes := [1] |}.

(** The flat tree of [a/x.txt] and [c/z.txt]. *)
Definition flatRoot : FileChangeGroupRoot :=
  {| root_rootUri := Some repo;
     root_children :=
       [{| gn_id := "changes";
           gn_groupId := "changes";
           gn_children :=
             [FileChangeNode "changes:file:///repo/a/x.txt"
                "file:///repo/a/x.txt" None false;
              FileChangeNode "changes:file:///repo/c/z.txt"
                "file:///repo/c/z.txt" None false];
           gn_expanded := true |}] |}.

Definition sampleWorld : World :=
  {| selectedRepository := Some sampleProvider;
     model := sampleModel;
     console := [];
     editors := [] |}.

(** A resource whose [open()] always rejects. *)
Definition rejecting (r : ScmResource) (w : World) : option World := None.

(** Editors without a diff to navigate. *)
Definition noChunks (e : EditorWidget) (w : World) : bool := false.
Definition stay (e : EditorWidget) (w : World) : World := w.

Definition pathOfUri (uri : string) : string := uri.

End Samples.

(** ** Further samples *)

Module MoreSamples.

Import Instances.
Import Samples.

(** The group node of [sampleRoot]. *)
Definition sampleGroupNode : FileChangeGroupNode :=
  {| gn_id := "changes";
     gn_groupId := "changes";
     gn_children :=
       [FileChangeFolderNode "changes:file:///repo/a" "changes" "a"
          "file:///repo/a"
          [FileChangeNode "changes:file:///repo/a/x.txt"
             "file:///repo/a/x.txt" None false]
          true false;
        FileChangeFolderNode "changes:file:///repo/c" "changes" "c"
          "file:///repo/c"
          [FileChangeNode "changes:file:///repo/c/z.txt"
             "file:///repo/c/z.txt" None false]
          false false];
     gn_expanded := true |}.

(** The forest of [a/x.txt], [a/y.txt], [b.txt] over an empty model. *)
Definition xybForest : list node :=
  [FileChangeFolderNode "changes:file:///repo/a" "changes" "a"
     "file:///repo/a"
     [FileChangeNode "changes:file:///repo/a/x.txt" "file:///repo/a/x.txt"
        None false;
      FileChangeNode "changes:file:///repo/a/y.txt" "file:///repo/a/y.txt"
        None false]
     true false;
   FileChangeNode "changes:file:///repo/b.txt" "file:///repo/b.txt"
     None false].

(** The tree of [a/x.txt], [a/y.txt], [b.txt] over [previousModel]:
    the folder [a] closed and the file [a/x.txt] selected. *)
Definition selectedFile : node :=
  FileChangeNode "changes:file:///repo/a/x.txt" "file:///repo/a/x.txt"
    None true.

Definition selectedRoot : FileChangeGroupRoot :=
  {| root_rootUri := Some repo;
     root_children :=
       [{| gn_id := "changes";
           gn_groupId := "changes";
           gn_children :=
             [FileChangeFolderNode "changes:file:///repo/a" "changes" "a"
                "file:///repo/a"
                [selectedFile;
                 FileChangeNode "changes:file:///repo/a/y.txt"
                   "file:///repo/a/y.txt" None false]
                false false;
              FileChangeNode "changes:file:///repo/b.txt"
                "file:///repo/b.txt" None false];
           gn_expanded := true |}] |}.

(** A tree widget and a commit widget that keep nothing, and a stored
    view in [tree] mode. *)
Definition noState (t : unit) : Js.value := Js.Undefined.

Definition restoreNothing (v : Js.value) (t : unit) : unit * completion :=
  (t, Normal).

Definition treeView : ScmWidget unit unit :=
  {| commitWidget := tt;
     resourceWidget := {| _viewMode := tree; treeState := tt |} |}.

Definition flatView : ScmWidget unit unit :=
  {| commitWidget := tt;
     resourceWidget := {| _viewMode := flat; treeState := tt |} |}.

(** A world in which the files [a/x.txt] and [a/y.txt] are shown below
    the folder [a], the first one is selected, and a diff editor is open
    on it; [open()] resolves and changes nothing. *)
Definition diffOfX : EditorWidget :=
  {| ew_resourceUri := Some "file:///repo/a/x.txt"; ew_scheme := "diff" |}.

Definition twoFilesWorld : World :=
  {| selectedRepository :=
       Some (providerOf ["file:///repo/a/x.txt"; "file:///repo/a/y.txt"]);
     model := twoFiles;
     console := [];
     editors := [diffOfX] |}.

Definition resolving (r : ScmResource) (w : World) : option World := Some w.

(** The files [a/x] and [a/z] with [b/y] between them. *)
Definition interleaved : list ResourcePath :=
  [{| resource := change "file:///repo/a/x"; pathParts := ["a"; "x"] |};
   {| resource := change "file:///repo/b/y"; pathParts := ["b"; "y"] |};
   {| resource := change "file:///repo/a/z"; pathParts := ["a"; "z"] |}].

(** A default key handling that does nothing. *)
Definition untouched (w : World) : World := w.

End MoreSamples.

(** ** Vocabulary of the properties *)

(** [a] is not after [b] for the comparator [cmp]. *)
Definition cmpLe {A : Type} (cmp : A -> A -> Z) (a b : A) : Prop :=
  (cmp a b <= 0)%Z.

(** [occursIn n l]: [n] is a node of the forest [l], at any depth. *)
Inductive occursIn (n : node) : list node -> Prop :=
| occurs_here : forall l, In n l -> occursIn n l
| occurs_below : forall l f,
    In f l -> occursIn n (children f) -> occursIn n l.

Section Ordering.

Variable localeCompare : string -> string -> Z.

(** [a] may stand before [b] among siblings: no file before a folder,
    and ascending [sourceUri] within a kind. *)
Definition orderedPair (a b : node) : Prop :=
  (FileChangeFolderNode_is b = true -> FileChangeFolderNode_is a = true)
  /\ (FileChangeFolderNode_is a = FileChangeFolderNode_is b ->
      (localeCompare (sourceUri a) (sourceUri b) <= 0)%Z).

Definition siblingsOrdered (l : list node) : Prop :=
  forall i j a b,
    i < j -> nth_error l i = Some a -> nth_error l j = Some b ->
    orderedPair a b.

(** Every node of the forest [l], and [l] itself, has ordered children. *)
Definition forestOrdered (l : list node) : Prop :=
  siblingsOrdered l
  /\ forall n, occursIn n l -> siblingsOrdered (children n).

Definition rootOrdered (r : FileChangeGroupRoot) : Prop :=
  forall g, In g (root_children r) -> forestOrdered (gn_children g).

(** A comparator a sort can rely on. *)
Definition consistent : Prop :=
  (forall a b, (localeCompare a b <= 0)%Z \/ (localeCompare b a <= 0)%Z)
  /\ (forall a b c,
        (localeCompare a b <= 0)%Z -> (localeCompare b c <= 0)%Z ->
        (localeCompare a c <= 0)%Z).

End Ordering.

Section Reconciliation.

Variable getNode : string -> option TreeNode.
Variable props : ScmTreeProps.

(** The configured default: expanded unless the configuration says
    collapsed. *)
Definition configuredExpansion : bool :=
  match defaultExpansion props with
  | Some collapsed => false
  | _ => true
  end.

(** A node takes its flags from the node the model holds under its id:
    the selection flag of a folder or file found there, and for a folder
    the expansion flag of a folder or group found there. *)
Definition flagged (n : node) : Prop :=
  selected n = match getNode (node_id n) with
               | Some (NodeOf o) => selected o
               | _ => false
               end
  /\ match n with
     | FileChangeNode _ _ _ _ => True
     | FileChangeFolderNode id _ _ _ _ e _ =>
         e = match getNode id with
             | Some (GroupOf o) => gn_expanded o
             | Some (NodeOf (FileChangeFolderNode _ _ _ _ _ e' _)) => e'
             | _ => configuredExpansion
             end
     end.

(** A folder or file of the group [groupId] is reconciled with the node
    the model holds under its identity key, which is [groupId], a colon
    and the [sourceUri] of the node.  The key is the id of the node; a
    folder carries [groupId]; the selection flag is the one of a folder
    or file found under the key, and the expansion flag of a folder is
    the one of a folder or group found there.  Without such a node, a
    folder or file is not selected and a folder has the configured
    expansion. *)
Definition reconciled (groupId : string) (n : node) : Prop :=
  let key := groupId ++ ":" ++ sourceUri n in
  node_id n = key
  /\ selected n = match getNode key with
                  | Some (NodeOf o) => selected o
                  | _ => false
                  end
  /\ match n with
     | FileChangeNode _ _ _ _ => True
     | FileChangeFolderNode _ g _ _ _ e _ =>
         g = groupId
         /\ e = match getNode key with
                | Some (GroupOf o) => gn_expanded o
                | Some (NodeOf (FileChangeFolderNode _ _ _ _ _ e' _)) => e'
                | _ => configuredExpansion
                end
     end.

End Reconciliation.

(** The group id in the identity key of a node below the group node [g]:
    a folder has the one of [g]; a file has [resource.group.id] of its
    resource, a resource of the group of [g] with the [sourceUri] of the
    file. *)
Definition keyGroup (provider : ScmProvider) (g : FileChangeGroupNode)
    (n : node) (groupId : string) : Prop :=
  match n with
  | FileChangeFolderNode _ _ _ _ _ _ _ => groupId = gn_groupId g
  | FileChangeNode _ u _ _ =>
      exists group res,
        In group (provider_groups provider)
        /\ group_id group = gn_groupId g
        /\ In res (group_resources group)
        /\ resource_sourceUri res = u
        /\ groupId = resource_group_id res
  end.

(** Every resource names, as [resource.group], the group that lists
    it. *)
Definition groupsNamed (provider : ScmProvider) : Prop :=
  forall group res,
    In group (provider_groups provider) ->
    In res (group_resources group) ->
    resource_group_id res = group_id group.

(** The files of a forest, left to right. *)
Fixpoint filesOf (n : node) : list node :=
  match n with
  | FileChangeNode _ _ _ _ => [n]
  | FileChangeFolderNode _ _ _ _ c _ _ => flat_map filesOf c
  end.

(** The leaf [toFileChangeNode] builds for a resource. *)
Definition leafOf (getNode : string -> option TreeNode) (r : ScmResource)
    : node :=
  let id := resource_group_id r ++ ":" ++ resource_sourceUri r in
  FileChangeNode id (resource_sourceUri r) (resource_decorations r)
    (SelectableTreeNode_is (getNode id) && old_selected (getNode id)).

(** The folder [toFileChangeFolderNode] builds below [parent] for the
    relative path [nodeRelativePath], once its children are known. *)
Definition folderOf (URI_resolve : option string -> string -> string)
    (getNode : string -> option TreeNode) (props : ScmTreeProps)
    (parent : Parent) (nodeRelativePath : string) (children : list node)
    : node :=
  let parentPath :=
    match parent with
    | ParentFolder _ u _ => Some u
    | ParentGroup _ _ => Ancestor_rootUri (getRoot parent)
    end in
  let sourceUri := URI_resolve parentPath nodeRelativePath in
  let id := parent_groupId parent ++ ":" ++ sourceUri in
  let oldNode := getNode id in
  FileChangeFolderNode id (parent_groupId parent) nodeRelativePath sourceUri
    children
    (if ExpandableTreeNode_is oldNode then old_expanded oldNode
     else match defaultExpansion props with
          | Some collapsed => false
          | _ => true
          end)
    (SelectableTreeNode_is oldNode && old_selected oldNode).

(** The [parent] that the children of that folder are built under. *)
Definition folderParent (URI_resolve : option string -> string -> string)
    (parent : Parent) (nodeRelativePath : string) : Parent :=
  let parentPath :=
    match parent with
    | ParentFolder _ u _ => Some u
    | ParentGroup _ _ => Ancestor_rootUri (getRoot parent)
    end in
  ParentFolder (parent_groupId parent)
    (URI_resolve parentPath nodeRelativePath) parent.

(** [resources.slice(from, to)] as the leaves of its resources. *)
Definition leavesOf (getNode : string -> option TreeNode)
    (resources : list ResourcePath) (from to : nat) : list node :=
  map (fun r => leafOf getNode (resource r)) (Js.slice from to resources).

(** Path segments of a range of resources. *)
Definition partsAt (resources : list ResourcePath) (i : nat) : list string :=
  match nth_error resources i with
  | Some r => pathParts r
  | None => []
  end.

(** [p] and [q] have the same first [l] segments. *)
Definition sharePrefix (l : nat) (p q : list string) : Prop :=
  l <= length p /\ firstn l p = firstn l q.

(** [p] is [q] cut short. *)
Definition properPrefix (p q : list string) : Prop :=
  length p < length q /\ firstn (length p) q = p.

(** The condition under which the folder boundary moves past [k]: both
    file names lie further right and the two paths agree at [k]. *)
Definition agreeAt (firstFileParts lastFileParts : list string) (k : nat)
    : Prop :=
  (Z.of_nat k < lastIndex firstFileParts)%Z
  /\ (Z.of_nat k < lastIndex lastFileParts)%Z
  /\ nth_error firstFileParts k = nth_error lastFileParts k.

(** Resources of [start, end) that share leading segments are
    contiguous. *)
Definition contiguous (resources : list ResourcePath) (start end_ : nat)
    : Prop :=
  forall i j k l,
    start <= i -> i <= j -> j <= k -> k < end_ ->
    sharePrefix l (partsAt resources i) (partsAt resources k) ->
    sharePrefix l (partsAt resources i) (partsAt resources j).

(** No resource of [start, end) is a proper prefix of an earlier one. *)
Definition noLaterPrefix (resources : list ResourcePath) (start end_ : nat)
    : Prop :=
  forall i j,
    start <= i -> i < j -> j < end_ ->
    ~ properPrefix (partsAt resources j) (partsAt resources i).

(** What the recursion keeps: more than [level] segments everywhere in
    the range, and the first [level] of them shared. *)
Definition levelBelow (resources : list ResourcePath) (start end_ level : nat)
    : Prop :=
  forall i, start <= i -> i < end_ ->
    level < length (partsAt resources i)
    /\ firstn level (partsAt resources i) = firstn level (partsAt resources start).

Definition maxLength (resources : list ResourcePath) : nat :=
  fold_right (fun r m => Nat.max (length (pathParts r)) m) 0 resources.

(** Lists sorted by path segments, for an order [before] on segments: a
    path stands before the paths it is a prefix of. *)
Section SegmentOrder.

Variable before : string -> string -> Prop.

Inductive lexLe : list string -> list string -> Prop :=
| lexLe_nil : forall q, lexLe [] q
| lexLe_before : forall x y p q, before x y -> lexLe (x :: p) (y :: q)
| lexLe_same : forall x p q, lexLe p q -> lexLe (x :: p) (x :: q).

Definition sortedBySegments (resources : list ResourcePath)
    (start end_ : nat) : Prop :=
  forall i j, start <= i -> i <= j -> j < end_ ->
    lexLe (partsAt resources i) (partsAt resources j).

End SegmentOrder.

(** [under chain n l]: the file [n] is reached from the forest [l]
    through the folders whose [path] fields are [chain], outermost
    first. *)
Inductive under : list string -> node -> list node -> Prop :=
| under_here : forall n l,
    In n l -> FileChangeNode_is n = true -> under [] n l
| under_below : forall id g path u c e sel chain n l,
    In (FileChangeFolderNode id g path u c e sel) l ->
    under chain n c -> under (path :: chain) n l.

(** The file [n] is the leaf of a resource of [lo, hi), and the folders
    of [chain] spell the segments of that resource from [level] up to
    some [t] before its file name: each folder shows a block of
    consecutive segments joined by slashes, and the blocks follow one
    another.  With a threshold of at most 1 they end at the file name. *)
Definition mirrors (getNode : string -> option TreeNode)
    (props : ScmTreeProps) (resources : list ResourcePath)
    (lo hi level : nat) (chain : list string) (n : node) : Prop :=
  exists i r pieces t,
    lo <= i < hi
    /\ nth_error resources i = Some r
    /\ n = leafOf getNode (resource r)
    /\ chain = map (Js.join "/") pieces
    /\ Forall (fun piece => piece <> []) pieces
    /\ concat pieces = Js.slice level t (pathParts r)
    /\ level <= t < length (pathParts r)
    /\ ((threshold props <= 1)%Z -> S t = length (pathParts r)).

(** [placed top p n l]: in the forest [l], the children of [top], the
    node [n] stands at any depth with the [parent] link [p]. *)
Inductive placed (top : Parent) : Parent -> node -> list node -> Prop :=
| placed_here : forall n l, In n l -> placed top top n l
| placed_below : forall id g path u c e sel p n l,
    In (FileChangeFolderNode id g path u c e sel) l ->
    placed (ParentFolder g u top) p n c ->
    placed top p n l.

(** Where the children of a parent lie: [parent.sourceUri] for a folder,
    the [rootUri] of the root for a group. *)
Definition location (p : Parent) : option string :=
  match p with
  | ParentGroup _ rootUri => rootUri
  | ParentFolder _ u _ => Some u
  end.

(** A folder below [p] belongs to the group of [p], lies at its [path]
    resolved against the location of [p], and has the id made of the
    two. *)
Definition located (URI_resolve : option string -> string -> string)
    (p : Parent) (n : node) : Prop :=
  match n with
  | FileChangeNode _ _ _ _ => True
  | FileChangeFolderNode id g path u _ _ _ =>
      g = parent_groupId p
      /\ u = URI_resolve (location p) path
      /\ id = g ++ ":" ++ u
  end.

(** What a run of the builder that made the files [files] does to
    [selectionService.selection]: nothing when none of them is selected,
    and otherwise it leaves one of the selected files there. *)
Definition selectionWritten (files : list node) (s s' : Selection) : Prop :=
  (Forall (fun n => selected n = false) files /\ s' = s)
  \/ (exists n, In n files /\ selected n = true /\ s' = Some n).

(** The files of a tree, group by group. *)
Definition filesOfRoot (r : FileChangeGroupRoot) : list node :=
  flat_map (fun g => flat_map filesOf (gn_children g)) (root_children r).

Section Editors.

Variable URI_path : string -> string.
Variable DIFF_SCHEME : string.

(** [resourcePath === editorResourcePath]. *)
Definition samePath (r : ScmResource) (widget : EditorWidget) : bool :=
  Js.strictEq (Some (URI_path (resource_sourceUri r)))
    (option_map URI_path (ew_resourceUri widget)).

(** A diff editor on the path or on the location of the resource. *)
Definition diffEditorOf (r : ScmResource) (widget : EditorWidget) : bool :=
  String.eqb (ew_scheme widget) DIFF_SCHEME
  && (samePath r widget
      || Js.strictEq (ew_resourceUri widget) (Some (resource_sourceUri r))).

(** The editor [openResource] is after: the first diff editor of the
    resource, and without one the last editor on its path. *)
Definition preferredEditor (r : ScmResource) (all : list EditorWidget)
    : option EditorWidget :=
  match find (diffEditorOf r) all with
  | Some widget => Some widget
  | None => find (samePath r) (rev all)
  end.

End Editors.

(** The groups [createTree] shows: those with resources, and the empty
    ones that are not hidden when empty. *)
Definition shownGroups (provider : ScmProvider) : list ScmResourceGroup :=
  filter (fun group =>
            negb (length (group_resources group) =? 0)%nat
            || negb (group_hideWhenEmpty group))
    (provider_groups provider).

(** The group node of [flat] mode: one leaf per resource, in the order of
    the group. *)
Definition flatGroupNode (getNode : string -> option TreeNode)
    (group : ScmResourceGroup) : FileChangeGroupNode :=
  {| gn_id := group_id group;
     gn_groupId := group_id group;
     gn_children := map (leafOf getNode) (group_resources group);
     gn_expanded := true |}.

(** The nodes above a folder or file that hide it while collapsed: its
    parent, and so on outwards through the folders up to the group. *)
Fixpoint wayTo (node : LinkedNode) : list LinkedNode :=
  match node with
  | LinkedFolder _ _ parentNode | LinkedFile _ parentNode =>
      if LinkedNode_isExpandable parentNode
      then parentNode :: wayTo parentNode
      else []
  | _ => []
  end.

(** The ids of the collapsed nodes of a list. *)
Definition collapsedIds (l : list LinkedNode) : list string :=
  map LinkedNode_id (filter (fun n => negb (LinkedNode_expanded n)) l).

(** A folder holds at least one file, and at least as many files as the
    threshold. *)
Definition wellFilled (props : ScmTreeProps) (n : node) : Prop :=
  FileChangeFolderNode_is n = true ->
  1 <= length (filesOf n)
  /\ (threshold props <= Z.of_nat (length (filesOf n)))%Z.



(** [node.path] of a folder. *)
Definition node_path (n : node) : string :=
  match n with
  | FileChangeFolderNode _ _ path _ _ _ _ => path
  | FileChangeNode _ _ _ _ => ""
  end.

(** No two folders of a list of siblings have the same [path]. *)
Definition distinctFolders (l : list node) : Prop :=
  NoDup (map node_path (filter FileChangeFolderNode_is l)).

(** The siblings of a forest, at every depth, have distinct folders. *)
Definition forestDistinct (l : list node) : Prop :=
  distinctFolders l
  /\ forall n, occursIn n l -> distinctFolders (children n).

(** What stands before the first slash of a string. *)
Fixpoint untilSlash (s : string) : string :=
  match s with
  | EmptyString => EmptyString
  | String c rest =>
      if Ascii.eqb c "/" then EmptyString else String c (untilSlash rest)
  end.

(** A segment without a slash, as [split('/')] gives them. *)
Definition noSlash (segment : string) : Prop := untilSlash segment = segment.

(** The folder [f] was made for a run of [lo, hi) that ends at [e] and
    whose resources have the segment [untilSlash (node_path f)] at
    [level]; the resource at [e] has another one. *)
Definition keyed (resources : list ResourcePath) (end_ level lo hi : nat)
    (f : node) : Prop :=
  exists i e,
    lo <= i /\ i < e /\ e <= hi
    /\ nth_error (partsAt resources i) level
       = Some (untilSlash (node_path f))
    /\ (e < end_ ->
        nth_error (partsAt resources e) level
        <> Some (untilSlash (node_path f))).

(** * Properties *)

Open Scope list_scope.

(** ** The monad and the leaves *)

Lemma bind_Done {A B : Type} (m : M A) (k : A -> M B) s a s' :
  m s = Done (a, s') -> bind m k s = k a s'.
Proof. unfold bind; intros ->; reflexivity. Qed.

Lemma bind_inv {A B : Type} (m : M A) (k : A -> M B) s b s' :
  bind m k s = Done (b, s') ->
  exists a s1, m s = Done (a, s1) /\ k a s1 = Done (b, s').
Proof.
  unfold bind; destruct (m s) as [[a s1]| |]; try discriminate.
  intros H; exists a, s1; auto.
Qed.

Section LeafFacts.

Variable getNode : string -> option TreeNode.

Lemma toFileChangeNode_Done r s :
  exists s', toFileChangeNode getNode r s = Done (leafOf getNode r, s').
Proof.
  unfold toFileChangeNode, leafOf; cbn.
  destruct (SelectableTreeNode_is _ && old_selected _); eexists; reflexivity.
Qed.

Lemma toFileChangeNode_inv r s n s' :
  toFileChangeNode getNode r s = Done (n, s') -> n = leafOf getNode r.
Proof.
  destruct (toFileChangeNode_Done r s) as [s1 ->]; congruence.
Qed.

Lemma mapM_leaves l : forall s,
  exists s', mapM (toFileChangeNode getNode) l s
             = Done (map (leafOf getNode) l, s').
Proof.
  induction l as [|r l IH]; intros s; cbn.
  - eexists; reflexivity.
  - destruct (toFileChangeNode_Done r s) as [s1 H1].
    rewrite (bind_Done _ _ _ _ _ H1).
    destruct (IH s1) as [s2 H2].
    rewrite (bind_Done _ _ _ _ _ H2). eexists; reflexivity.
Qed.

Lemma slice_step {A : Type} (l : list A) i n x :
  nth_error l i = Some x ->
  Js.slice i (i + S n) l = x :: Js.slice (S i) (S i + n) l.
Proof.
  unfold Js.slice. replace (i + S n - i) with (S n) by lia.
  replace (S i + n - S i) with n by lia.
  revert i; induction l as [|y l IH]; intros [|i] H; cbn in *; try discriminate.
  - injection H as ->. reflexivity.
  - apply IH in H. cbn in H. exact H.
Qed.

Lemma inlineRun_Done resources n : forall i result s,
  i + n <= length resources ->
  exists s', inlineRun getNode resources n i result s
             = Done (result ++ leavesOf getNode resources i (i + n), s').
Proof.
  induction n as [|n IH]; intros i result s Hlen; cbn.
  - unfold leavesOf, Js.slice. replace (i + 0 - i) with 0 by lia.
    cbn. rewrite app_nil_r. eexists; reflexivity.
  - destruct (nth_error resources i) as [r|] eqn:Hr.
    2:{ apply nth_error_None in Hr. lia. }
    destruct (toFileChangeNode_Done (resource r) s) as [s1 H1].
    rewrite (bind_Done _ _ _ _ _ H1).
    destruct (IH (S i) (result ++ [leafOf getNode (resource r)]) s1) as [s2 H2];
      [lia|].
    rewrite H2. exists s2. f_equal. f_equal.
    unfold leavesOf. rewrite (slice_step _ _ _ _ Hr). cbn.
    rewrite <- app_assoc. reflexivity.
Qed.

End LeafFacts.

(** ** The loops of [buildFileChangeTree] *)

Lemma strictEq_true x y : Js.strictEq x y = true <-> x = y.
Proof.
  destruct x as [a|], y as [b|]; cbn; split; intros H; try congruence.
  - apply String.eqb_eq in H. congruence.
  - injection H as ->. apply String.eqb_refl.
Qed.

Lemma partsAt_nth resources i r :
  nth_error resources i = Some r -> partsAt resources i = pathParts r.
Proof. unfold partsAt; intros ->; reflexivity. Qed.

Lemma runEnd_spec resources level seg n : forall index,
  index + n <= length resources ->
  exists folderEnd,
    runEnd resources level seg n index = Done folderEnd
    /\ index <= folderEnd <= index + n
    /\ (forall i, index <= i -> i < folderEnd ->
          nth_error (partsAt resources i) level = seg)
    /\ (folderEnd < index + n ->
          nth_error (partsAt resources folderEnd) level <> seg).
Proof.
  induction n as [|n IH]; intros index Hlen; cbn.
  - exists index. repeat split; try lia.
  - destruct (nth_error resources index) as [r|] eqn:Hr.
    2:{ apply nth_error_None in Hr. lia. }
    destruct (Js.strictEq (nth_error (pathParts r) level) seg) eqn:Heq.
    + destruct (IH (S index)) as (fe & Hrun & Hle & Hin & Hout); [lia|].
      exists fe. repeat split; try lia; auto.
      * intros i Hi Hfe. destruct (Nat.eq_dec i index) as [->|Hne].
        -- rewrite (partsAt_nth _ _ _ Hr). now apply strictEq_true.
        -- apply Hin; lia.
      * intros H. apply Hout. lia.
    + exists index. repeat split; try lia.
      intros _. rewrite (partsAt_nth _ _ _ Hr). intros H.
      apply strictEq_true in H. congruence.
Qed.

Lemma extendLevel_spec firstFileParts lastFileParts n : forall t0,
  length firstFileParts <= n + t0 ->
  t0 <= extendLevel firstFileParts lastFileParts n t0
  /\ (forall k, t0 <= k ->
        k < extendLevel firstFileParts lastFileParts n t0 ->
        agreeAt firstFileParts lastFileParts k)
  /\ ~ agreeAt firstFileParts lastFileParts
         (extendLevel firstFileParts lastFileParts n t0).
Proof.
  assert (Hstop : forall t0,
    (Z.of_nat t0 <? lastIndex firstFileParts)%Z
    && (Z.of_nat t0 <? lastIndex lastFileParts)%Z
    && Js.strictEq (nth_error firstFileParts t0) (nth_error lastFileParts t0)
    = true <-> agreeAt firstFileParts lastFileParts t0).
  { intros t0. unfold agreeAt.
    rewrite !andb_true_iff, !Z.ltb_lt, strictEq_true. tauto. }
  induction n as [|n IH]; intros t0 Hn; cbn.
  - split; [lia|]. split; [intros; lia|].
    unfold agreeAt, lastIndex. lia.
  - destruct (_ && _ && _) eqn:Hc.
    + apply Hstop in Hc.
      destruct (IH (S t0)) as (Hle & Hin & Hout); [lia|].
      split; [lia|]. split; [|exact Hout].
      intros k Hk Hlt. destruct (Nat.eq_dec k t0) as [->|Hne]; [exact Hc|].
      apply Hin; lia.
    + split; [lia|]. split; [intros; lia|].
      intros H. apply Hstop in H. congruence.
Qed.

Section LoopFacts.

Variable URI_resolve : option string -> string -> string.
Variable getNode : string -> option TreeNode.
Variable props : ScmTreeProps.

Local Abbreviation buildLoop := (buildLoop URI_resolve getNode props).
Local Abbreviation toFileChangeFolderNode :=
  (toFileChangeFolderNode URI_resolve getNode props).

(** The loop is over once [folderStart] reaches [end]. *)
Lemma buildLoop_end build resources end_ level parent n folderStart result s :
  end_ <= folderStart ->
  buildLoop build resources end_ level parent (S n) folderStart result s
  = Done (result, s).
Proof.
  intros H. cbn -[Nat.ltb]. apply Nat.ltb_ge in H. rewrite H. reflexivity.
Qed.

(** A resource whose file name is at [level] becomes a leaf. *)
Lemma buildLoop_leaf build resources end_ level parent n folderStart result
    s firstFileChange :
  folderStart < end_ ->
  nth_error resources folderStart = Some firstFileChange ->
  Z.of_nat level = lastIndex (pathParts firstFileChange) ->
  buildLoop build resources end_ level parent (S n) folderStart result s
  = bind (toFileChangeNode getNode (resource firstFileChange))
      (fun leaf => buildLoop build resources end_ level parent n
                     (S folderStart) (result ++ [leaf])) s.
Proof.
  intros Hlt Hr Hlev. cbn -[Nat.ltb Z.eqb].
  apply Nat.ltb_lt in Hlt. rewrite Hlt, Hr.
  apply Z.eqb_eq in Hlev. rewrite Hlev. reflexivity.
Qed.

(** Any other resource starts a run; a run shorter than the threshold
    is inlined. *)
Lemma buildLoop_inline build resources end_ level parent n folderStart
    result s firstFileChange folderEnd :
  folderStart < end_ ->
  nth_error resources folderStart = Some firstFileChange ->
  Z.of_nat level <> lastIndex (pathParts firstFileChange) ->
  runEnd resources level (nth_error (pathParts firstFileChange) level)
    (end_ - S folderStart) (S folderStart) = Done folderEnd ->
  (Z.of_nat (folderEnd - folderStart) < threshold props)%Z ->
  buildLoop build resources end_ level parent (S n) folderStart result s
  = bind (inlineRun getNode resources (folderEnd - folderStart)
            folderStart result)
      (fun result' => buildLoop build resources end_ level parent n
                        folderEnd result') s.
Proof.
  intros Hlt Hr Hlev Hrun Hth.
  cbn -[Nat.ltb Z.eqb Z.ltb Nat.sub runEnd extendLevel Js.join Js.slice
        threshold].
  apply Nat.ltb_lt in Hlt. rewrite Hlt, Hr.
  apply Z.eqb_neq in Hlev. rewrite Hlev, Hrun.
  apply Z.ltb_lt in Hth. rewrite Hth. reflexivity.
Qed.

(** A run that reaches the threshold becomes one folder: its boundary
    is found from the first and the last resource of the run, and its
    children are built from the whole run. *)
Lemma buildLoop_folder build resources end_ level parent n folderStart
    result s firstFileChange folderEnd lastFileChange :
  folderStart < end_ ->
  nth_error resources folderStart = Some firstFileChange ->
  Z.of_nat level <> lastIndex (pathParts firstFileChange) ->
  runEnd resources level (nth_error (pathParts firstFileChange) level)
    (end_ - S folderStart) (S folderStart) = Done folderEnd ->
  (threshold props <= Z.of_nat (folderEnd - folderStart))%Z ->
  nth_error resources (folderEnd - 1) = Some lastFileChange ->
  buildLoop build resources end_ level parent (S n) folderStart result s
  = bind (toFileChangeFolderNode build resources folderStart folderEnd
            (extendLevel (pathParts firstFileChange)
               (pathParts lastFileChange)
               (length (pathParts firstFileChange)) (level + 1))
            (Js.join "/"
               (Js.slice level
                  (extendLevel (pathParts firstFileChange)
                     (pathParts lastFileChange)
                     (length (pathParts firstFileChange)) (level + 1))
                  (pathParts firstFileChange)))
            parent)
      (fun folder => buildLoop build resources end_ level parent n
                       folderEnd (result ++ [folder])) s.
Proof.
  intros Hlt Hr Hlev Hrun Hth Hl.
  cbn -[Nat.ltb Z.eqb Z.ltb Nat.sub runEnd extendLevel Js.join Js.slice
        threshold].
  apply Nat.ltb_lt in Hlt. rewrite Hlt, Hr.
  apply Z.eqb_neq in Hlev. rewrite Hlev, Hrun, Hl.
  apply Z.ltb_ge in Hth. rewrite Hth. reflexivity.
Qed.

(** The loop counter is never what stops the loop: [OutOfFuel] comes
    from a recursive call only. *)
Lemma runEnd_bounds resources level seg n : forall index folderEnd,
  runEnd resources level seg n index = Done folderEnd ->
  index <= folderEnd <= index + n.
Proof.
  induction n as [|n IH]; intros index fe H; cbn in H.
  - injection H as <-. lia.
  - destruct (nth_error resources index) as [r|]; [|discriminate].
    destruct (Js.strictEq _ _).
    + apply IH in H. lia.
    + injection H as <-. lia.
Qed.

Lemma runEnd_returns resources level seg n index :
  runEnd resources level seg n index <> OutOfFuel.
Proof.
  revert index. induction n as [|n IH]; intros index; cbn; [discriminate|].
  destruct (nth_error resources index) as [r|]; [|discriminate].
  destruct (Js.strictEq _ _); [apply IH|discriminate].
Qed.

Lemma inlineRun_returns resources n : forall i result s,
  inlineRun getNode resources n i result s <> OutOfFuel.
Proof.
  induction n as [|n IH]; intros i result s; cbn; [discriminate|].
  destruct (nth_error resources i) as [r|]; [|discriminate].
  destruct (toFileChangeNode_Done getNode (resource r) s) as [s1 H1].
  rewrite (bind_Done _ _ _ _ _ H1). apply IH.
Qed.

Lemma buildLoop_counter_adequate build resources end_ level parent n :
  (forall resources start end_ level parent s,
      build resources start end_ level parent s <> OutOfFuel) ->
  forall folderStart result s,
    end_ - folderStart < n ->
    buildLoop build resources end_ level parent n folderStart result s
    <> OutOfFuel.
Proof.
  intros Hbuild.
  induction n as [|n IH]; intros folderStart result s Hn; [lia|].
  cbn -[Nat.ltb Z.eqb Z.ltb Nat.sub runEnd extendLevel Js.join Js.slice
        threshold].
  destruct (Nat.ltb_spec folderStart end_) as [Hlt|Hge]; [|discriminate].
  destruct (nth_error resources folderStart) as [firstFileChange|];
    [|discriminate].
  destruct (Z.of_nat level =? lastIndex (pathParts firstFileChange))%Z.
  { destruct (toFileChangeNode_Done getNode (resource firstFileChange) s)
      as [s1 H1].
    rewrite (bind_Done _ _ _ _ _ H1). apply IH. lia. }
  destruct (runEnd _ _ _ _ _) as [folderEnd| |] eqn:Hrun;
    [|discriminate|destruct (runEnd_returns _ _ _ _ _ Hrun)].
  apply runEnd_bounds in Hrun.
  destruct (Z.of_nat (folderEnd - folderStart) <? threshold props)%Z.
  { unfold bind.
    destruct (inlineRun getNode resources (folderEnd - folderStart)
                folderStart result s) as [[r' s1]| |] eqn:Hi;
      [|discriminate|destruct (inlineRun_returns _ _ _ _ _ Hi)].
    apply IH. lia. }
  destruct (nth_error resources (folderEnd - 1)) as [lastFileChange|];
    [|discriminate].
  unfold bind at 1. unfold toFileChangeFolderNode at 1. unfold bind at 1.
  match goal with
  | |- context [build ?r ?a ?b ?c ?d ?e] =>
      destruct (build r a b c d e) as [[c0 s1]| |] eqn:Hc;
        [|discriminate|destruct (Hbuild _ _ _ _ _ _ Hc)]
  end.
  apply IH. lia.
Qed.

End LoopFacts.

(** ** Sorting *)

Section SortFacts.

Context {A : Type} (cmp : A -> A -> Z).

Local Abbreviation cmpLe := (cmpLe cmp).

Hypothesis cmp_total : forall a b, cmpLe a b \/ cmpLe b a.
Hypothesis cmp_trans : forall a b c, cmpLe a b -> cmpLe b c -> cmpLe a c.

Lemma In_insert x a l : In x (Js.insert cmp a l) <-> x = a \/ In x l.
Proof.
  induction l as [|y l IH]; cbn.
  - intuition.
  - destruct (cmp a y <=? 0)%Z; cbn; rewrite ?IH; intuition.
Qed.

Lemma In_sort x l : In x (Js.sort cmp l) <-> In x l.
Proof.
  induction l as [|y l IH]; cbn; [reflexivity|].
  rewrite In_insert, IH. intuition.
Qed.

Lemma insert_sorted a l :
  StronglySorted cmpLe l -> StronglySorted cmpLe (Js.insert cmp a l).
Proof.
  induction 1 as [|y l Hs IH Hy]; cbn.
  - constructor; constructor.
  - destruct (cmp a y <=? 0)%Z eqn:Hc.
    + apply Z.leb_le in Hc. constructor.
      * constructor; assumption.
      * constructor; [exact Hc|].
        rewrite Forall_forall in *. intros z Hz.
        apply cmp_trans with y; auto.
    + apply Z.leb_gt in Hc. constructor; [exact IH|].
      rewrite Forall_forall in *. intros z Hz.
      apply In_insert in Hz. destruct Hz as [->|Hz]; auto.
      destruct (cmp_total a y) as [H|H]; [unfold cmpLe in H; lia|exact H].
Qed.

Lemma sort_sorted l : StronglySorted cmpLe (Js.sort cmp l).
Proof.
  induction l as [|y l IH]; cbn; [constructor|].
  now apply insert_sorted.
Qed.

End SortFacts.

Lemma StronglySorted_nth {A : Type} (R : A -> A -> Prop) l :
  StronglySorted R l ->
  forall i j a b, i < j -> nth_error l i = Some a -> nth_error l j = Some b ->
                  R a b.
Proof.
  induction 1 as [|x l Hs IH Hx]; intros i j a b Hij Ha Hb.
  - destruct i; discriminate.
  - destruct j as [|j]; [lia|]. cbn in Hb.
    destruct i as [|i]; cbn in Ha.
    + injection Ha as ->. rewrite Forall_forall in Hx.
      apply Hx. eapply nth_error_In; eauto.
    + apply (IH i j); auto. lia.
Qed.

Section CompareFacts.

Variable localeCompare : string -> string -> Z.
Hypothesis Hcons : consistent localeCompare.

Local Abbreviation cmp := (doCompareNodes localeCompare).

Lemma doCompareNodes_total a b : (cmp a b <= 0)%Z \/ (cmp b a <= 0)%Z.
Proof.
  unfold doCompareNodes.
  destruct (FileChangeFolderNode_is a), (FileChangeFolderNode_is b); cbn;
    try (left; lia); try (right; lia); apply Hcons.
Qed.

Lemma doCompareNodes_trans a b c :
  (cmp a b <= 0)%Z -> (cmp b c <= 0)%Z -> (cmp a c <= 0)%Z.
Proof.
  unfold doCompareNodes.
  destruct (FileChangeFolderNode_is a), (FileChangeFolderNode_is b),
    (FileChangeFolderNode_is c); cbn; try lia; apply Hcons.
Qed.

Lemma doCompareNodes_ordered a b :
  (cmp a b <= 0)%Z -> orderedPair localeCompare a b.
Proof.
  unfold doCompareNodes, orderedPair.
  destruct (FileChangeFolderNode_is a), (FileChangeFolderNode_is b); cbn;
    intros H; split; intros; try lia; congruence.
Qed.

Lemma sort_siblingsOrdered l :
  siblingsOrdered localeCompare (Js.sort cmp l).
Proof.
  intros i j a b Hij Ha Hb. apply doCompareNodes_ordered.
  pose proof (sort_sorted cmp doCompareNodes_total doCompareNodes_trans l)
    as Hs.
  exact (StronglySorted_nth _ _ Hs i j a b Hij Ha Hb).
Qed.

End CompareFacts.

(** ** Nodes of a forest *)

Lemma occursIn_perm n l l' :
  (forall x, In x l <-> In x l') -> occursIn n l -> occursIn n l'.
Proof.
  intros H Hocc. inversion Hocc as [l0 Hin|l0 f Hf Hn]; subst.
  - apply occurs_here. now apply H.
  - apply occurs_below with f; [now apply H|exact Hn].
Qed.

Lemma occursIn_app n l1 l2 :
  occursIn n (l1 ++ l2) <-> occursIn n l1 \/ occursIn n l2.
Proof.
  split.
  - intros Hocc. inversion Hocc as [l0 Hin|l0 f Hf Hn]; subst.
    + apply in_app_or in Hin. destruct Hin; [left|right]; now apply occurs_here.
    + apply in_app_or in Hf.
      destruct Hf; [left|right]; apply occurs_below with f; auto.
  - intros [Hocc|Hocc]; inversion Hocc as [l0 Hin|l0 f Hf Hn]; subst.
    + apply occurs_here, in_or_app; auto.
    + apply occurs_below with f; auto. apply in_or_app; auto.
    + apply occurs_here, in_or_app; auto.
    + apply occurs_below with f; auto. apply in_or_app; auto.
Qed.

(** ** An induction principle for the builder's output *)

Section BuildInduction.

Variable URI_resolve : option string -> string -> string.
Variable localeCompare : string -> string -> Z.
Variable getNode : string -> option TreeNode.
Variable props : ScmTreeProps.

Local Abbreviation build :=
  (buildFileChangeTree URI_resolve localeCompare getNode props).
Local Abbreviation buildLoop := (buildLoop URI_resolve getNode props).
Local Abbreviation folderOf := (folderOf URI_resolve getNode props).

Lemma toFileChangeFolderNode_inv bld resources start end_ level path parent
    s n s' :
  toFileChangeFolderNode URI_resolve getNode props bld resources start end_
    level path parent s = Done (n, s') ->
  exists children,
    bld resources start end_ level (folderParent URI_resolve parent path) s
    = Done (children, s')
    /\ n = folderOf parent path children.
Proof.
  unfold toFileChangeFolderNode. intros H.
  apply bind_inv in H. destruct H as (c & s1 & Hc & Hret).
  injection Hret as <- <-. exists c. split.
  - unfold folderParent. destruct parent; exact Hc.
  - unfold folderOf.
    destruct parent; destruct (defaultExpansion props) as [[|]|];
      reflexivity.
Qed.

Lemma buildFileChangeTree_S fuel resources start end_ level parent :
  build (S fuel) resources start end_ level parent
  = bind (buildLoop (build fuel) resources end_ level parent
            (S (end_ - start)) start [])
      (fun result => ret (Js.sort (compareNodes localeCompare) result)).
Proof. reflexivity. Qed.

Variable P : node -> Prop.
Variable Q : list node -> Prop.
Hypothesis Hleaf : forall r, P (leafOf getNode r).
Hypothesis Hfolder : forall parent path children,
  Q children -> P (folderOf parent path children).
Hypothesis Hsort : forall result,
  Forall P result -> Q (Js.sort (compareNodes localeCompare) result).

Lemma inlineRun_Forall resources n : forall i result s l s',
  Forall P result ->
  inlineRun getNode resources n i result s = Done (l, s') ->
  Forall P l.
Proof.
  induction n as [|n IH]; intros i result s l s' Hres H; cbn in H.
  - injection H as <- <-. exact Hres.
  - destruct (nth_error resources i) as [r|]; [|discriminate].
    apply bind_inv in H. destruct H as (leaf & s1 & Hl & H).
    apply toFileChangeNode_inv in Hl. subst leaf.
    eapply IH; [|exact H]. apply Forall_app; split; auto.
Qed.

Lemma buildLoop_Forall bld resources end_ level parent n :
  (forall resources start end_ level parent s l s',
      bld resources start end_ level parent s = Done (l, s') -> Q l) ->
  forall folderStart result s l s',
    Forall P result ->
    buildLoop bld resources end_ level parent n folderStart result s
    = Done (l, s') ->
    Forall P l.
Proof.
  intros Hbld.
  induction n as [|n IH]; intros folderStart result s l s' Hres H;
    [discriminate|].
  cbn -[Nat.ltb Z.eqb Z.ltb Nat.sub runEnd extendLevel Js.join Js.slice
        threshold] in H.
  destruct (folderStart <? end_)%nat.
  2:{ injection H as <- <-. exact Hres. }
  destruct (nth_error resources folderStart) as [firstFileChange|];
    [|discriminate].
  destruct (Z.of_nat level =? lastIndex (pathParts firstFileChange))%Z.
  { apply bind_inv in H. destruct H as (leaf & s1 & Hl & H).
    apply toFileChangeNode_inv in Hl. subst leaf.
    eapply IH; [|exact H]. apply Forall_app; split; auto. }
  destruct (runEnd _ _ _ _ _) as [folderEnd| |]; try discriminate.
  destruct (Z.of_nat (folderEnd - folderStart) <? threshold props)%Z.
  { apply bind_inv in H. destruct H as (result' & s1 & Hi & H).
    eapply IH; [|exact H]. eapply inlineRun_Forall; eauto. }
  destruct (nth_error resources (folderEnd - 1)) as [lastFileChange|];
    [|discriminate].
  apply bind_inv in H. destruct H as (folder & s1 & Hf & H).
  apply toFileChangeFolderNode_inv in Hf.
  destruct Hf as (children & Hc & ->).
  eapply IH; [|exact H]. apply Forall_app; split; auto.
  constructor; [|constructor]. apply Hfolder. eapply Hbld; eauto.
Qed.

Theorem build_ind fuel : forall resources start end_ level parent s l s',
  build fuel resources start end_ level parent s = Done (l, s') -> Q l.
Proof.
  induction fuel as [|fuel IH]; intros resources start end_ level parent s l s'
    H; [discriminate|].
  rewrite buildFileChangeTree_S in H.
  apply bind_inv in H. destruct H as (result & s1 & Hloop & Hret).
  injection Hret as <- <-. apply Hsort.
  eapply buildLoop_Forall; [exact IH| |exact Hloop]. constructor.
Qed.

End BuildInduction.

(** ** Groups and the root *)

Lemma mapM_inv {A B : Type} (f : A -> M B) l : forall s ys s',
  mapM f l s = Done (ys, s') ->
  forall y, In y ys -> exists x s1 s2, In x l /\ f x s1 = Done (y, s2).
Proof.
  induction l as [|x l IH]; intros s ys s' H y Hy; cbn in H.
  - injection H as <- <-. destruct Hy.
  - apply bind_inv in H. destruct H as (y0 & s1 & H0 & H).
    apply bind_inv in H. destruct H as (ys0 & s2 & H1 & H).
    injection H as <- <-. destruct Hy as [<-|Hy].
    + exists x, s, s1. split; [left; reflexivity|exact H0].
    + destruct (IH _ _ _ H1 y Hy) as (x' & sa & sb & Hin & Hf).
      exists x', sa, sb. split; [right; exact Hin|exact Hf].
Qed.

Lemma occursIn_leaves getNode l n :
  occursIn n (map (leafOf getNode) l) -> In n (map (leafOf getNode) l).
Proof.
  intros H. inversion H as [l0 Hin|l0 f Hf Hn]; subst; [exact Hin|].
  apply in_map_iff in Hf. destruct Hf as (r & <- & _).
  cbn in Hn. inversion Hn as [l0 Hin|l0 f' Hf' _]; subst; destruct Hin || destruct Hf'.
Qed.

Section GroupFacts.

Variable URI_resolve : option string -> string -> string.
Variable localeCompare : string -> string -> Z.
Variable getNode : string -> option TreeNode.
Variable props : ScmTreeProps.
Variable URI_relative : string -> string -> option string.

Local Abbreviation build :=
  (buildFileChangeTree URI_resolve localeCompare getNode props).
Local Abbreviation toGroupNode :=
  (toGroupNode URI_resolve localeCompare getNode props URI_relative).
Local Abbreviation createTree :=
  (createTree URI_resolve localeCompare getNode props URI_relative).

(** What [toGroupNode] returns: an expanded group whose children are
    the leaves of its resources in [flat] mode, the built forest in
    [tree] mode under a root location, and nothing in [tree] mode
    without one. *)
Lemma toGroupNode_inv fuel viewMode rootOfTree group s g s' :
  toGroupNode fuel viewMode rootOfTree group s = Done (g, s') ->
  gn_id g = group_id group /\ gn_groupId g = group_id group
  /\ gn_expanded g = true
  /\ match viewMode with
     | flat => gn_children g = map (leafOf getNode) (group_resources group)
     | tree =>
         match group_provider_rootUri group with
         | Some root =>
             if Js.truthy (Some root) then
               exists s0,
                 build fuel (map (toResourcePath URI_relative root)
                               (group_resources group))
                   0 (length (group_resources group)) 0
                   (ParentGroup (group_id group) rootOfTree) s0
                 = Done (gn_children g, s')
             else gn_children g = []
         | None => gn_children g = []
         end
     end.
Proof.
  unfold toGroupNode. intros H.
  apply bind_inv in H. destruct H as (c & s1 & Hc & H).
  injection H as <- <-.
  do 3 (split; [reflexivity|]). cbn [gn_children].
  destruct viewMode.
  - destruct (mapM_leaves getNode (group_resources group) s) as [s2 H2].
    congruence.
  - destruct (group_provider_rootUri group) as [root|].
    + destruct (Js.truthy (Some root)).
      * exists s. exact Hc.
      * injection Hc as <- <-. reflexivity.
    + injection Hc as <- <-. reflexivity.
Qed.

Lemma createTree_inv fuel viewMode provider s r s' :
  createTree fuel viewMode provider s = Done (r, s') ->
  root_rootUri r = provider_rootUri provider
  /\ forall g, In g (root_children r) ->
       exists group s1 s2,
         In group (provider_groups provider)
         /\ toGroupNode fuel viewMode (provider_rootUri provider) group s1
            = Done (g, s2).
Proof.
  unfold createTree. intros H.
  apply bind_inv in H. destruct H as (gs & s1 & Hgs & H).
  injection H as <- <-. cbn. split; [reflexivity|].
  intros g Hg.
  destruct (mapM_inv _ _ _ _ _ Hgs g Hg) as (group & sa & sb & Hin & Hf).
  apply filter_In in Hin. exists group, sa, sb. tauto.
Qed.

End GroupFacts.

Import Instances.

(** ** The comparator by character code is consistent *)

Lemma codeCompare_total a : forall b,
  (codeCompare a b <= 0)%Z \/ (codeCompare b a <= 0)%Z.
Proof.
  induction a as [|x a IH]; intros [|y b]; cbn [codeCompare]; try lia.
  destruct (Nat.ltb_spec (nat_of_ascii x) (nat_of_ascii y)),
    (Nat.ltb_spec (nat_of_ascii y) (nat_of_ascii x)); try lia.
  apply IH.
Qed.

Lemma codeCompare_trans a : forall b c,
  (codeCompare a b <= 0)%Z -> (codeCompare b c <= 0)%Z ->
  (codeCompare a c <= 0)%Z.
Proof.
  induction a as [|x a IH]; intros [|y b] [|z c]; cbn [codeCompare]; try lia.
  destruct (Nat.ltb_spec (nat_of_ascii x) (nat_of_ascii y)),
    (Nat.ltb_spec (nat_of_ascii y) (nat_of_ascii x)),
    (Nat.ltb_spec (nat_of_ascii y) (nat_of_ascii z)),
    (Nat.ltb_spec (nat_of_ascii z) (nat_of_ascii y)),
    (Nat.ltb_spec (nat_of_ascii x) (nat_of_ascii z)),
    (Nat.ltb_spec (nat_of_ascii z) (nat_of_ascii x)); try lia.
  apply IH.
Qed.

Lemma codeCompare_consistent : consistent codeCompare.
Proof.
  split; [exact codeCompare_total|exact codeCompare_trans].
Qed.

(** ** C1: the example tree *)

Section Example.

Variable URI_resolve : option string -> string -> string.
Variable localeCompare : string -> string -> Z.
Variable getNode : string -> option TreeNode.
Variable props : ScmTreeProps.

Local Abbreviation build :=
  (buildFileChangeTree URI_resolve localeCompare getNode props).

(** Below the folder [a]: the two files, in that order. *)
Lemma example_below_a fuel s parent :
  (localeCompare "file:///repo/a/x.txt" "file:///repo/a/y.txt" <= 0)%Z ->
  exists s',
    build (S fuel) xyb 0 2 1 parent s
    = Done ([leafOf getNode (change "file:///repo/a/x.txt");
             leafOf getNode (change "file:///repo/a/y.txt")], s').
Proof.
  intros Hxy.
  rewrite buildFileChangeTree_S.
  destruct (toFileChangeNode_Done getNode (change "file:///repo/a/x.txt") s)
    as [s1 H1].
  destruct (toFileChangeNode_Done getNode (change "file:///repo/a/y.txt") s1)
    as [s2 H2].
  exists s2.
  erewrite bind_Done.
  2:{ erewrite buildLoop_leaf; [|lia|reflexivity|reflexivity].
      erewrite bind_Done; [|exact H1]. cbn [Nat.sub app].
      erewrite buildLoop_leaf; [|lia|reflexivity|reflexivity].
      erewrite bind_Done; [|exact H2]. cbn [Nat.sub app].
      rewrite buildLoop_end by lia. reflexivity. }
  unfold ret, Js.sort, compareNodes. cbn [fold_right Js.insert app].
  replace (doCompareNodes localeCompare _ _ <=? 0)%Z with true;
    [reflexivity|].
  symmetry. apply Z.leb_le. exact Hxy.
Qed.

(** At the top: the folder [a], then the file [b.txt]. *)
Lemma example_top fuel s rootOfTree :
  threshold props = 1%Z ->
  (localeCompare "file:///repo/a/x.txt" "file:///repo/a/y.txt" <= 0)%Z ->
  exists s',
    build (S (S fuel)) xyb 0 3 0 (ParentGroup "changes" rootOfTree) s
    = Done ([folderOf URI_resolve getNode props
               (ParentGroup "changes" rootOfTree) "a"
               [leafOf getNode (change "file:///repo/a/x.txt");
                leafOf getNode (change "file:///repo/a/y.txt")];
             leafOf getNode (change "file:///repo/b.txt")], s').
Proof.
  intros Hth Hxy.
  rewrite buildFileChangeTree_S.
  destruct (example_below_a fuel s
              (folderParent URI_resolve (ParentGroup "changes" rootOfTree) "a")
              Hxy) as [s1 H1].
  destruct (toFileChangeNode_Done getNode (change "file:///repo/b.txt") s1)
    as [s2 H2].
  exists s2.
  erewrite bind_Done.
  2:{ erewrite buildLoop_folder with (folderEnd := 2);
        [|lia|reflexivity|cbv; discriminate|reflexivity|rewrite Hth; cbn; lia
         |reflexivity].
      erewrite bind_Done.
      2:{ unfold toFileChangeFolderNode.
          erewrite bind_Done; [reflexivity|exact H1]. }
      cbn [Nat.sub app].
      erewrite buildLoop_leaf; [|lia|reflexivity|reflexivity].
      erewrite bind_Done; [|exact H2]. cbn [Nat.sub app].
      rewrite buildLoop_end by lia. reflexivity. }
  unfold ret, folderOf.
  destruct (defaultExpansion props) as [[|]|]; reflexivity.
Qed.

End Example.

(** C1.  For the resources [a/x.txt], [a/y.txt], [b.txt] of one group and
    a nesting threshold of 1, [toGroupNode] in [tree] mode gives the group
    exactly two children: first one folder with relative path [a] whose
    children are exactly the leaves of [x.txt] and [y.txt] in that order,
    then the leaf of [b.txt].  This holds for every previous tree, every
    [URI.resolve], and every comparator that does not put [a/y.txt]
    before [a/x.txt]. *)
Theorem C1_tree_example URI_resolve localeCompare getNode dflt fuel s :
  (localeCompare "file:///repo/a/x.txt" "file:///repo/a/y.txt" <= 0)%Z ->
  let props := {| defaultExpansion := dflt; nestingThreshold := Some 1%Z |} in
  let a := URI_resolve (Some repo) "a" in
  exists e sa sx sy sb s',
    toGroupNode URI_resolve localeCompare getNode props relativeTo
      (S (S fuel)) tree (Some repo)
      (changes (Some repo)
         ["file:///repo/a/x.txt"; "file:///repo/a/y.txt"; "file:///repo/b.txt"])
      s
    = Done
        ({| gn_id := "changes";
            gn_groupId := "changes";
            gn_children :=
              [FileChangeFolderNode ("changes:" ++ a)%string "changes" "a" a
                 [FileChangeNode "changes:file:///repo/a/x.txt"
                    "file:///repo/a/x.txt" None sx;
                  FileChangeNode "changes:file:///repo/a/y.txt"
                    "file:///repo/a/y.txt" None sy]
                 e sa;
               FileChangeNode "changes:file:///repo/b.txt"
                 "file:///repo/b.txt" None sb];
            gn_expanded := true |}, s').
Proof.
  intros Hxy props a.
  destruct (example_top URI_resolve localeCompare getNode props fuel s
              (Some repo) eq_refl Hxy) as [s' H].
  unfold toGroupNode.
  change (map (toResourcePath relativeTo repo) _) with xyb.
  cbn [group_provider_rootUri changes group_resources group_id length map].
  change (Js.truthy (Some repo)) with true. cbv iota.
  do 5 eexists. exists s'.
  erewrite bind_Done; [|exact H].
  reflexivity.
Qed.

(** C1, run with the comparator by character code on an empty model. *)
Lemma C1_tree_example_witness :
  exists e sa sx sy sb s',
    toGroupNode joinUri codeCompare emptyModel
      {| defaultExpansion := None; nestingThreshold := Some 1%Z |} relativeTo
      2 tree (Some repo)
      (changes (Some repo)
         ["file:///repo/a/x.txt"; "file:///repo/a/y.txt"; "file:///repo/b.txt"])
      None
    = Done
        ({| gn_id := "changes";
            gn_groupId := "changes";
            gn_children :=
              [FileChangeFolderNode "changes:file:///repo/a" "changes" "a"
                 "file:///repo/a"
                 [FileChangeNode "changes:file:///repo/a/x.txt"
                    "file:///repo/a/x.txt" None sx;
                  FileChangeNode "changes:file:///repo/a/y.txt"
                    "file:///repo/a/y.txt" None sy]
                 e sa;
               FileChangeNode "changes:file:///repo/b.txt"
                 "file:///repo/b.txt" None sb];
            gn_expanded := true |}, s').
Proof.
  apply (C1_tree_example joinUri codeCompare emptyModel None 0 None).
  vm_compute. discriminate.
Defined.

(** ** C10: a group without a root location *)

(** C10.  When the provider of a group has no [rootUri], [toGroupNode] in
    [tree] mode returns the group node with no children, whatever the
    resources of the group, while in [flat] mode it returns one leaf for
    each of them. *)
Theorem C10_tree_mode_without_rootUri URI_resolve localeCompare getNode props
    URI_relative fuel rootOfTree group s :
  group_provider_rootUri group = None ->
  toGroupNode URI_resolve localeCompare getNode props URI_relative fuel tree
    rootOfTree group s
  = Done ({| gn_id := group_id group;
             gn_groupId := group_id group;
             gn_children := [];
             gn_expanded := true |}, s)
  /\ exists s',
       toGroupNode URI_resolve localeCompare getNode props URI_relative fuel
         flat rootOfTree group s
       = Done ({| gn_id := group_id group;
                  gn_groupId := group_id group;
                  gn_children := map (leafOf getNode) (group_resources group);
                  gn_expanded := true |}, s').
Proof.
  intros Hroot. unfold toGroupNode. rewrite Hroot. split; [reflexivity|].
  destruct (mapM_leaves getNode (group_resources group) s) as [s' H].
  exists s'. erewrite bind_Done; [|exact H]. reflexivity.
Qed.

(** C10 on a group of two resources: no child in [tree] mode, two leaves
    in [flat] mode. *)
Lemma C10_tree_mode_without_rootUri_witness :
  toGroupNode joinUri codeCompare emptyModel defaultProps relativeTo 3 tree
    None (changes None ["file:///repo/a/x.txt"; "file:///repo/b.txt"]) None
  = Done ({| gn_id := "changes"; gn_groupId := "changes";
             gn_children := []; gn_expanded := true |}, None)
  /\ exists s',
       toGroupNode joinUri codeCompare emptyModel defaultProps relativeTo 3
         flat None (changes None ["file:///repo/a/x.txt"; "file:///repo/b.txt"])
         None
       = Done ({| gn_id := "changes"; gn_groupId := "changes";
                  gn_children :=
                    [FileChangeNode "changes:file:///repo/a/x.txt"
                       "file:///repo/a/x.txt" None false;
                     FileChangeNode "changes:file:///repo/b.txt"
                       "file:///repo/b.txt" None false];
                  gn_expanded := true |}, s').
Proof.
  apply (C10_tree_mode_without_rootUri joinUri codeCompare emptyModel
           defaultProps relativeTo 3 None
           (changes None ["file:///repo/a/x.txt"; "file:///repo/b.txt"]) None).
  reflexivity.
Defined.

(** ** C2: the order of siblings *)

Section Ordered.

Variable URI_resolve : option string -> string -> string.
Variable localeCompare : string -> string -> Z.
Variable getNode : string -> option TreeNode.
Variable props : ScmTreeProps.
Hypothesis Hcons : consistent localeCompare.

(** Every forest [buildFileChangeTree] returns is ordered, at every
    depth. *)
Lemma build_forestOrdered fuel resources start end_ level parent s l s' :
  buildFileChangeTree URI_resolve localeCompare getNode props fuel resources
    start end_ level parent s = Done (l, s') ->
  forestOrdered localeCompare l.
Proof.
  apply (build_ind URI_resolve localeCompare getNode props
           (fun n => forestOrdered localeCompare (children n))
           (forestOrdered localeCompare)).
  - intros r. split.
    + intros [|i] j a b _ Ha; discriminate.
    + intros n Hn. cbn in Hn. inversion Hn as [l0 H|l0 f H _]; destruct H.
  - intros p path c Hc. exact Hc.
  - intros result Hres. split.
    + apply sort_siblingsOrdered. exact Hcons.
    + intros n Hn.
      apply occursIn_perm with (l' := result) in Hn.
      2:{ intros x. apply In_sort. }
      rewrite Forall_forall in Hres.
      inversion Hn as [l0 Hin|l0 f Hf Hbelow]; subst.
      * apply Hres. exact Hin.
      * apply (Hres f Hf). exact Hbelow.
Qed.

End Ordered.

(** C2, amended.  In a tree built by [createTree] in [tree] mode, with a
    comparator that is total and transitive, the children of every group
    and of every folder are ordered: no file stands before a folder, and
    two children of one kind are in ascending [localeCompare] order of
    [sourceUri].  In [flat] mode nothing is sorted: the children of each
    group are the leaves of its resources in the order the provider
    lists them. *)
Theorem C2_siblings_ordered_in_tree_mode URI_resolve localeCompare getNode
    props URI_relative fuel viewMode provider s r s' :
  consistent localeCompare ->
  createTree URI_resolve localeCompare getNode props URI_relative fuel
    viewMode provider s = Done (r, s') ->
  match viewMode with
  | tree => rootOrdered localeCompare r
  | flat =>
      forall g, In g (root_children r) ->
        exists group,
          In group (provider_groups provider)
          /\ gn_id g = group_id group
          /\ gn_children g = map (leafOf getNode) (group_resources group)
  end.
Proof.
  intros Hcons H. apply createTree_inv in H. destruct H as [_ H].
  destruct viewMode.
  - intros g Hg. destruct (H g Hg) as (group & s1 & s2 & Hin & Hg').
    apply toGroupNode_inv in Hg'. exists group. tauto.
  - intros g Hg. destruct (H g Hg) as (group & s1 & s2 & Hin & Hg').
    apply toGroupNode_inv in Hg'. destruct Hg' as (_ & _ & _ & Hc).
    destruct (group_provider_rootUri group) as [root|].
    + destruct (Js.truthy (Some root)).
      * destruct Hc as [s0 Hc].
        eapply build_forestOrdered; eauto.
      * rewrite Hc. split.
        -- intros [|i] j a b _ Ha; discriminate.
        -- intros n Hn. inversion Hn as [l0 Hi|l0 f Hi _]; destruct Hi.
    + rewrite Hc. split.
      * intros [|i] j a b _ Ha; discriminate.
      * intros n Hn. inversion Hn as [l0 Hi|l0 f Hi _]; destruct Hi.
Qed.

(** C2 on the tree of [a/y.txt], [b.txt], [a/x.txt]: it is built and it is
    ordered. *)
Lemma C2_siblings_ordered_in_tree_mode_witness :
  exists r,
    createTree joinUri codeCompare emptyModel defaultProps relativeTo 3 tree
      (providerOf
         ["file:///repo/a/y.txt"; "file:///repo/a/x.txt"; "file:///repo/b.txt"])
      None = Done (r, None)
    /\ rootOrdered codeCompare r.
Proof.
  eexists. split; [vm_compute; reflexivity|].
  apply (C2_siblings_ordered_in_tree_mode joinUri codeCompare emptyModel
           defaultProps relativeTo 3 tree
           (providerOf ["file:///repo/a/y.txt"; "file:///repo/a/x.txt";
                        "file:///repo/b.txt"]) None _ None).
  - exact codeCompare_consistent.
  - vm_compute. reflexivity.
Defined.

(** C2 as stated fails in [flat] mode: for the resources [b.txt], [a.txt]
    in this order, the group's children are the leaf of [b.txt] and then
    the leaf of [a.txt], which a consistent comparator puts the other way
    round. *)
Lemma C2_counterexample :
  consistent codeCompare
  /\ exists r,
       createTree joinUri codeCompare emptyModel defaultProps relativeTo 3 flat
         (providerOf ["file:///repo/b.txt"; "file:///repo/a.txt"]) None
       = Done (r, None)
       /\ ~ rootOrdered codeCompare r.
Proof.
  split; [exact codeCompare_consistent|].
  eexists. split; [vm_compute; reflexivity|].
  intros H.
  specialize (H _ (or_introl eq_refl)). destruct H as [H _].
  specialize (H 0 1 _ _ (le_n 1) eq_refl eq_refl). destruct H as [_ H].
  specialize (H eq_refl). vm_compute in H. apply H. reflexivity.
Qed.

(** ** C4: the folder boundary *)

(** C4.  When a run becomes a folder, the folder boundary [thisLevel]
    starts at [level + 1] and moves right exactly as long as the first and
    the last resource of the run both have their file name further right
    and agree on the segment at [thisLevel]; no other resource of the run
    is looked at.  The folder's relative path is the first resource's
    segments [level, thisLevel) joined by slashes, and its children are
    built from the whole run at [thisLevel]. *)
Theorem C4_folder_boundary URI_resolve getNode props build resources end_
    level parent n folderStart result s firstFileChange folderEnd
    lastFileChange :
  folderStart < end_ ->
  nth_error resources folderStart = Some firstFileChange ->
  Z.of_nat level <> lastIndex (pathParts firstFileChange) ->
  runEnd resources level (nth_error (pathParts firstFileChange) level)
    (end_ - S folderStart) (S folderStart) = Done folderEnd ->
  (threshold props <= Z.of_nat (folderEnd - folderStart))%Z ->
  nth_error resources (folderEnd - 1) = Some lastFileChange ->
  let firstFileParts := pathParts firstFileChange in
  let lastFileParts := pathParts lastFileChange in
  exists thisLevel,
    let nodeRelativePath :=
      Js.join "/" (Js.slice level thisLevel firstFileParts) in
    level + 1 <= thisLevel
    /\ (forall k, level + 1 <= k -> k < thisLevel ->
          agreeAt firstFileParts lastFileParts k)
    /\ ~ agreeAt firstFileParts lastFileParts thisLevel
    /\ buildLoop URI_resolve getNode props build resources end_ level parent
         (S n) folderStart result s
       = bind (toFileChangeFolderNode URI_resolve getNode props build
                 resources folderStart folderEnd thisLevel nodeRelativePath
                 parent)
           (fun folder =>
              buildLoop URI_resolve getNode props build resources end_ level
                parent n folderEnd (result ++ [folder]))
           s
    /\ (forall s0 folder s1,
          toFileChangeFolderNode URI_resolve getNode props build resources
            folderStart folderEnd thisLevel nodeRelativePath parent s0
          = Done (folder, s1) ->
          exists id groupId uri c e sel,
            folder = FileChangeFolderNode id groupId nodeRelativePath uri c e
                       sel
            /\ build resources folderStart folderEnd thisLevel
                 (folderParent URI_resolve parent nodeRelativePath) s0
               = Done (c, s1)).
Proof.
  intros Hlt Hr Hlev Hrun Hth Hl firstFileParts lastFileParts.
  exists (extendLevel firstFileParts lastFileParts (length firstFileParts)
            (level + 1)).
  destruct (extendLevel_spec firstFileParts lastFileParts
              (length firstFileParts) (level + 1)) as (Hle & Hin & Hout);
    [lia|].
  cbv zeta. split; [exact Hle|]. split; [exact Hin|]. split; [exact Hout|].
  split.
  - exact (buildLoop_folder _ _ _ _ _ _ _ _ _ _ _ _ _ _ _ Hlt Hr Hlev Hrun
             Hth Hl).
  - intros s0 folder s1 H. apply toFileChangeFolderNode_inv in H.
    destruct H as (c & Hc & ->). unfold folderOf. do 6 eexists.
    split; [reflexivity|exact Hc].
Qed.

(** C4 on [a/b/c/x.txt] and [a/b/d/y.txt]: the boundary stops at 2, where
    [c] and [d] differ, and the folder is [a/b]. *)
Lemma C4_folder_boundary_witness :
  exists thisLevel,
    thisLevel = 2
    /\ Js.join "/" (Js.slice 0 thisLevel ["a"; "b"; "c"; "x.txt"]) = "a/b"
    /\ buildLoop joinUri emptyModel defaultProps
         (buildFileChangeTree joinUri codeCompare emptyModel defaultProps 2)
         nested 2 0 (ParentGroup "changes" (Some repo)) 3 0 [] None
       = bind (toFileChangeFolderNode joinUri emptyModel defaultProps
                 (buildFileChangeTree joinUri codeCompare emptyModel
                    defaultProps 2)
                 nested 0 2 thisLevel
                 (Js.join "/" (Js.slice 0 thisLevel ["a"; "b"; "c"; "x.txt"]))
                 (ParentGroup "changes" (Some repo)))
           (fun folder =>
              buildLoop joinUri emptyModel defaultProps
                (buildFileChangeTree joinUri codeCompare emptyModel
                   defaultProps 2)
                nested 2 0 (ParentGroup "changes" (Some repo)) 2 2
                ([] ++ [folder]))
           None.
Proof.
  destruct (C4_folder_boundary joinUri emptyModel defaultProps
              (buildFileChangeTree joinUri codeCompare emptyModel
                 defaultProps 2)
              nested 2 0 (ParentGroup "changes" (Some repo)) 2 0 [] None
              {| resource := change "file:///repo/a/b/c/x.txt";
                 pathParts := ["a"; "b"; "c"; "x.txt"] |}
              2
              {| resource := change "file:///repo/a/b/d/y.txt";
                 pathParts := ["a"; "b"; "d"; "y.txt"] |})
    as (t & Hlo & Hin & Hout & Hloop & _);
    [lia|reflexivity|cbv; discriminate|reflexivity|cbv; discriminate
    |reflexivity|].
  assert (Ht : t = 2).
  { destruct (Nat.lt_trichotomy t 2) as [H|[H|H]]; [|exact H|].
    - exfalso. apply Hout. replace t with 1 by lia.
      unfold agreeAt. cbn. repeat split; lia.
    - exfalso. destruct (Hin 2 ltac:(lia) H) as (_ & _ & H2).
      cbn in H2. discriminate. }
  subst t. exists 2. split; [reflexivity|]. split; [reflexivity|exact Hloop].
Defined.

(** ** C9: termination *)

Lemma firstn_ext {A : Type} t : forall (p q : list A),
  (forall k, k < t -> nth_error p k = nth_error q k) ->
  firstn t p = firstn t q.
Proof.
  induction t as [|t IH]; intros p q H; [reflexivity|].
  pose proof (H 0 ltac:(lia)) as H0.
  destruct p as [|x p], q as [|y q]; cbn in *; try discriminate; auto.
  injection H0 as <-. f_equal. apply IH.
  intros k Hk. apply (H (S k)). lia.
Qed.

Lemma firstn_nth {A : Type} t (p q : list A) k :
  firstn t p = firstn t q -> k < t -> nth_error p k = nth_error q k.
Proof.
  intros H Hk.
  pose proof (nth_error_firstn t p k) as Hp.
  pose proof (nth_error_firstn t q k) as Hq.
  apply Nat.ltb_lt in Hk. rewrite Hk in Hp, Hq. congruence.
Qed.

Lemma maxLength_nth resources : forall i r,
  nth_error resources i = Some r ->
  length (pathParts r) <= maxLength resources.
Proof.
  unfold maxLength.
  induction resources as [|x l IH]; intros [|i] r H;
    cbn [nth_error fold_right] in *; try discriminate.
  - injection H as ->. lia.
  - apply IH in H. lia.
Qed.

Lemma contiguous_sub resources start end_ start' end' :
  start <= start' -> end' <= end_ ->
  contiguous resources start end_ -> contiguous resources start' end'.
Proof.
  intros Hs He H i j k l Hi Hj Hk Hke. apply H; lia.
Qed.

Lemma noLaterPrefix_sub resources start end_ start' end' :
  start <= start' -> end' <= end_ ->
  noLaterPrefix resources start end_ -> noLaterPrefix resources start' end'.
Proof.
  intros Hs He H i j Hi Hj Hje. apply H; lia.
Qed.

(** The run that becomes a folder satisfies, at the folder boundary, what
    the recursion into it needs. *)
Lemma run_levelBelow resources start end_ level folderStart folderEnd
    firstFileChange lastFileChange :
  end_ <= length resources ->
  contiguous resources start end_ ->
  noLaterPrefix resources start end_ ->
  levelBelow resources start end_ level ->
  start <= folderStart -> folderStart < folderEnd -> folderEnd <= end_ ->
  nth_error resources folderStart = Some firstFileChange ->
  nth_error resources (folderEnd - 1) = Some lastFileChange ->
  Z.of_nat level <> lastIndex (pathParts firstFileChange) ->
  (forall i, folderStart <= i -> i < folderEnd ->
     nth_error (partsAt resources i) level
     = nth_error (pathParts firstFileChange) level) ->
  let thisLevel :=
    extendLevel (pathParts firstFileChange) (pathParts lastFileChange)
      (length (pathParts firstFileChange)) (level + 1) in
  level < thisLevel
  /\ thisLevel < length (pathParts firstFileChange)
  /\ levelBelow resources folderStart folderEnd thisLevel.
Proof.
  intros Hlen Hcont Hnlp Hbelow Hs Hlt Hfe Hr Hl Hlev Hrun t.
  pose proof (partsAt_nth _ _ _ Hr) as Pf.
  pose proof (partsAt_nth _ _ _ Hl) as Pl.
  set (pf := pathParts firstFileChange) in *.
  set (pl := pathParts lastFileChange) in *.
  destruct (extendLevel_spec pf pl (length pf) (level + 1))
    as (Hle & Hin & _); [lia|]. fold t in Hle, Hin.
  destruct (Hbelow folderStart ltac:(lia) ltac:(lia)) as [Hlf Hpf].
  rewrite Pf in Hlf, Hpf.
  destruct (Hbelow (folderEnd - 1) ltac:(lia) ltac:(lia)) as [Hll Hpl].
  rewrite Pl in Hll, Hpl.
  assert (Htf : t < length pf).
  { destruct (Nat.eq_dec t (level + 1)) as [->|Hne].
    - unfold lastIndex in Hlev. lia.
    - destruct (Hin (t - 1) ltac:(lia) ltac:(lia)) as (H1 & _).
      unfold lastIndex in H1. lia. }
  split; [lia|]. split; [exact Htf|].
  assert (Hshare : sharePrefix t pf pl).
  { split; [lia|]. apply firstn_ext. intros k Hk.
    destruct (Nat.lt_trichotomy k level) as [Hkl|[->|Hkl]].
    - apply (firstn_nth level); [congruence|exact Hkl].
    - rewrite <- Pl. symmetry. apply Hrun; lia.
    - destruct (Hin k ltac:(lia) Hk) as (_ & _ & H3). exact H3. }
  intros i Hi Hie.
  assert (Hsi : sharePrefix t pf (partsAt resources i)).
  { rewrite <- Pf. apply (Hcont folderStart i (folderEnd - 1) t); try lia.
    rewrite Pf, Pl. exact Hshare. }
  destruct Hsi as [_ Hsi]. rewrite Pf. split; [|congruence].
  assert (Hti : t <= length (partsAt resources i)).
  { pose proof (length_firstn t (partsAt resources i)) as H1.
    pose proof (length_firstn t pf) as H2. rewrite Hsi in H2. lia. }
  destruct (Nat.eq_dec (length (partsAt resources i)) t) as [Heq|Hne]; [|lia].
  exfalso.
  destruct (Nat.eq_dec i folderStart) as [->|Hif].
  - rewrite Pf in Heq. lia.
  - apply (Hnlp folderStart i); try lia.
    rewrite Pf. split; [lia|].
    rewrite Heq, Hsi, <- Heq. apply firstn_all.
Qed.

Section Termination.

Variable URI_resolve : option string -> string -> string.
Variable localeCompare : string -> string -> Z.
Variable getNode : string -> option TreeNode.
Variable props : ScmTreeProps.

Local Abbreviation build :=
  (buildFileChangeTree URI_resolve localeCompare getNode props).
Local Abbreviation buildLoop := (buildLoop URI_resolve getNode props).

(** The loop returns when the recursive calls it makes do. *)
Lemma buildLoop_terminates bld resources start end_ level parent :
  end_ <= length resources ->
  contiguous resources start end_ ->
  noLaterPrefix resources start end_ ->
  levelBelow resources start end_ level ->
  (forall folderStart folderEnd thisLevel p s,
      start <= folderStart -> folderEnd <= end_ ->
      levelBelow resources folderStart folderEnd thisLevel ->
      level < thisLevel -> thisLevel < maxLength resources ->
      exists l s', bld resources folderStart folderEnd thisLevel p s
                   = Done (l, s')) ->
  forall n folderStart result s,
    start <= folderStart -> end_ - folderStart < n ->
    exists l s',
      buildLoop bld resources end_ level parent n folderStart result s
      = Done (l, s').
Proof.
  intros Hlen Hcont Hnlp Hbelow Hbld.
  induction n as [|n IH]; intros folderStart result s Hs Hn; [lia|].
  destruct (Nat.le_gt_cases end_ folderStart) as [Hge|Hlt].
  { rewrite buildLoop_end by exact Hge. eauto. }
  destruct (nth_error resources folderStart) as [firstFileChange|] eqn:Hr.
  2:{ apply nth_error_None in Hr. lia. }
  destruct (Z.eq_dec (Z.of_nat level)
              (lastIndex (pathParts firstFileChange))) as [Hlev|Hlev].
  { rewrite (buildLoop_leaf _ _ _ _ _ _ _ _ _ _ _ _ _ Hlt Hr Hlev).
    destruct (toFileChangeNode_Done getNode (resource firstFileChange) s)
      as [s1 H1].
    rewrite (bind_Done _ _ _ _ _ H1). apply IH; lia. }
  destruct (runEnd_spec resources level
              (nth_error (pathParts firstFileChange) level)
              (end_ - S folderStart) (S folderStart))
    as (fe & Hrun & Hle & Hin & _); [lia|].
  destruct (Z.lt_ge_cases (Z.of_nat (fe - folderStart)) (threshold props))
    as [Hth|Hth].
  { rewrite (buildLoop_inline _ _ _ _ _ _ _ _ _ _ _ _ _ _ Hlt Hr Hlev Hrun
               Hth).
    destruct (inlineRun_Done getNode resources (fe - folderStart)
                folderStart result s) as [s1 H1]; [lia|].
    rewrite (bind_Done _ _ _ _ _ H1). apply IH; lia. }
  destruct (nth_error resources (fe - 1)) as [lastFileChange|] eqn:Hl.
  2:{ apply nth_error_None in Hl. lia. }
  rewrite (buildLoop_folder _ _ _ _ _ _ _ _ _ _ _ _ _ _ _ Hlt Hr Hlev Hrun
             Hth Hl).
  destruct (run_levelBelow resources start end_ level folderStart fe
              firstFileChange lastFileChange)
    as (Hlt' & Hmax & Hbelow'); auto; try lia.
  { intros i Hi Hie. destruct (Nat.eq_dec i folderStart) as [->|Hne].
    - now rewrite (partsAt_nth _ _ _ Hr).
    - apply Hin; lia. }
  pose proof (maxLength_nth _ _ _ Hr) as Hm.
  unfold toFileChangeFolderNode.
  edestruct Hbld as (c & s1 & Hc); [| |exact Hbelow'|exact Hlt'| |].
  1-3: lia.
  erewrite bind_Done; [|erewrite bind_Done; [reflexivity|exact Hc]].
  apply IH; lia.
Qed.

(** [buildFileChangeTree] returns on a well-nested range once the
    recursion depth covers the longest path. *)
Lemma build_terminates fuel : forall resources start end_ level parent s,
  end_ <= length resources ->
  contiguous resources start end_ ->
  noLaterPrefix resources start end_ ->
  levelBelow resources start end_ level ->
  maxLength resources - level < fuel ->
  exists l s', build fuel resources start end_ level parent s = Done (l, s').
Proof.
  induction fuel as [|fuel IH];
    intros resources start end_ level parent s Hlen Hcont Hnlp Hbelow Hfuel;
    [lia|].
  rewrite buildFileChangeTree_S.
  destruct (buildLoop_terminates (build fuel) resources start end_ level
              parent Hlen Hcont Hnlp Hbelow) with
    (n := S (end_ - start)) (folderStart := start) (result := @nil node)
    (s := s) as (l & s' & Hloop); try lia.
  - intros fs fe t p s0 Hfs Hfe Hb Hlt Hmax.
    apply IH; auto; try lia.
    + eapply contiguous_sub; [| |exact Hcont]; lia.
    + eapply noLaterPrefix_sub; [| |exact Hnlp]; lia.
  - rewrite (bind_Done _ _ _ _ _ Hloop). unfold ret. eauto.
Qed.

End Termination.

Section Divergence.

Variable URI_resolve : option string -> string -> string.
Variable localeCompare : string -> string -> Z.
Variable getNode : string -> option TreeNode.
Variable props : ScmTreeProps.
Hypothesis Hth : (threshold props <= 1)%Z.

Local Abbreviation build :=
  (buildFileChangeTree URI_resolve localeCompare getNode props).

Lemma bind_OutOfFuel {A B : Type} (m : M A) (k : A -> M B) s :
  m s = OutOfFuel -> bind m k s = OutOfFuel.
Proof. unfold bind; intros ->; reflexivity. Qed.

(** A lone resource whose file name lies left of [level] is wrapped in
    folder after folder. *)
Lemma build_diverges_past_name fuel : forall resources i r level parent s,
  nth_error resources i = Some r ->
  (lastIndex (pathParts r) < Z.of_nat level)%Z ->
  build fuel resources i (S i) level parent s = OutOfFuel.
Proof.
  induction fuel as [|fuel IH]; intros resources i r level parent s Hr Hlev;
    [reflexivity|].
  assert (Hlen : i < length resources).
  { apply nth_error_Some. congruence. }
  rewrite buildFileChangeTree_S. apply bind_OutOfFuel.
  erewrite buildLoop_folder with (folderEnd := S i) (lastFileChange := r);
    [|lia|exact Hr|lia| |replace (S i - i) with 1 by lia; lia
     |replace (S i - 1) with i by lia; exact Hr].
  2:{ replace (S i - S i) with 0 by lia. reflexivity. }
  apply bind_OutOfFuel. unfold toFileChangeFolderNode.
  apply bind_OutOfFuel.
  apply IH with (r := r); [exact Hr|].
  destruct (extendLevel_spec (pathParts r) (pathParts r)
              (length (pathParts r)) (level + 1)) as (Hle & _); lia.
Qed.

End Divergence.

(** C9, amended.  [buildFileChangeTree] returns on the range
    [start, end) at [level] when the range lies within the list, every
    resource of the range has more than [level] segments and the same
    first [level] segments, resources of the range that share leading
    segments are contiguous, and no resource of the range is a proper
    prefix of an earlier one, as in a list sorted by segments: a recursion
    depth above the longest path is then enough.  From [toGroupNode] (the
    whole list at level 0) the first condition says that no [pathParts]
    is empty.  Without it a call need not return: on a single resource
    with empty [pathParts] and a threshold of at most 1 it does not,
    whatever the depth allowed. *)
Theorem C9_terminates_on_well_nested_ranges :
  (forall URI_resolve localeCompare getNode props resources start end_ level
          parent s fuel,
      end_ <= length resources ->
      levelBelow resources start end_ level ->
      contiguous resources start end_ ->
      noLaterPrefix resources start end_ ->
      maxLength resources - level < fuel ->
      exists l s',
        buildFileChangeTree URI_resolve localeCompare getNode props fuel
          resources start end_ level parent s = Done (l, s'))
  /\ (forall URI_resolve localeCompare getNode props r level parent s fuel,
        (threshold props <= 1)%Z ->
        buildFileChangeTree URI_resolve localeCompare getNode props fuel
          [{| resource := r; pathParts := [] |}] 0 1 level parent s
        = OutOfFuel).
Proof.
  split.
  - intros. apply build_terminates; assumption.
  - intros URI_resolve localeCompare getNode props r level parent s fuel Hth.
    apply build_diverges_past_name with (r := {| resource := r; pathParts := [] |});
      [exact Hth|reflexivity|].
    unfold lastIndex. cbn. lia.
Qed.

(** C9 on [a/x.txt], [a/y.txt], [b.txt]: the whole list at level 0 is well
    nested, and the call returns within depth 3. *)
Lemma C9_terminates_on_well_nested_ranges_witness :
  exists l s',
    buildFileChangeTree joinUri codeCompare emptyModel defaultProps 3 xyb
      0 3 0 (ParentGroup "changes" (Some repo)) None = Done (l, s').
Proof.
  apply (proj1 C9_terminates_on_well_nested_ranges).
  - cbn. lia.
  - intros i _ Hi. split; [|reflexivity].
    destruct i as [|[|[|i]]]; cbn; lia.
  - intros i j k l _ Hij Hjk Hk [Hl Hs].
    destruct (Nat.eq_dec j i) as [->|Hji]; [split; [exact Hl|reflexivity]|].
    destruct (Nat.eq_dec j k) as [->|Hjk']; [split; assumption|].
    assert (i = 0 /\ k = 2) as [-> ->] by lia.
    destruct l as [|l]; [split; [exact Hl|reflexivity]|].
    cbn in Hs. discriminate.
  - intros i j _ Hij Hj [Hl Hp].
    destruct i as [|[|i]]; destruct j as [|[|[|j]]]; try lia;
      cbn in Hl, Hp; try lia; discriminate.
  - cbn. lia.
Defined.

(** C9 as stated fails: in [a/x.txt], [a] every resource has a segment,
    and [buildFileChangeTree] on the whole list at level 0 returns within
    no recursion depth.  The folder [a] takes both resources, and below it
    the resource [a] has no segment left. *)
Lemma C9_counterexample :
  Forall (fun r => pathParts r <> []) folderThenFile
  /\ 0 <= 2
  /\ ~ exists fuel l s',
        buildFileChangeTree joinUri codeCompare emptyModel defaultProps fuel
          folderThenFile 0 2 0 (ParentGroup "changes" (Some repo)) None
        = Done (l, s').
Proof.
  split; [repeat constructor; discriminate|]. split; [lia|].
  intros (fuel & l & s' & H).
  assert (Hdiv : buildFileChangeTree joinUri codeCompare emptyModel
                   defaultProps fuel folderThenFile 0 2 0
                   (ParentGroup "changes" (Some repo)) None = OutOfFuel).
  2:{ congruence. }
  clear H. destruct fuel as [|fuel]; [reflexivity|].
  rewrite buildFileChangeTree_S. apply bind_OutOfFuel.
  erewrite buildLoop_folder with (folderEnd := 2);
    [|lia|reflexivity|cbv; discriminate|reflexivity|cbv; discriminate
     |reflexivity].
  apply bind_OutOfFuel. unfold toFileChangeFolderNode. apply bind_OutOfFuel.
  change (extendLevel _ _ _ _) with 1.
  destruct fuel as [|fuel]; [reflexivity|].
  rewrite buildFileChangeTree_S. apply bind_OutOfFuel.
  erewrite buildLoop_leaf; [|lia|reflexivity|reflexivity].
  erewrite bind_Done; [|reflexivity]. cbn [Nat.sub app].
  erewrite buildLoop_folder with (folderEnd := 2);
    [|lia|reflexivity|cbv; discriminate|reflexivity|cbv; discriminate
     |reflexivity].
  apply bind_OutOfFuel. unfold toFileChangeFolderNode. apply bind_OutOfFuel.
  apply build_diverges_past_name
    with (r := {| resource := change "file:///repo/a"; pathParts := ["a"] |});
    [cbv; discriminate|reflexivity|cbv; reflexivity].
Qed.

(** ** Sorted lists are well nested *)

Section SortedLists.

Variable before : string -> string -> Prop.
Hypothesis before_asym : forall x y, before x y -> before y x -> False.

Lemma lexLe_not_prefix p q :
  lexLe before p q -> length q < length p -> firstn (length q) p <> q.
Proof.
  induction 1 as [q|x y p q Hxy|x p q Hpq IH]; cbn [length firstn];
    intros Hlen Heq.
  - lia.
  - injection Heq as -> _. exact (before_asym _ _ Hxy Hxy).
  - injection Heq as Heq. apply IH; [lia|exact Heq].
Qed.

Lemma lexLe_between l : forall p m q,
  l <= length p -> firstn l p = firstn l q ->
  lexLe before p m -> lexLe before m q ->
  firstn l p = firstn l m.
Proof.
  induction l as [|l IH]; intros p m q Hl Heq Hpm Hmq; [reflexivity|].
  destruct p as [|x p]; [cbn in Hl; lia|].
  destruct q as [|x' q]; [discriminate|].
  cbn [firstn] in Heq. injection Heq as <- Heq.
  inversion Hpm as [|x0 y p0 m' Hxy|x0 p0 m' Hpm']; subst.
  - exfalso. inversion Hmq as [|y0 x0 m0 q0 Hyx|y0 m0 q0 _]; subst.
    + exact (before_asym _ _ Hxy Hyx).
    + exact (before_asym _ _ Hxy Hxy).
  - inversion Hmq as [|y0 x0 m0 q0 Hxx|y0 m0 q0 Hmq']; subst.
    + exfalso. exact (before_asym _ _ Hxx Hxx).
    + cbn [firstn]. f_equal. apply (IH p m' q); auto. cbn in Hl. lia.
Qed.

Lemma sorted_contiguous resources start end_ :
  sortedBySegments before resources start end_ ->
  contiguous resources start end_.
Proof.
  intros Hsorted i j k l Hi Hij Hjk Hk [Hl Heq]. split; [exact Hl|].
  apply (lexLe_between l _ _ (partsAt resources k)); auto.
  - apply Hsorted; lia.
  - apply Hsorted; lia.
Qed.

Lemma sorted_noLaterPrefix resources start end_ :
  sortedBySegments before resources start end_ ->
  noLaterPrefix resources start end_.
Proof.
  intros Hsorted i j Hi Hij Hj [Hlen Heq].
  apply (lexLe_not_prefix (partsAt resources i) (partsAt resources j));
    auto.
  apply Hsorted; lia.
Qed.

End SortedLists.

(** X1.  On a list sorted by path segments, for any asymmetric order on
    segments, in which every resource has a segment, the call
    [toGroupNode] makes ([buildFileChangeTree] on the whole list at
    level 0) returns within a recursion depth above the longest path. *)
Theorem X1_terminates_on_sorted_lists (before : string -> string -> Prop)
    URI_resolve localeCompare getNode props resources parent s fuel :
  (forall x y, before x y -> before y x -> False) ->
  sortedBySegments before resources 0 (length resources) ->
  Forall (fun r => pathParts r <> []) resources ->
  maxLength resources < fuel ->
  exists l s',
    buildFileChangeTree URI_resolve localeCompare getNode props fuel resources
      0 (length resources) 0 parent s = Done (l, s').
Proof.
  intros Hasym Hsorted Hne Hfuel.
  apply build_terminates; try lia.
  - exact (sorted_contiguous before Hasym _ _ _ Hsorted).
  - exact (sorted_noLaterPrefix before Hasym _ _ _ Hsorted).
  - intros i _ Hi. split; [|reflexivity].
    unfold partsAt. destruct (nth_error resources i) as [r|] eqn:Hr.
    + rewrite Forall_forall in Hne.
      specialize (Hne r (nth_error_In _ _ Hr)).
      destruct (pathParts r); [congruence|cbn; lia].
    + apply nth_error_None in Hr. lia.
Qed.

Lemma codeCompare_asym a : forall b,
  (codeCompare a b < 0)%Z -> (codeCompare b a < 0)%Z -> False.
Proof.
  induction a as [|x a IH]; intros [|y b]; cbn [codeCompare]; try lia.
  destruct (Nat.ltb_spec (nat_of_ascii x) (nat_of_ascii y)),
    (Nat.ltb_spec (nat_of_ascii y) (nat_of_ascii x)); try lia.
  apply IH.
Qed.

(** X1 on [a/x.txt], [a/y.txt], [b.txt], sorted by character code. *)
Lemma X1_terminates_on_sorted_lists_witness :
  exists l s',
    buildFileChangeTree joinUri codeCompare emptyModel defaultProps 3 xyb
      0 (length xyb) 0 (ParentGroup "changes" (Some repo)) None
    = Done (l, s').
Proof.
  apply (X1_terminates_on_sorted_lists
           (fun x y => (codeCompare x y < 0)%Z)).
  - exact (fun x y => codeCompare_asym x y).
  - intros i j _ Hij Hj. cbn in Hj.
    destruct i as [|[|[|i]]]; destruct j as [|[|[|j]]]; try lia; cbn;
      repeat (first [ apply lexLe_same | apply lexLe_nil
                    | apply lexLe_before; vm_compute; reflexivity ]).
  - repeat constructor; discriminate.
  - cbn. lia.
Defined.

(** ** Every resource becomes one file of the tree *)

Lemma insert_Permutation {A : Type} (cmp : A -> A -> Z) x l :
  Permutation (Js.insert cmp x l) (x :: l).
Proof.
  induction l as [|y l IH]; cbn [Js.insert]; [reflexivity|].
  destruct (cmp x y <=? 0)%Z; [reflexivity|].
  rewrite IH. apply perm_swap.
Qed.

Lemma sort_Permutation {A : Type} (cmp : A -> A -> Z) l :
  Permutation (Js.sort cmp l) l.
Proof.
  induction l as [|x l IH]; [reflexivity|].
  change (Js.sort cmp (x :: l)) with (Js.insert cmp x (Js.sort cmp l)).
  rewrite insert_Permutation. now constructor.
Qed.

Lemma slice_app {A : Type} (l : list A) a b c :
  a <= b -> b <= c -> Js.slice a b l ++ Js.slice b c l = Js.slice a c l.
Proof.
  intros Hab Hbc. unfold Js.slice.
  replace (c - a) with ((b - a) + (c - b)) by lia.
  replace (skipn b l) with (skipn (b - a) (skipn a l)).
  2:{ rewrite skipn_skipn. f_equal. lia. }
  generalize (skipn a l) as l0, (b - a) as n. clear.
  induction l0 as [|x l0 IH]; intros n.
  - rewrite !firstn_nil, skipn_nil, firstn_nil. reflexivity.
  - destruct n as [|n]; cbn; [reflexivity|]. f_equal. apply IH.
Qed.

Lemma filesOf_leaves getNode resources a b :
  flat_map filesOf (leavesOf getNode resources a b)
  = leavesOf getNode resources a b.
Proof.
  unfold leavesOf. induction (Js.slice a b resources) as [|r l IH]; cbn;
    [reflexivity|]. now rewrite IH.
Qed.

Lemma leavesOf_nil getNode resources a b :
  b <= a -> leavesOf getNode resources a b = [].
Proof.
  intros H. unfold leavesOf, Js.slice.
  replace (b - a) with 0 by lia. reflexivity.
Qed.

Lemma leavesOf_step getNode resources a b r :
  nth_error resources a = Some r -> a < b ->
  leavesOf getNode resources a b
  = leafOf getNode (resource r) :: leavesOf getNode resources (S a) b.
Proof.
  intros Hr Hab. unfold leavesOf.
  replace b with (a + S (b - S a)) at 1 by lia.
  rewrite (slice_step _ _ _ _ Hr).
  replace (S a + (b - S a)) with b by lia. reflexivity.
Qed.

Lemma leavesOf_app getNode resources a b c :
  a <= b -> b <= c ->
  leavesOf getNode resources a b ++ leavesOf getNode resources b c
  = leavesOf getNode resources a c.
Proof.
  intros Hab Hbc. unfold leavesOf.
  rewrite <- map_app, slice_app by lia. reflexivity.
Qed.

Section Files.

Variable URI_resolve : option string -> string -> string.
Variable localeCompare : string -> string -> Z.
Variable getNode : string -> option TreeNode.
Variable props : ScmTreeProps.

Local Abbreviation build :=
  (buildFileChangeTree URI_resolve localeCompare getNode props).
Local Abbreviation buildLoop := (buildLoop URI_resolve getNode props).

Lemma inlineRun_inv resources n : forall i result s l s',
  inlineRun getNode resources n i result s = Done (l, s') ->
  l = result ++ leavesOf getNode resources i (i + n).
Proof.
  induction n as [|n IH]; intros i result s l s' H; cbn in H.
  - injection H as <- <-. rewrite leavesOf_nil by lia.
    now rewrite app_nil_r.
  - destruct (nth_error resources i) as [r|] eqn:Hr; [|discriminate].
    apply bind_inv in H. destruct H as (leaf & s1 & Hl & H).
    apply toFileChangeNode_inv in Hl. subst leaf.
    apply IH in H. subst l.
    rewrite (leavesOf_step _ _ i (i + S n) r Hr) by lia.
    replace (S i + n) with (i + S n) by lia.
    rewrite <- app_assoc. reflexivity.
Qed.

Lemma buildLoop_files bld resources end_ level parent n :
  (forall a b t p s c s',
      a <= b -> bld resources a b t p s = Done (c, s') ->
      Permutation (flat_map filesOf c) (leavesOf getNode resources a b)) ->
  forall folderStart result s l s',
    folderStart <= end_ ->
    buildLoop bld resources end_ level parent n folderStart result s
    = Done (l, s') ->
    Permutation (flat_map filesOf l)
      (flat_map filesOf result ++ leavesOf getNode resources folderStart end_).
Proof.
  intros Hbld.
  induction n as [|n IH]; intros folderStart result s l s' Hle H;
    [discriminate|].
  cbn -[Nat.ltb Z.eqb Z.ltb Nat.sub runEnd extendLevel Js.join Js.slice
        threshold] in H.
  destruct (Nat.ltb_spec folderStart end_) as [Hlt|Hge].
  2:{ injection H as <- <-. rewrite leavesOf_nil by lia.
      now rewrite app_nil_r. }
  destruct (nth_error resources folderStart) as [firstFileChange|] eqn:Hr;
    [|discriminate].
  destruct (Z.of_nat level =? lastIndex (pathParts firstFileChange))%Z.
  { apply bind_inv in H. destruct H as (leaf & s1 & Hl & H).
    apply toFileChangeNode_inv in Hl. subst leaf.
    apply IH in H; [|lia]. rewrite H.
    rewrite flat_map_app, <- app_assoc. apply Permutation_app_head.
    rewrite (leavesOf_step _ _ folderStart end_ _ Hr Hlt). reflexivity. }
  destruct (runEnd _ _ _ _ _) as [folderEnd| |] eqn:Hrun; try discriminate.
  apply runEnd_bounds in Hrun.
  destruct (Z.of_nat (folderEnd - folderStart) <? threshold props)%Z.
  { apply bind_inv in H. destruct H as (result' & s1 & Hi & H).
    apply inlineRun_inv in Hi. subst result'.
    apply IH in H; [|lia]. rewrite H.
    rewrite flat_map_app, <- app_assoc. apply Permutation_app_head.
    replace (folderStart + (folderEnd - folderStart)) with folderEnd by lia.
    rewrite filesOf_leaves, leavesOf_app by lia. reflexivity. }
  destruct (nth_error resources (folderEnd - 1)) as [lastFileChange|];
    [|discriminate].
  apply bind_inv in H. destruct H as (folder & s1 & Hf & H).
  apply toFileChangeFolderNode_inv in Hf. destruct Hf as (c & Hc & ->).
  apply Hbld in Hc; [|lia].
  apply IH in H; [|lia]. rewrite H.
  rewrite flat_map_app, <- app_assoc. apply Permutation_app_head.
  cbn [flat_map filesOf folderOf]. rewrite app_nil_r, Hc.
  rewrite leavesOf_app by lia. reflexivity.
Qed.

Lemma build_files fuel : forall resources start end_ level parent s l s',
  start <= end_ ->
  build fuel resources start end_ level parent s = Done (l, s') ->
  Permutation (flat_map filesOf l) (leavesOf getNode resources start end_).
Proof.
  induction fuel as [|fuel IH];
    intros resources start end_ level parent s l s' Hle H; [discriminate|].
  rewrite buildFileChangeTree_S in H.
  apply bind_inv in H. destruct H as (result & s1 & Hloop & Hret).
  injection Hret as <- <-.
  apply buildLoop_files in Hloop; [|intros; eapply IH; eauto|exact Hle].
  cbn in Hloop. rewrite <- Hloop.
  apply Permutation_flat_map. apply sort_Permutation.
Qed.

End Files.

(** X2.  Whenever [buildFileChangeTree] returns on a range
    [start, end), the files of the forest it returns, at all depths, are
    the leaves of the resources of the range, each once: no resource is
    lost or repeated, whatever folders are made. *)
Theorem X2_every_resource_becomes_one_file URI_resolve localeCompare getNode
    props fuel resources start end_ level parent s l s' :
  start <= end_ ->
  buildFileChangeTree URI_resolve localeCompare getNode props fuel resources
    start end_ level parent s = Done (l, s') ->
  Permutation (flat_map filesOf l) (leavesOf getNode resources start end_).
Proof. apply build_files. Qed.

(** X2 on [a/x.txt], [a/y.txt], [b.txt]. *)
Lemma X2_every_resource_becomes_one_file_witness :
  exists l,
    buildFileChangeTree joinUri codeCompare emptyModel defaultProps 3 xyb
      0 3 0 (ParentGroup "changes" (Some repo)) None = Done (l, None)
    /\ Permutation (flat_map filesOf l) (leavesOf emptyModel xyb 0 3).
Proof.
  eexists. split; [vm_compute; reflexivity|].
  apply (X2_every_resource_becomes_one_file joinUri codeCompare emptyModel
           defaultProps 3 xyb 0 3 0 (ParentGroup "changes" (Some repo)) None
           _ None); [lia|].
  vm_compute. reflexivity.
Defined.

(** ** C3: runs and the threshold *)





(** ** C6: the file cursor *)

Import Samples.

(** The sample tree is the one [createTree] builds. *)
Lemma sampleRoot_built :
  createTree joinUri codeCompare collapsedC defaultProps relativeTo 3 tree
    sampleProvider None = Done (sampleRoot, None).
Proof. vm_compute. reflexivity. Qed.

Lemma moveToNextFileNode_loop_reaches m q n : forall m' k,
  visible m' = visible m ->
  k <= q -> q < length (visible m) -> q - k < n ->
  isFileAt m q = true ->
  (forall i, k <= i -> i < q -> isFileAt m i = false) ->
  moveToNextFileNode_loop n m' (Some k) = (selectNode q m, Some q).
Proof.
  induction n as [|n IH]; intros m' k Hv Hk Hq Hn Hfile Hskip; [lia|].
  cbn [moveToNextFileNode_loop].
  assert (Hat : forall i, isFileAt m' i = isFileAt m i).
  { intros i. unfold isFileAt. now rewrite Hv. }
  rewrite Hat.
  destruct (Nat.eq_dec k q) as [->|Hne].
  - rewrite Hfile. unfold selectNode. now rewrite Hv.
  - rewrite (Hskip k) by lia.
    assert (Hnext : getNextSelectableNode (selectNode k m') = Some (S k)).
    { unfold getNextSelectableNode, selectNode. cbn [selectedNodes visible].
      rewrite Hv. destruct (Nat.ltb_spec (S k) (length (visible m))); [reflexivity|lia]. }
    rewrite Hnext. apply IH; try lia; auto.
    intros i Hi Hiq. apply Hskip; lia.
Qed.

(** When a file is visible after the selection, [moveToNextFileNode]
    selects the nearest one and returns it. *)
Lemma moveToNextFileNode_reaches m p rest q :
  selectedNodes m = p :: rest ->
  p < q -> q < length (visible m) ->
  isFileAt m q = true ->
  (forall i, p < i -> i < q -> isFileAt m i = false) ->
  moveToNextFileNode m = (selectNode q m, Some q).
Proof.
  intros Hsel Hp Hq Hfile Hskip. unfold moveToNextFileNode.
  assert (Hnext : getNextSelectableNode m = Some (S p)).
  { unfold getNextSelectableNode. rewrite Hsel.
    destruct (Nat.ltb_spec (S p) (length (visible m))); [reflexivity|lia]. }
  rewrite Hnext. apply moveToNextFileNode_loop_reaches; auto; lia.
Qed.

Lemma moveToPreviousFileNode_loop_reaches m q n : forall m' k,
  visible m' = visible m ->
  q <= k -> k < length (visible m) -> k - q < n ->
  isFileAt m q = true ->
  (forall i, q < i -> i <= k -> isFileAt m i = false) ->
  moveToPreviousFileNode_loop n m' (Some k) = (selectNode q m, Some q).
Proof.
  induction n as [|n IH]; intros m' k Hv Hk Hlen Hn Hfile Hskip; [lia|].
  cbn [moveToPreviousFileNode_loop].
  assert (Hat : forall i, isFileAt m' i = isFileAt m i).
  { intros i. unfold isFileAt. now rewrite Hv. }
  rewrite Hat.
  destruct (Nat.eq_dec k q) as [->|Hne].
  - rewrite Hfile. unfold selectNode. now rewrite Hv.
  - rewrite (Hskip k) by lia.
    destruct k as [|k]; [lia|].
    assert (Hprev : getPrevSelectableNode (selectNode (S k) m') = Some k).
    { unfold getPrevSelectableNode, selectNode. cbn [selectedNodes visible].
      rewrite Hv.
      destruct (Nat.ltb_spec k (length (visible m))); [reflexivity|lia]. }
    rewrite Hprev.
    apply IH; [exact Hv|lia|lia|lia|exact Hfile|].
    intros i Hi Hik. apply Hskip; lia.
Qed.

(** When a file is visible before the selection, [moveToPreviousFileNode]
    selects the nearest one and returns it. *)
Lemma moveToPreviousFileNode_reaches m p rest q :
  selectedNodes m = p :: rest ->
  q < p -> p <= length (visible m) ->
  isFileAt m q = true ->
  (forall i, q < i -> i < p -> isFileAt m i = false) ->
  moveToPreviousFileNode m = (selectNode q m, Some q).
Proof.
  intros Hsel Hq Hp Hfile Hskip. unfold moveToPreviousFileNode.
  destruct p as [|p]; [lia|].
  assert (Hprev : getPrevSelectableNode m = Some p).
  { unfold getPrevSelectableNode. rewrite Hsel.
    destruct (Nat.ltb_spec p (length (visible m))); [reflexivity|lia]. }
  rewrite Hprev. apply moveToPreviousFileNode_loop_reaches; auto; try lia.
  intros i Hi Hip. apply Hskip; lia.
Qed.

(** The nearest file after [p], when there is a file at [q]. *)
Lemma nearest_file_after m d : forall p q,
  q - p <= d -> p < q -> isFileAt m q = true ->
  exists q', p < q' /\ q' <= q /\ isFileAt m q' = true
             /\ forall i, p < i -> i < q' -> isFileAt m i = false.
Proof.
  induction d as [|d IH]; intros p q Hd Hp Hfile; [lia|].
  destruct (isFileAt m (S p)) eqn:Hnext.
  - exists (S p). split; [lia|]. split; [lia|]. split; [exact Hnext|].
    intros i H1 H2. lia.
  - destruct (Nat.eq_dec q (S p)) as [->|Hne]; [congruence|].
    destruct (IH (S p) q) as (q' & H1 & H2 & H3 & H4); try lia; auto.
    exists q'. split; [lia|]. split; [lia|]. split; [exact H3|].
    intros i Hi Hi'. destruct (Nat.eq_dec i (S p)) as [->|Hi''].
    + exact Hnext.
    + apply H4; lia.
Qed.

(** Forward steps from a selected node reach every file after it. *)
Lemma moveForward_reaches m0 d : forall m p q,
  visible m = visible m0 ->
  selectedNodes m = [p] ->
  q - p <= d -> p < q -> q < length (visible m0) ->
  isFileAt m0 q = true ->
  exists n, moveForward n m = selectNode q m0.
Proof.
  induction d as [|d IH]; intros m p q Hv Hsel Hd Hp Hq Hfile; [lia|].
  assert (Hat : forall i, isFileAt m i = isFileAt m0 i).
  { intros i. unfold isFileAt. now rewrite Hv. }
  destruct (nearest_file_after m0 (q - p) p q (le_n _) Hp Hfile)
    as (q' & H1 & H2 & H3 & H4).
  assert (Hstep : moveToNextFileNode m = (selectNode q' m, Some q')).
  { apply (moveToNextFileNode_reaches m p [] q'); auto.
    - rewrite Hv. lia.
    - now rewrite Hat.
    - intros i Hi Hi'. rewrite Hat. now apply H4. }
  destruct (Nat.eq_dec q' q) as [->|Hne].
  - exists 1. cbn [moveForward]. rewrite Hstep. cbn [fst].
    unfold selectNode. now rewrite Hv.
  - destruct (IH (selectNode q' m) q' q) as [n Hn]; auto; try lia.
    exists (S n). cbn [moveForward]. rewrite Hstep. exact Hn.
Qed.

(** The tree with both folders open is the one [createTree] builds over
    an empty model. *)
Lemma openRoot_built :
  createTree joinUri codeCompare emptyModel defaultProps relativeTo 3 tree
    sampleProvider None = Done (openRoot, None).
Proof. vm_compute. reflexivity. Qed.

(** The model the cursor ends with is the one its calls of [selectNode]
    make, one after the other. *)
Lemma moveToNextFileNode_loop_calls n : forall m nextNode,
  fst (moveToNextFileNode_loop n m nextNode)
  = fold_left (fun m' k => selectNode k m')
      (moveToNextFileNode_calls n m nextNode) m.
Proof.
  induction n as [|n IH]; intros m [k|]; cbn; try reflexivity.
  destruct (isFileAt m k); [reflexivity|]. cbn. apply IH.
Qed.

Lemma moveToPreviousFileNode_loop_calls n : forall m previousNode,
  fst (moveToPreviousFileNode_loop n m previousNode)
  = fold_left (fun m' k => selectNode k m')
      (moveToPreviousFileNode_calls n m previousNode) m.
Proof.
  induction n as [|n IH]; intros m [k|]; cbn; try reflexivity.
  destruct (isFileAt m k); [reflexivity|]. cbn. apply IH.
Qed.

(** On the way to the nearest file after it the cursor selects every
    node in turn. *)
Lemma moveToNextFileNode_calls_reaches m q n : forall m' k,
  visible m' = visible m ->
  k <= q -> q < length (visible m) -> q - k < n ->
  isFileAt m q = true ->
  (forall i, k <= i -> i < q -> isFileAt m i = false) ->
  moveToNextFileNode_calls n m' (Some k) = seq k (S (q - k)).
Proof.
  induction n as [|n IH]; intros m' k Hv Hk Hq Hn Hfile Hskip; [lia|].
  cbn [moveToNextFileNode_calls].
  assert (Hat : forall i, isFileAt m' i = isFileAt m i).
  { intros i. unfold isFileAt. now rewrite Hv. }
  rewrite Hat.
  destruct (Nat.eq_dec k q) as [->|Hne].
  - rewrite Hfile. now rewrite Nat.sub_diag.
  - rewrite (Hskip k) by lia.
    assert (Hnext : getNextSelectableNode (selectNode k m') = Some (S k)).
    { unfold getNextSelectableNode, selectNode. cbn [selectedNodes visible].
      rewrite Hv.
      destruct (Nat.ltb_spec (S k) (length (visible m))); [reflexivity|lia]. }
    rewrite Hnext.
    rewrite (IH (selectNode k m') (S k));
      [|exact Hv|lia|lia|lia|exact Hfile|intros i Hi Hiq; apply Hskip; lia].
    replace (S (q - k)) with (S (S (q - S k))) by lia. reflexivity.
Qed.

Lemma selectedByNext_reaches m p rest q :
  selectedNodes m = p :: rest ->
  p < q -> q < length (visible m) ->
  isFileAt m q = true ->
  (forall i, p < i -> i < q -> isFileAt m i = false) ->
  selectedByNext m = seq (S p) (q - p).
Proof.
  intros Hsel Hp Hq Hfile Hskip. unfold selectedByNext.
  assert (Hnext : getNextSelectableNode m = Some (S p)).
  { unfold getNextSelectableNode. rewrite Hsel.
    destruct (Nat.ltb_spec (S p) (length (visible m))); [reflexivity|lia]. }
  rewrite Hnext.
  rewrite (moveToNextFileNode_calls_reaches m q _ m (S p)); auto; try lia.
  replace (S (q - S p)) with (q - p) by lia. reflexivity.
Qed.

Lemma moveToPreviousFileNode_calls_reaches m q n : forall m' k,
  visible m' = visible m ->
  q <= k -> k < length (visible m) -> k - q < n ->
  isFileAt m q = true ->
  (forall i, q < i -> i <= k -> isFileAt m i = false) ->
  moveToPreviousFileNode_calls n m' (Some k) = rev (seq q (S (k - q))).
Proof.
  induction n as [|n IH]; intros m' k Hv Hk Hlen Hn Hfile Hskip; [lia|].
  cbn [moveToPreviousFileNode_calls].
  assert (Hat : forall i, isFileAt m' i = isFileAt m i).
  { intros i. unfold isFileAt. now rewrite Hv. }
  rewrite Hat.
  destruct (Nat.eq_dec k q) as [->|Hne].
  - rewrite Hfile. now rewrite Nat.sub_diag.
  - rewrite (Hskip k) by lia.
    destruct k as [|k]; [lia|].
    assert (Hprev : getPrevSelectableNode (selectNode (S k) m') = Some k).
    { unfold getPrevSelectableNode, selectNode. cbn [selectedNodes visible].
      rewrite Hv.
      destruct (Nat.ltb_spec k (length (visible m))); [reflexivity|lia]. }
    rewrite Hprev.
    rewrite (IH (selectNode (S k) m') k);
      [|exact Hv|lia|lia|lia|exact Hfile|intros i Hi Hik; apply Hskip; lia].
    replace (S (S k - q)) with (S (S (k - q))) by lia.
    rewrite (seq_S (S (k - q)) q), rev_app_distr. cbn [rev app].
    replace (q + S (k - q)) with (S k) by lia. reflexivity.
Qed.

Lemma selectedByPrevious_reaches m p rest q :
  selectedNodes m = p :: rest ->
  q < p -> p <= length (visible m) ->
  isFileAt m q = true ->
  (forall i, q < i -> i < p -> isFileAt m i = false) ->
  selectedByPrevious m = rev (seq q (p - q)).
Proof.
  intros Hsel Hq Hp Hfile Hskip. unfold selectedByPrevious.
  destruct p as [|p]; [lia|].
  assert (Hprev : getPrevSelectableNode m = Some p).
  { unfold getPrevSelectableNode. rewrite Hsel.
    destruct (Nat.ltb_spec p (length (visible m))); [reflexivity|lia]. }
  rewrite Hprev.
  rewrite (moveToPreviousFileNode_calls_reaches m q _ m p); auto; try lia.
  - replace (S (p - q)) with (S p - q) by lia. reflexivity.
  - intros i Hi Hip. apply Hskip; lia.
Qed.

(** C6, amended.  The cursor steps over folders by selecting them in
    turn.  When a file is visible after the first selected node,
    [moveToNextFileNode] calls [selectNode] on every node after the
    selection up to the nearest such file, in display order, the folders
    between them first and the file last; it ends with that file, and
    nothing else, selected and returns it.  [moveToPreviousFileNode] does
    the same towards the front.  The model either of them ends with is
    the one these calls make.  Forward steps from a selected file reach
    every later file, the last one included.  What the cursor does when
    no file is left in its direction is not part of this statement. *)
Theorem C6_cursor_selects_the_nearest_file :
  (forall m p rest q,
      selectedNodes m = p :: rest ->
      p < q -> q < length (visible m) ->
      isFileAt m q = true ->
      (forall i, p < i -> i < q -> isFileAt m i = false) ->
      moveToNextFileNode m
      = ({| visible := visible m; selectedNodes := [q] |}, Some q)
      /\ selectedByNext m = seq (S p) (q - p))
  /\ (forall m p rest q,
        selectedNodes m = p :: rest ->
        q < p -> p < length (visible m) ->
        isFileAt m q = true ->
        (forall i, q < i -> i < p -> isFileAt m i = false) ->
        moveToPreviousFileNode m
        = ({| visible := visible m; selectedNodes := [q] |}, Some q)
        /\ selectedByPrevious m = rev (seq q (p - q)))
  /\ (forall m,
        fst (moveToNextFileNode m)
        = fold_left (fun m' k => selectNode k m') (selectedByNext m) m
        /\ fst (moveToPreviousFileNode m)
           = fold_left (fun m' k => selectNode k m') (selectedByPrevious m) m)
  /\ (forall m p q,
        selectedNodes m = [p] ->
        p < q -> q < length (visible m) ->
        isFileAt m q = true ->
        exists n,
          moveForward n m = {| visible := visible m; selectedNodes := [q] |}).
Proof.
  split; [|split; [|split]].
  - intros m p rest q Hsel Hp Hq Hfile Hskip. split.
    + exact (moveToNextFileNode_reaches m p rest q Hsel Hp Hq Hfile Hskip).
    + exact (selectedByNext_reaches m p rest q Hsel Hp Hq Hfile Hskip).
  - intros m p rest q Hsel Hq Hp Hfile Hskip. split.
    + apply (moveToPreviousFileNode_reaches m p rest q Hsel Hq); auto. lia.
    + apply (selectedByPrevious_reaches m p rest q Hsel Hq); auto. lia.
  - intros m. split.
    + apply moveToNextFileNode_loop_calls.
    + apply moveToPreviousFileNode_loop_calls.
  - intros m p q Hsel Hp Hq Hfile.
    exact (moveForward_reaches m (q - p) m p q eq_refl Hsel (le_n _) Hp Hq
             Hfile).
Qed.

(** C6 on the tree with both folders open: from [a/x.txt] at position 1
    the cursor selects the folder [c] at position 2 and then the file
    [c/z.txt] at position 3. *)
Lemma C6_cursor_selects_the_nearest_file_witness :
  moveToNextFileNode openModel
  = ({| visible := visible openModel; selectedNodes := [3] |}, Some 3)
  /\ selectedByNext openModel = [2; 3].
Proof.
  apply (proj1 C6_cursor_selects_the_nearest_file openModel 1 [] 3).
  - reflexivity.
  - lia.
  - cbn. lia.
  - reflexivity.
  - intros i H1 H2. replace i with 2 by lia. reflexivity.
Defined.

(** C6 as stated fails where a file is left in the direction.  In the
    tree with both folders open the file [a/x.txt] is selected and the
    file [c/z.txt] is visible after it, behind the folder [c].
    [moveToNextFileNode] ends on [c/z.txt], and on its way it selects the
    folder [c]: not every node it selects is a file. *)
Lemma C6_counterexample :
  selectedNodes openModel = [1]
  /\ isFileAt openModel 1 = true
  /\ isFileAt openModel 3 = true
  /\ moveToNextFileNode openModel
     = ({| visible := visible openModel; selectedNodes := [3] |}, Some 3)
  /\ selectedByNext openModel = [2; 3]
  /\ isFileAt openModel 2 = false
  /\ ~ Forall (fun k => isFileAt openModel k = true) (selectedByNext openModel).
Proof.
  do 6 (split; [reflexivity|]).
  intros H. inversion H as [|k l Hk _]. discriminate Hk.
Qed.

(** Without a file left in the direction.  In the sample tree the file
    [a/x.txt] is selected, the folder [a] is the only visible node before
    it and the closed folder [c] the only one after it.
    [moveToPreviousFileNode] returns [undefined] and leaves the folder
    [a] selected; [moveToNextFileNode] returns [undefined] and leaves the
    folder [c] selected.  The comments of [handleLeft] and [handleRight]
    have "no-op if no previous file" and "no-op if no next file". *)
Lemma cursor_without_a_further_file :
  selectedNodes sampleModel = [1]
  /\ isFileAt sampleModel 1 = true
  /\ moveToPreviousFileNode sampleModel
     = ({| visible := visible sampleModel; selectedNodes := [0] |}, None)
  /\ isFileAt sampleModel 0 = false
  /\ moveToNextFileNode sampleModel
     = ({| visible := visible sampleModel; selectedNodes := [2] |}, None)
  /\ isFileAt sampleModel 2 = false.
Proof. repeat split. Qed.

(** ** C7: a resource that cannot be opened *)

Section FailedOpen.

Variable open : ScmResource -> World -> option World.
Variable URI_path : string -> string.
Variable DIFF_SCHEME : string.
Variable canNavigate hasPrevious hasNext : EditorWidget -> World -> bool.
Variable previous next : EditorWidget -> World -> World.
Variable TreeWidget_handleLeft TreeWidget_handleRight
         TreeWidget_handleEnter : World -> World.

(** A rejected [open()] is logged and gives no editor; nothing else of
    the world changes. *)
Lemma openResource_rejected r w :
  open r w = None ->
  openResource open URI_path DIFF_SCHEME r w
  = (logError "Failed to open a SCM resource" w, None).
Proof. unfold openResource. intros ->. reflexivity. Qed.

(** With a file selected whose [open()] rejects, [handleRight] and
    [handleEnter] end with the world as [openResource] left it, and
    [handleLeft] goes on to the left-key handling of [TreeWidget]. *)
Lemma handlers_on_rejected_open w provider e r :
  selectedRepository w = Some provider ->
  soleSelectedFile w = Some e ->
  getResourceFromNode e w = Done (Some r) ->
  open r w = None ->
  handleLeft open URI_path DIFF_SCHEME canNavigate hasPrevious previous
    TreeWidget_handleLeft w
  = Done (TreeWidget_handleLeft (logError "Failed to open a SCM resource" w))
  /\ handleRight open URI_path DIFF_SCHEME canNavigate hasNext next
       TreeWidget_handleRight w
     = Done (logError "Failed to open a SCM resource" w)
  /\ handleEnter open URI_path DIFF_SCHEME TreeWidget_handleEnter w
     = Done (logError "Failed to open a SCM resource" w).
Proof.
  intros Hrepo Hsel Hres Hopen.
  unfold handleLeft, handleRight, handleEnter.
  rewrite Hrepo, Hsel, Hres, (openResource_rejected _ _ Hopen).
  repeat split.
Qed.

End FailedOpen.

(** C7 does not hold of [handleLeft].  In the sample world the file
    [a/x.txt] is selected and its [open()] rejects.  [openResource] logs
    the failure, returns no editor and leaves the selection alone, and so
    does [handleRight]; [handleLeft] then runs the left-key handling of
    [TreeWidget], which moves the selection from the file (position 1)
    to its folder [a] (position 0). *)
Theorem C7_failed_open_moves_selection_on_left :
  openResource rejecting pathOfUri "diff" (change "file:///repo/a/x.txt")
    sampleWorld
  = (logError "Failed to open a SCM resource" sampleWorld, None)
  /\ handleRight rejecting pathOfUri "diff" noChunks noChunks stay
       (fun w => w) sampleWorld
     = Done (logError "Failed to open a SCM resource" sampleWorld)
  /\ selectedNodes (model sampleWorld) = [1]
  /\ handleLeft rejecting pathOfUri "diff" noChunks noChunks stay selectParent
       sampleWorld
     = Done {| selectedRepository := selectedRepository sampleWorld;
               model := {| visible := visible sampleModel;
                           selectedNodes := [0] |};
               console := ["Failed to open a SCM resource"];
               editors := [] |}.
Proof. repeat split. Qed.

(** ** C8: the persisted view mode *)

(** C8.  On a persisted state that is an object, [restoreState] sets the
    view mode to [tree] exactly when the [mode] property is the string
    ['tree'] and to [flat] for every other value of it, a missing one
    included, and completes as the [restoreState] of [TreeWidget] does;
    and restoring what [storeState] returned gives a fresh widget the
    view mode of the stored one. *)
Theorem C8_restoreState_viewMode (TreeState : Type)
    (TreeWidget_storeState : TreeState -> Js.value)
    (TreeWidget_restoreState : Js.value -> TreeState -> TreeState * completion)
    (w fresh : Widget TreeState) (fields : list (string * Js.value)) :
  let restored :=
    restoreState TreeState TreeWidget_restoreState (Js.Obj fields) fresh in
  (_viewMode (fst restored) = tree
   <-> Js.lookup "mode" fields = Js.Str "tree")
  /\ (_viewMode (fst restored) = flat
      <-> Js.lookup "mode" fields <> Js.Str "tree")
  /\ snd restored
     = snd (TreeWidget_restoreState (Js.lookup "tree" fields)
              (treeState fresh))
  /\ _viewMode
       (fst (restoreState TreeState TreeWidget_restoreState
               (storeState TreeState TreeWidget_storeState w) fresh))
     = _viewMode w.
Proof.
  assert (Hmode : forall v, isTreeMode v = true <-> v = Js.Str "tree").
  { intros v. destruct v; cbn; split; intros H; try discriminate.
    - apply String.eqb_eq in H. congruence.
    - injection H as ->. reflexivity. }
  unfold restoreState, storeState. cbn [destructure].
  destruct (TreeWidget_restoreState (Js.lookup "tree" fields) (treeState fresh))
    as [t c] eqn:Hr.
  cbn [fst snd _viewMode].
  split; [|split; [|split]].
  - destruct (isTreeMode (Js.lookup "mode" fields)) eqn:Hm.
    + apply Hmode in Hm. tauto.
    + split; [discriminate|]. intros H. apply Hmode in H. congruence.
  - destruct (isTreeMode (Js.lookup "mode" fields)) eqn:Hm.
    + apply Hmode in Hm. split; [discriminate|]. intros H. contradiction.
    + split; [|reflexivity]. intros _ H. apply Hmode in H. congruence.
  - reflexivity.
  - cbn [Js.lookup]. cbn.
    destruct (TreeWidget_restoreState (TreeWidget_storeState _) _)
      as [t' c'].
    destruct w as [[|] ts]; reflexivity.
Qed.

(** * Further properties of the code *)

(** ** The folders above a file spell its directory *)

Lemma under_app chain n l1 l2 :
  under chain n (l1 ++ l2) <-> under chain n l1 \/ under chain n l2.
Proof.
  split.
  - intros H. inversion H as [n0 l0 Hin Hf|id g path u c e sel ch n0 l0 Hin Hu];
      subst; apply in_app_or in Hin; destruct Hin as [Hin|Hin].
    + left. apply under_here; assumption.
    + right. apply under_here; assumption.
    + left. eapply under_below; eauto.
    + right. eapply under_below; eauto.
  - intros [H|H];
      inversion H as [n0 l0 Hin Hf|id g path u c e sel ch n0 l0 Hin Hu]; subst.
    + apply under_here; auto. apply in_or_app; auto.
    + eapply under_below; [|exact Hu]. apply in_or_app; eauto.
    + apply under_here; auto. apply in_or_app; auto.
    + eapply under_below; [|exact Hu]. apply in_or_app; eauto.
Qed.

Lemma under_perm chain n l l' :
  (forall x, In x l <-> In x l') -> under chain n l -> under chain n l'.
Proof.
  intros Hl H.
  inversion H as [n0 l0 Hin Hf|id g path u c e sel ch n0 l0 Hin Hu]; subst.
  - apply under_here; auto. now apply Hl.
  - eapply under_below; [|exact Hu]. apply Hl. exact Hin.
Qed.

Lemma under_nil chain n : ~ under chain n [].
Proof. intros H; inversion H; subst; contradiction. Qed.

Lemma In_slice {A : Type} (x : A) l : forall a b,
  In x (Js.slice a b l) -> exists i, a <= i < b /\ nth_error l i = Some x.
Proof.
  unfold Js.slice. intros a b H.
  apply In_nth_error in H. destruct H as [k Hk].
  assert (Hlt : k < b - a).
  { assert (nth_error (firstn (b - a) (skipn a l)) k <> None) by congruence.
    apply nth_error_Some in H. rewrite length_firstn in H. lia. }
  rewrite nth_error_firstn in Hk. apply Nat.ltb_lt in Hlt. rewrite Hlt in Hk.
  apply Nat.ltb_lt in Hlt.
  rewrite nth_error_skipn in Hk. exists (a + k). split; [lia|exact Hk].
Qed.

Lemma under_leaves getNode resources a b chain n :
  under chain n (leavesOf getNode resources a b) ->
  chain = [] /\ exists i r, a <= i < b /\ nth_error resources i = Some r
                            /\ n = leafOf getNode (resource r).
Proof.
  unfold leavesOf. intros H. inversion H; subst.
  - split; [reflexivity|].
    match goal with H : In _ (map _ _) |- _ => apply in_map_iff in H;
      destruct H as (r & <- & Hr) end.
    apply In_slice in Hr. destruct Hr as (i & Hi & Hr). eauto.
  - match goal with H : In _ (map _ _) |- _ => apply in_map_iff in H;
      destruct H as (r & Heq & Hr) end.
    discriminate.
Qed.

Lemma slice_firstn {A : Type} a b (p q : list A) :
  firstn b p = firstn b q -> Js.slice a b p = Js.slice a b q.
Proof.
  unfold Js.slice. intros H.
  destruct (Nat.le_gt_cases a b) as [Hab|Hab].
  - replace (firstn (b - a) (skipn a p)) with (skipn a (firstn b p)).
    2:{ rewrite skipn_firstn_comm. reflexivity. }
    replace (firstn (b - a) (skipn a q)) with (skipn a (firstn b q)).
    2:{ rewrite skipn_firstn_comm. reflexivity. }
    now rewrite H.
  - replace (b - a) with 0 by lia. reflexivity.
Qed.

Section Mirror.

Variable URI_resolve : option string -> string -> string.
Variable localeCompare : string -> string -> Z.
Variable getNode : string -> option TreeNode.
Variable props : ScmTreeProps.

Local Abbreviation build :=
  (buildFileChangeTree URI_resolve localeCompare getNode props).
Local Abbreviation buildLoop := (buildLoop URI_resolve getNode props).
Local Abbreviation mirrors := (mirrors getNode props).

Lemma mirrors_sub resources lo hi lo' hi' level chain n :
  lo <= lo' -> hi' <= hi ->
  mirrors resources lo' hi' level chain n ->
  mirrors resources lo hi level chain n.
Proof.
  intros Hlo Hhi (i & r & pieces & t & Hi & H).
  exists i, r, pieces, t. split; [lia|exact H].
Qed.

Lemma buildLoop_mirrors bld resources start end_ level parent :
  end_ <= length resources ->
  contiguous resources start end_ ->
  noLaterPrefix resources start end_ ->
  levelBelow resources start end_ level ->
  (forall folderStart folderEnd thisLevel p s c s',
      start <= folderStart -> folderEnd <= end_ ->
      levelBelow resources folderStart folderEnd thisLevel ->
      bld resources folderStart folderEnd thisLevel p s = Done (c, s') ->
      forall chain x, under chain x c ->
        mirrors resources folderStart folderEnd thisLevel chain x) ->
  forall n folderStart result s l s',
    start <= folderStart ->
    buildLoop bld resources end_ level parent n folderStart result s
    = Done (l, s') ->
    forall chain x, under chain x l ->
      under chain x result
      \/ mirrors resources folderStart end_ level chain x.
Proof.
  intros Hlen Hcont Hnlp Hbelow Hbld.
  induction n as [|n IH]; intros folderStart result s l s' Hs H chain x Hx;
    [discriminate|].
  destruct (Nat.le_gt_cases end_ folderStart) as [Hge|Hlt].
  { rewrite buildLoop_end in H by exact Hge. injection H as <- <-. auto. }
  destruct (nth_error resources folderStart) as [firstFileChange|] eqn:Hr.
  2:{ apply nth_error_None in Hr. lia. }
  destruct (Z.eq_dec (Z.of_nat level)
              (lastIndex (pathParts firstFileChange))) as [Hlev|Hlev].
  { rewrite (buildLoop_leaf _ _ _ _ _ _ _ _ _ _ _ _ _ Hlt Hr Hlev) in H.
    apply bind_inv in H. destruct H as (leaf & s1 & Hl & H).
    apply toFileChangeNode_inv in Hl. subst leaf.
    destruct (IH (S folderStart) _ _ _ _ ltac:(lia) H chain x Hx) as [Hu|Hm].
    - apply under_app in Hu. destruct Hu as [Hu|Hu]; [left; exact Hu|right].
      inversion Hu; subst.
      + match goal with H : In _ [_] |- _ => destruct H as [<-|[]] end.
        exists folderStart, firstFileChange, [], level.
        unfold lastIndex in Hlev.
        repeat split; auto; try lia.
        unfold Js.slice. now rewrite Nat.sub_diag.
      + match goal with H : In _ [_] |- _ => destruct H as [Heq|[]] end.
        discriminate.
    - right. eapply mirrors_sub; [| |exact Hm]; lia. }
  destruct (runEnd_spec resources level
              (nth_error (pathParts firstFileChange) level)
              (end_ - S folderStart) (S folderStart))
    as (fe & Hrun & Hle & Hin & _); [lia|].
  destruct (Z.lt_ge_cases (Z.of_nat (fe - folderStart)) (threshold props))
    as [Hth|Hth].
  { rewrite (buildLoop_inline _ _ _ _ _ _ _ _ _ _ _ _ _ _ Hlt Hr Hlev Hrun
               Hth) in H.
    destruct (inlineRun_Done getNode resources (fe - folderStart)
                folderStart result s) as [s1 H1]; [lia|].
    rewrite (bind_Done _ _ _ _ _ H1) in H.
    destruct (IH fe _ _ _ _ ltac:(lia) H chain x Hx) as [Hu|Hm].
    - apply under_app in Hu. destruct Hu as [Hu|Hu]; [left; exact Hu|right].
      apply under_leaves in Hu.
      destruct Hu as (-> & i & r & Hi & Hri & ->).
      destruct (Hbelow i ltac:(lia) ltac:(lia)) as [Hli _].
      rewrite (partsAt_nth _ _ _ Hri) in Hli.
      exists i, r, [], level.
      repeat split; auto; try lia.
      unfold Js.slice. now rewrite Nat.sub_diag.
    - right. eapply mirrors_sub; [| |exact Hm]; lia. }
  destruct (nth_error resources (fe - 1)) as [lastFileChange|] eqn:Hl.
  2:{ apply nth_error_None in Hl. lia. }
  rewrite (buildLoop_folder _ _ _ _ _ _ _ _ _ _ _ _ _ _ _ Hlt Hr Hlev Hrun
             Hth Hl) in H.
  destruct (run_levelBelow resources start end_ level folderStart fe
              firstFileChange lastFileChange)
    as (Hlt' & Hmax & Hbelow'); auto; try lia.
  { intros i Hi Hie. destruct (Nat.eq_dec i folderStart) as [->|Hne].
    - now rewrite (partsAt_nth _ _ _ Hr).
    - apply Hin; lia. }
  apply bind_inv in H. destruct H as (folder & s1 & Hf & H).
  apply toFileChangeFolderNode_inv in Hf.
  destruct Hf as (c & Hc & ->).
  set (t1 := extendLevel (pathParts firstFileChange) (pathParts lastFileChange)
               (length (pathParts firstFileChange)) (level + 1)) in *.
  destruct (IH fe _ _ _ _ ltac:(lia) H chain x Hx) as [Hu|Hm].
  2:{ right. eapply mirrors_sub; [| |exact Hm]; lia. }
  apply under_app in Hu. destruct Hu as [Hu|Hu]; [left; exact Hu|right].
  inversion Hu; subst.
  { match goal with H : In _ [_] |- _ => destruct H as [<-|[]] end.
    discriminate. }
  match goal with H : In _ [_] |- _ => destruct H as [Heq|[]] end.
  unfold folderOf in Heq. injection Heq as _ _ <- _ <- _ _.
  match goal with Hu' : under _ x c |- _ =>
    destruct (Hbld folderStart fe _ _ _ _ _ ltac:(lia) ltac:(lia) Hbelow' Hc
                _ _ Hu')
      as (i & r & pieces & t & Hi & Hri & -> & -> & Hne & Hcat & Ht & Hthr)
  end.
  destruct (Hbelow' i ltac:(lia) ltac:(lia)) as [_ Hpre].
  rewrite (partsAt_nth _ _ _ Hri), (partsAt_nth _ _ _ Hr) in Hpre.
  exists i, r, (Js.slice level t1 (pathParts firstFileChange) :: pieces), t.
  split; [lia|]. split; [exact Hri|]. split; [reflexivity|].
  split; [reflexivity|]. split.
  { constructor; [|exact Hne]. intros E.
    apply (f_equal (@length _)) in E. unfold Js.slice in E.
    rewrite length_firstn, length_skipn in E. cbn in E. lia. }
  split.
  { cbn [concat]. rewrite Hcat.
    rewrite <- (slice_firstn level t1 _ _ Hpre).
    apply slice_app; lia. }
  split; [lia|exact Hthr].
Qed.

Lemma build_mirrors fuel : forall resources start end_ level parent s l s',
  end_ <= length resources ->
  contiguous resources start end_ ->
  noLaterPrefix resources start end_ ->
  levelBelow resources start end_ level ->
  build fuel resources start end_ level parent s = Done (l, s') ->
  forall chain x, under chain x l ->
    mirrors resources start end_ level chain x.
Proof.
  induction fuel as [|fuel IH];
    intros resources start end_ level parent s l s' Hlen Hcont Hnlp Hbelow H
      chain x Hx; [discriminate|].
  rewrite buildFileChangeTree_S in H.
  apply bind_inv in H. destruct H as (result & s1 & Hloop & Hret).
  injection Hret as <- <-.
  apply (under_perm _ _ _ result) in Hx.
  2:{ intros y. apply In_sort. }
  destruct (buildLoop_mirrors (build fuel) resources start end_ level parent
              Hlen Hcont Hnlp Hbelow) with
    (n := S (end_ - start)) (folderStart := start) (result := @nil node)
    (s := s) (l := result) (s' := s1) (chain := chain) (x := x)
    as [Hu|Hm]; auto.
  - intros fs fe t p s0 c s2 Hfs Hfe Hb Hc.
    eapply IH; eauto; try lia.
    + eapply contiguous_sub; [| |exact Hcont]; lia.
    + eapply noLaterPrefix_sub; [| |exact Hnlp]; lia.
  - destruct (under_nil _ _ Hu).
Qed.

End Mirror.

Lemma xyb_levelBelow : levelBelow xyb 0 3 0.
Proof.
  intros i _ Hi. split; [|reflexivity].
  destruct i as [|[|[|i]]]; cbn; lia.
Qed.

Lemma xyb_contiguous : contiguous xyb 0 3.
Proof.
  intros i j k l _ Hij Hjk Hk [Hl Hs].
  destruct (Nat.eq_dec j i) as [->|Hji]; [split; [exact Hl|reflexivity]|].
  destruct (Nat.eq_dec j k) as [->|Hjk']; [split; assumption|].
  assert (i = 0 /\ k = 2) as [-> ->] by lia.
  destruct l as [|l]; [split; [exact Hl|reflexivity]|].
  cbn in Hs. discriminate.
Qed.

Lemma xyb_noLaterPrefix : noLaterPrefix xyb 0 3.
Proof.
  intros i j _ Hij Hj [Hl Hp].
  destruct i as [|[|i]]; destruct j as [|[|[|j]]]; try lia;
    cbn in Hl, Hp; try lia; discriminate.
Qed.

Import MoreSamples.

(** X3.  On a well-nested range (the conditions of C9) the tree mirrors
    the directories: whenever [buildFileChangeTree] returns, a file that
    is reached through folders is the leaf of a resource of the range,
    and the [path] fields of those folders, outermost first, are
    consecutive blocks of the segments of that resource, each joined by
    slashes, from [level] up to a segment before the file name.  No file
    stands below a folder that is not a directory of its own path.  With
    a threshold of at most 1 the blocks end at the file name, so the
    folders above a file spell exactly its directory. *)
Theorem X3_folder_chain_spells_the_directory URI_resolve localeCompare
    getNode props fuel resources start end_ level parent s l s' :
  end_ <= length resources ->
  levelBelow resources start end_ level ->
  contiguous resources start end_ ->
  noLaterPrefix resources start end_ ->
  buildFileChangeTree URI_resolve localeCompare getNode props fuel resources
    start end_ level parent s = Done (l, s') ->
  forall chain x, under chain x l ->
    mirrors getNode props resources start end_ level chain x.
Proof.
  intros Hlen Hbelow Hcont Hnlp H. eapply build_mirrors; eauto.
Qed.

(** X3 on [a/x.txt], [a/y.txt], [b.txt]: the file [a/y.txt] below the
    folder [a]. *)
Lemma X3_folder_chain_spells_the_directory_witness :
  mirrors emptyModel defaultProps xyb 0 3 0 ["a"]
    (FileChangeNode "changes:file:///repo/a/y.txt" "file:///repo/a/y.txt"
       None false).
Proof.
  apply (X3_folder_chain_spells_the_directory joinUri codeCompare emptyModel
           defaultProps 3 xyb 0 3 0 (ParentGroup "changes" (Some repo)) None
           xybForest None).
  - cbn. lia.
  - exact xyb_levelBelow.
  - exact xyb_contiguous.
  - exact xyb_noLaterPrefix.
  - vm_compute. reflexivity.
  - eapply under_below; [left; reflexivity|].
    apply under_here; [right; left; reflexivity|reflexivity].
Defined.

(** ** Folders lie where their path resolves *)

Lemma node_forest_ind (P : node -> Prop) :
  (forall id u d s, P (FileChangeNode id u d s)) ->
  (forall id g path u c e s,
      Forall P c -> P (FileChangeFolderNode id g path u c e s)) ->
  forall n, P n.
Proof.
  intros Hfile Hfolder.
  fix IH 1. intros [id u d s|id g path u c e s].
  - apply Hfile.
  - apply Hfolder. induction c as [|x c IHc]; constructor.
    + apply IH.
    + exact IHc.
Qed.

Lemma placed_app top p n l1 l2 :
  placed top p n (l1 ++ l2) <-> placed top p n l1 \/ placed top p n l2.
Proof.
  split.
  - intros H.
    inversion H as [n0 l0 Hin|id g path u c e sel p0 n0 l0 Hin Hp]; subst;
      apply in_app_or in Hin; destruct Hin as [Hin|Hin].
    + left. apply placed_here; assumption.
    + right. apply placed_here; assumption.
    + left. eapply placed_below; [exact Hin|exact Hp].
    + right. eapply placed_below; [exact Hin|exact Hp].
  - intros [H|H];
      inversion H as [n0 l0 Hin|id g path u c e sel p0 n0 l0 Hin Hp]; subst.
    + apply placed_here. apply in_or_app; auto.
    + eapply placed_below; [|exact Hp]. apply in_or_app; eauto.
    + apply placed_here. apply in_or_app; auto.
    + eapply placed_below; [|exact Hp]. apply in_or_app; eauto.
Qed.

Lemma placed_perm top p n l l' :
  (forall x, In x l <-> In x l') -> placed top p n l -> placed top p n l'.
Proof.
  intros Hl H.
  inversion H as [n0 l0 Hin|id g path u c e sel p0 n0 l0 Hin Hp]; subst.
  - apply placed_here. now apply Hl.
  - eapply placed_below; [|exact Hp]. apply Hl. exact Hin.
Qed.

Lemma placed_incl top p n l l' :
  (forall x, In x l -> In x l') -> placed top p n l -> placed top p n l'.
Proof.
  intros Hl H.
  inversion H as [n0 l0 Hin|id g path u c e sel p0 n0 l0 Hin Hp]; subst.
  - apply placed_here. now apply Hl.
  - eapply placed_below; [|exact Hp]. apply Hl. exact Hin.
Qed.

(** What the model shows is placed in the tree. *)
Lemma visibleBelow_placed n : forall top e,
  In e (visibleBelow top n) -> placed top (e_parent e) (e_node e) [n].
Proof.
  induction n as [id u d s|id g path u c e s IH] using node_forest_ind;
    intros top en Hin; cbn [visibleBelow] in Hin.
  - destruct Hin as [<-|Hin]; [|destruct Hin].
    apply placed_here. left. reflexivity.
  - destruct Hin as [<-|Hin]; [apply placed_here; left; reflexivity|].
    destruct e; [|destruct Hin].
    apply in_flat_map in Hin. destruct Hin as (m & Hm & Hin).
    rewrite Forall_forall in IH. apply (IH m Hm) in Hin.
    eapply placed_below; [left; reflexivity|].
    apply (placed_incl _ _ _ [m]); [|exact Hin].
    intros x [<-|[]]. exact Hm.
Qed.

Lemma visible_placed top l e :
  In e (flat_map (visibleBelow top) l) ->
  placed top (e_parent e) (e_node e) l.
Proof.
  intros Hin. apply in_flat_map in Hin. destruct Hin as (m & Hm & Hin).
  apply visibleBelow_placed in Hin.
  apply (placed_incl _ _ _ [m]); [|exact Hin].
  intros x [<-|[]]. exact Hm.
Qed.

Section ParentInduction.

Variable URI_resolve : option string -> string -> string.
Variable localeCompare : string -> string -> Z.
Variable getNode : string -> option TreeNode.
Variable props : ScmTreeProps.

Local Abbreviation build :=
  (buildFileChangeTree URI_resolve localeCompare getNode props).
Local Abbreviation buildLoop := (buildLoop URI_resolve getNode props).
Local Abbreviation folderOf := (folderOf URI_resolve getNode props).

Variable P : Parent -> node -> Prop.
Variable Q : Parent -> list node -> Prop.
Hypothesis Hleaf : forall parent r, P parent (leafOf getNode r).
Hypothesis Hfolder : forall parent path children,
  Q (folderParent URI_resolve parent path) children ->
  P parent (folderOf parent path children).
Hypothesis Hsort : forall parent result,
  Forall (P parent) result ->
  Q parent (Js.sort (compareNodes localeCompare) result).

Lemma inlineRun_Forall_at parent resources n : forall i result s l s',
  Forall (P parent) result ->
  inlineRun getNode resources n i result s = Done (l, s') ->
  Forall (P parent) l.
Proof.
  induction n as [|n IH]; intros i result s l s' Hres H; cbn in H.
  - injection H as <- <-. exact Hres.
  - destruct (nth_error resources i) as [r|]; [|discriminate].
    apply bind_inv in H. destruct H as (leaf & s1 & Hl & H).
    apply toFileChangeNode_inv in Hl. subst leaf.
    eapply IH; [|exact H]. apply Forall_app; split; auto.
Qed.

Lemma buildLoop_Forall_at bld resources end_ level parent n :
  (forall resources start end_ level parent s l s',
      bld resources start end_ level parent s = Done (l, s') -> Q parent l) ->
  forall folderStart result s l s',
    Forall (P parent) result ->
    buildLoop bld resources end_ level parent n folderStart result s
    = Done (l, s') ->
    Forall (P parent) l.
Proof.
  intros Hbld.
  induction n as [|n IH]; intros folderStart result s l s' Hres H;
    [discriminate|].
  cbn -[Nat.ltb Z.eqb Z.ltb Nat.sub runEnd extendLevel Js.join Js.slice
        threshold] in H.
  destruct (folderStart <? end_)%nat.
  2:{ injection H as <- <-. exact Hres. }
  destruct (nth_error resources folderStart) as [firstFileChange|];
    [|discriminate].
  destruct (Z.of_nat level =? lastIndex (pathParts firstFileChange))%Z.
  { apply bind_inv in H. destruct H as (leaf & s1 & Hl & H).
    apply toFileChangeNode_inv in Hl. subst leaf.
    eapply IH; [|exact H]. apply Forall_app; split; auto. }
  destruct (runEnd _ _ _ _ _) as [folderEnd| |]; try discriminate.
  destruct (Z.of_nat (folderEnd - folderStart) <? threshold props)%Z.
  { apply bind_inv in H. destruct H as (result' & s1 & Hi & H).
    eapply IH; [|exact H]. eapply inlineRun_Forall_at; eauto. }
  destruct (nth_error resources (folderEnd - 1)) as [lastFileChange|];
    [|discriminate].
  apply bind_inv in H. destruct H as (folder & s1 & Hf & H).
  apply toFileChangeFolderNode_inv in Hf.
  destruct Hf as (children & Hc & ->).
  eapply IH; [|exact H]. apply Forall_app; split; auto.
  constructor; [|constructor]. apply Hfolder. eapply Hbld; eauto.
Qed.

Theorem build_ind_at fuel : forall resources start end_ level parent s l s',
  build fuel resources start end_ level parent s = Done (l, s') -> Q parent l.
Proof.
  induction fuel as [|fuel IH]; intros resources start end_ level parent s l s'
    H; [discriminate|].
  rewrite buildFileChangeTree_S in H.
  apply bind_inv in H. destruct H as (result & s1 & Hloop & Hret).
  injection Hret as <- <-. apply Hsort.
  eapply buildLoop_Forall_at; [exact IH| |exact Hloop]. constructor.
Qed.

End ParentInduction.

Section Located.

Variable URI_resolve : option string -> string -> string.
Variable localeCompare : string -> string -> Z.
Variable getNode : string -> option TreeNode.
Variable props : ScmTreeProps.

Local Abbreviation build :=
  (buildFileChangeTree URI_resolve localeCompare getNode props).
Local Abbreviation located := (located URI_resolve).

Lemma getRoot_parent p : getRoot p = parent_of p.
Proof.
  unfold getRoot. destruct p as [g r|g u q]; cbn [depth parent_of getRoot_loop].
  - reflexivity.
  - cbn. destruct (Parent_isFolder q); reflexivity.
Qed.

Lemma build_located fuel resources start end_ level parent s l s' :
  build fuel resources start end_ level parent s = Done (l, s') ->
  forall p n, placed parent p n l ->
    parent_groupId p = parent_groupId parent /\ located p n.
Proof.
  apply (build_ind_at URI_resolve localeCompare getNode props
           (fun parent n =>
              located parent n
              /\ forall p m,
                   placed (ParentFolder (parent_groupId parent) (sourceUri n)
                             parent) p m (children n) ->
                   parent_groupId p = parent_groupId parent /\ located p m)
           (fun parent l =>
              forall p n, placed parent p n l ->
                parent_groupId p = parent_groupId parent /\ located p n)).
  - intros parent0 r. split; [exact I|].
    intros p m H. cbn in H.
    inversion H as [n0 l0 Hin|id g path u c e sel p0 n0 l0 Hin Hp]; subst;
      destruct Hin.
  - intros parent0 path c Hc. split.
    + unfold folderOf; cbn. destruct parent0; cbn; auto.
    + intros p m H. unfold folderOf, folderParent in *. cbn in H.
      exact (Hc p m H).
  - intros parent0 result Hres p n H.
    apply (placed_perm _ _ _ _ result) in H.
    2:{ intros x. apply In_sort. }
    rewrite Forall_forall in Hres.
    inversion H as [n0 l0 Hin|id g path u c e sel p0 n0 l0 Hin Hp]; subst.
    + split; [reflexivity|]. exact (proj1 (Hres n Hin)).
    + destruct (Hres _ Hin) as [(Hg & _) Hbelow]. cbn in Hg, Hbelow.
      subst g. apply Hbelow. exact Hp.
Qed.

End Located.

Lemma collectUris_files group n : forall uris,
  collectUris group uris n
  = uris ++ map (fun m => find (fun r => String.eqb (resource_sourceUri r)
                                           (sourceUri m))
                            (group_resources group))
              (filesOf n).
Proof.
  induction n as [id u d s|id g path u c e s IH] using node_forest_ind;
    intros uris; cbn [collectUris filesOf].
  - reflexivity.
  - revert uris. induction c as [|x c IHc]; intros uris; cbn.
    + now rewrite app_nil_r.
    + inversion IH as [|x0 c0 Hx Hc]; subst.
      rewrite IHc by exact Hc. rewrite Hx, map_app, app_assoc. reflexivity.
Qed.

Lemma occursIn_files n l m :
  occursIn n l -> In m (filesOf n) -> In m (flat_map filesOf l).
Proof.
  intros Hocc. revert m.
  induction Hocc as [l Hin|l f Hf Hocc IH]; intros m Hm.
  - apply in_flat_map. exists n. auto.
  - apply in_flat_map. exists f. split; [exact Hf|].
    destruct f as [id u d s|id g path u c e s]; cbn in *.
    + inversion Hocc as [l0 Hin|l0 f' Hf' _]; subst; destruct Hin || destruct Hf'.
    + apply IH. exact Hm.
Qed.

Lemma placed_file_in top p n l :
  placed top p n l -> FileChangeNode_is n = true ->
  In n (flat_map filesOf l).
Proof.
  intros H Hfile.
  induction H as [top n l Hin|top id g path u c e sel p n l Hin Hp IH].
  - apply in_flat_map. exists n. split; [exact Hin|].
    destruct n; [left; reflexivity|discriminate].
  - apply in_flat_map. eexists. split; [exact Hin|]. cbn. apply IH. exact Hfile.
Qed.

Lemma find_first {A : Type} (key : A -> string) (l : list A) x :
  NoDup (map key l) -> In x l ->
  find (fun y => String.eqb (key y) (key x)) l = Some x.
Proof.
  induction l as [|y l IH]; intros Hnd Hin; [destruct Hin|].
  cbn in Hnd. inversion Hnd as [|k ks Hnot Hnd']; subst.
  cbn [find]. destruct Hin as [->|Hin].
  - now rewrite String.eqb_refl.
  - destruct (String.eqb_spec (key y) (key x)) as [Heq|Hne].
    + exfalso. apply Hnot. rewrite Heq. now apply in_map.
    + now apply IH.
Qed.

Lemma find_at {A : Type} (key : A -> string) (l : list A) x :
  In x l ->
  exists y, find (fun y => String.eqb (key y) (key x)) l = Some y
            /\ key y = key x.
Proof.
  induction l as [|z l IH]; intros Hin; [destruct Hin|].
  cbn [find]. destruct (String.eqb_spec (key z) (key x)) as [Heq|Hne].
  - exists z. auto.
  - destruct Hin as [->|Hin]; [congruence|]. now apply IH.
Qed.

Section GroupForest.

Variable URI_resolve : option string -> string -> string.
Variable localeCompare : string -> string -> Z.
Variable getNode : string -> option TreeNode.
Variable props : ScmTreeProps.
Variable URI_relative : string -> string -> option string.

Local Abbreviation toGroupNode :=
  (toGroupNode URI_resolve localeCompare getNode props URI_relative).
Local Abbreviation createTree :=
  (createTree URI_resolve localeCompare getNode props URI_relative).

(** The children of a group node: folders in their place, and files
    that are the leaves of the resources of the group. *)
Lemma toGroupNode_forest fuel viewMode rootOfTree group s g s' :
  toGroupNode fuel viewMode rootOfTree group s = Done (g, s') ->
  gn_groupId g = group_id group
  /\ (forall p n,
        placed (ParentGroup (group_id group) rootOfTree) p n (gn_children g) ->
        parent_groupId p = group_id group /\ located URI_resolve p n)
  /\ (forall m, In m (flat_map filesOf (gn_children g)) ->
        exists r, In r (group_resources group) /\ m = leafOf getNode r).
Proof.
  intros H. apply toGroupNode_inv in H.
  destruct H as (_ & Hg & _ & H). split; [exact Hg|].
  assert (Hleaves : forall rs p n,
            placed (ParentGroup (group_id group) rootOfTree) p n
              (map (leafOf getNode) rs) ->
            parent_groupId p = group_id group /\ located URI_resolve p n).
  { intros rs p n Hp.
    inversion Hp as [n0 l0 Hin|id g0 path u c e sel p0 n0 l0 Hin _]; subst;
      apply in_map_iff in Hin; destruct Hin as (r & Hr & _).
    - subst n. split; [reflexivity|exact I].
    - discriminate. }
  assert (Hnone : forall p n,
            placed (ParentGroup (group_id group) rootOfTree) p n [] ->
            parent_groupId p = group_id group /\ located URI_resolve p n).
  { intros p n Hp. apply (Hleaves [] p n Hp). }
  destruct viewMode.
  - rewrite H. split; [apply Hleaves|].
    intros m Hm. rewrite flat_map_concat_map, map_map in Hm.
    cbn [filesOf leafOf] in Hm. rewrite <- flat_map_concat_map in Hm.
    apply in_flat_map in Hm. destruct Hm as (r & Hr & [<-|[]]).
    exists r. auto.
  - destruct (group_provider_rootUri group) as [root|].
    2:{ rewrite H. split; [apply Hnone|]. intros m []. }
    destruct (Js.truthy (Some root)).
    2:{ rewrite H. split; [apply Hnone|]. intros m []. }
    destruct H as [s0 H]. split.
    + intros p n Hp.
      apply (build_located _ _ _ _ _ _ _ _ _ _ _ _ _ H p n Hp).
    + intros m Hm. apply build_files in H; [|lia].
      apply (Permutation_in _ H) in Hm.
      unfold leavesOf in Hm. apply in_map_iff in Hm.
      destruct Hm as (rp & <- & Hrp).
      apply In_slice in Hrp. destruct Hrp as (i & _ & Hrp).
      apply nth_error_In in Hrp.
      apply in_map_iff in Hrp. destruct Hrp as (r & <- & Hr).
      exists r. auto.
Qed.

End GroupForest.

(** X4.  In a tree that [createTree] returns, every folder, at any depth
    of a group, carries the [groupId] of that group, has as [sourceUri]
    its [path] resolved against the location of its parent (the
    [sourceUri] of a folder, the [rootUri] of the root for the group
    node), and has the id [groupId:sourceUri]; the parent links below a
    group all carry its [groupId]. *)
Theorem X4_folders_lie_where_their_path_resolves URI_resolve localeCompare
    getNode props URI_relative fuel viewMode provider s r s' :
  createTree URI_resolve localeCompare getNode props URI_relative fuel
    viewMode provider s = Done (r, s') ->
  forall g, In g (root_children r) ->
  forall p n,
    placed (ParentGroup (gn_groupId g) (root_rootUri r)) p n (gn_children g) ->
    parent_groupId p = gn_groupId g /\ located URI_resolve p n.
Proof.
  intros H g Hg p n Hp.
  apply createTree_inv in H. destruct H as [Hroot Hgroups].
  destruct (Hgroups g Hg) as (group & s1 & s2 & _ & Hgn).
  apply toGroupNode_forest in Hgn. destruct Hgn as (Hid & Hplaced & _).
  rewrite Hid, Hroot in *. now apply Hplaced.
Qed.

(** X4 on the sample tree: the folder [c] of the group [changes]. *)
Lemma X4_folders_lie_where_their_path_resolves_witness :
  parent_groupId (ParentGroup "changes" (Some repo)) = "changes"
  /\ located joinUri (ParentGroup "changes" (Some repo))
       (FileChangeFolderNode "changes:file:///repo/c" "changes" "c"
          "file:///repo/c"
          [FileChangeNode "changes:file:///repo/c/z.txt"
             "file:///repo/c/z.txt" None false]
          false false).
Proof.
  apply (X4_folders_lie_where_their_path_resolves joinUri codeCompare
           collapsedC defaultProps relativeTo 3 tree sampleProvider None
           sampleRoot None sampleRoot_built sampleGroupNode).
  - left. reflexivity.
  - apply placed_here. right. left. reflexivity.
Defined.

(** ** C5: flags across a rebuild *)

Section Reconciled.

Variable URI_resolve : option string -> string -> string.
Variable localeCompare : string -> string -> Z.
Variable getNode : string -> option TreeNode.
Variable props : ScmTreeProps.
Variable URI_relative : string -> string -> option string.

Local Abbreviation flagged := (flagged getNode props).

Lemma leafOf_flagged r : flagged (leafOf getNode r).
Proof.
  unfold flagged, leafOf. cbn [selected node_id]. split; [|exact I].
  destruct (getNode _) as [[| |o]|]; reflexivity.
Qed.

Lemma folderOf_flagged parent path c :
  flagged (folderOf URI_resolve getNode props parent path c).
Proof.
  unfold flagged, folderOf, configuredExpansion.
  cbn [selected node_id]. split.
  - destruct (getNode _) as [[| |o]|]; reflexivity.
  - destruct (getNode _) as [[| |[|]]|]; reflexivity.
Qed.

(** Every node of a forest [buildFileChangeTree] returns takes its flags
    from the model. *)
Lemma build_flagged fuel resources start end_ level parent s l s' :
  buildFileChangeTree URI_resolve localeCompare getNode props fuel resources
    start end_ level parent s = Done (l, s') ->
  forall n, occursIn n l -> flagged n.
Proof.
  apply (build_ind URI_resolve localeCompare getNode props
           (fun n => flagged n
                     /\ forall m, occursIn m (children n) -> flagged m)
           (fun l => forall n, occursIn n l -> flagged n)).
  - intros r. split; [apply leafOf_flagged|].
    intros m Hm. cbn in Hm. inversion Hm as [l0 H|l0 f H _]; destruct H.
  - intros p path c Hc. split; [apply folderOf_flagged|exact Hc].
  - intros result Hres n Hn.
    apply occursIn_perm with (l' := result) in Hn.
    2:{ intros x. apply In_sort. }
    rewrite Forall_forall in Hres.
    inversion Hn as [l0 Hin|l0 f Hf Hbelow]; subst.
    + apply Hres. exact Hin.
    + apply (Hres f Hf). exact Hbelow.
Qed.

(** A node of a forest stands there with some [parent] link. *)
Lemma occursIn_placed n l :
  occursIn n l -> forall top, exists p, placed top p n l.
Proof.
  intros H. induction H as [l Hin|l f Hf Hocc IH]; intros top.
  - exists top. now apply placed_here.
  - destruct f as [id u d sel|id g path u c e sel].
    + cbn in Hocc. inversion Hocc as [l0 Hin|l0 f' Hf' _]; subst;
        destruct Hin || destruct Hf'.
    + destruct (IH (ParentFolder g u top)) as [p Hp].
      exists p. eapply placed_below; [exact Hf|exact Hp].
Qed.

(** The folders and files of a group node are reconciled under their
    identity keys, and in [flat] mode they are all files. *)
Lemma toGroupNode_reconciled fuel viewMode rootOfTree group s g s' :
  toGroupNode URI_resolve localeCompare getNode props URI_relative fuel
    viewMode rootOfTree group s = Done (g, s') ->
  forall n, occursIn n (gn_children g) ->
    (match n with
     | FileChangeFolderNode _ _ _ _ _ _ _ =>
         reconciled getNode props (group_id group) n
     | FileChangeNode _ _ _ _ =>
         exists res, In res (group_resources group)
                     /\ resource_sourceUri res = sourceUri n
                     /\ reconciled getNode props (resource_group_id res) n
     end)
    /\ (viewMode = flat -> FileChangeNode_is n = true).
Proof.
  intros H n Hn.
  assert (Hflag : flagged n /\ (viewMode = flat -> FileChangeNode_is n = true)).
  { pose proof (toGroupNode_inv _ _ _ _ _ _ _ _ _ _ _ _ H) as (_ & _ & _ & Hc).
    assert (Hnil : forall m, ~ occursIn m []).
    { intros m Hm. inversion Hm as [l0 Hi|l0 f Hi _]; destruct Hi. }
    destruct viewMode.
    - rewrite Hc in Hn. apply occursIn_leaves in Hn.
      apply in_map_iff in Hn. destruct Hn as (x & <- & _).
      split; [apply leafOf_flagged|reflexivity].
    - split; [|discriminate].
      destruct (group_provider_rootUri group) as [root|].
      + destruct (Js.truthy (Some root)).
        * destruct Hc as [s0 Hc]. eapply build_flagged; eauto.
        * rewrite Hc in Hn. destruct (Hnil _ Hn).
      + rewrite Hc in Hn. destruct (Hnil _ Hn). }
  destruct Hflag as [[Hsel Hexp] Hflat]. split; [|exact Hflat].
  apply toGroupNode_forest in H. destruct H as (_ & Hplaced & Hfiles).
  destruct (occursIn_placed _ _ Hn (ParentGroup (group_id group) rootOfTree))
    as [p Hp].
  destruct n as [id u d sel|id g0 path u c e sel].
  - destruct (Hfiles _ (placed_file_in _ _ _ _ Hp eq_refl))
      as (res & Hres & Hleaf).
    exists res. split; [exact Hres|].
    injection Hleaf as -> -> _ _. cbn [sourceUri]. split; [reflexivity|].
    unfold reconciled. cbn [sourceUri node_id] in *.
    split; [reflexivity|]. split; [exact Hsel|exact I].
  - destruct (Hplaced _ _ Hp) as (Hg & Hg0 & Hu & Hid). cbn in Hg0.
    unfold reconciled. cbn [sourceUri node_id selected] in *.
    rewrite Hg in Hg0. subst g0. rewrite <- Hid.
    split; [reflexivity|]. split; [exact Hsel|]. split; [reflexivity|exact Hexp].
Qed.

End Reconciled.

(** C5, amended.  In every tree [createTree] builds, in either view mode,
    every folder and every file of a group node is reconciled with the
    node that the model, which is the tree in place when the rebuild
    starts, holds under its identity key.  The key is the id of the node:
    a group id, a colon and the [sourceUri]; the group id is the one of
    the group node for a folder and [resource.group.id] of its resource
    for a file, which is the id of the group node as well when every
    resource names the group that lists it.  The selection flag is the
    one of the folder or file found under the key, and the expansion flag
    of a folder is the one of the folder (or group) found there; a folder
    with no node under its key has the configured default, expanded
    unless the configuration says collapsed.  A tree built in [flat] mode
    has no folders, so that after it no folder is found under any key.  A
    group node is not reconciled: it is expanded after every rebuild. *)
Theorem C5_flags_reconciled URI_resolve localeCompare getNode props
    URI_relative fuel viewMode provider s r s' :
  createTree URI_resolve localeCompare getNode props URI_relative fuel
    viewMode provider s = Done (r, s') ->
  forall g, In g (root_children r) ->
    gn_expanded g = true
    /\ forall n, occursIn n (gn_children g) ->
         (exists groupId,
             keyGroup provider g n groupId
             /\ reconciled getNode props groupId n)
         /\ (groupsNamed provider ->
             reconciled getNode props (gn_groupId g) n)
         /\ (viewMode = flat -> FileChangeNode_is n = true).
Proof.
  intros H g Hg. apply createTree_inv in H. destruct H as [_ H].
  destruct (H g Hg) as (group & s1 & s2 & Hin & Hg').
  pose proof (toGroupNode_inv _ _ _ _ _ _ _ _ _ _ _ _ Hg')
    as (_ & Hid & He & _).
  split; [exact He|]. intros n Hn.
  destruct (toGroupNode_reconciled _ _ _ _ _ _ _ _ _ _ _ _ Hg' n Hn)
    as [Hrec Hflat].
  split; [|split; [|exact Hflat]].
  - destruct n as [id u d sel|id g0 path u c e sel].
    + destruct Hrec as (res & Hres & Hu & Hrec).
      exists (resource_group_id res). split; [|exact Hrec].
      exists group, res. cbn in Hu. auto.
    + exists (gn_groupId g). split; [reflexivity|]. now rewrite Hid.
  - intros Hnamed. rewrite Hid.
    destruct n as [id u d sel|id g0 path u c e sel]; [|exact Hrec].
    destruct Hrec as (res & Hres & _ & Hrec).
    now rewrite <- (Hnamed group res Hin Hres).
Qed.

(** The resources of the sample providers name the group [changes] that
    lists them. *)
Lemma xyb_named :
  groupsNamed
    (providerOf
       ["file:///repo/a/x.txt"; "file:///repo/a/y.txt"; "file:///repo/b.txt"]).
Proof.
  intros group res [<-|[]] Hres. cbn in Hres.
  repeat (destruct Hres as [<-|Hres]; [reflexivity|]). destruct Hres.
Qed.

(** C5 on a rebuild over a previous tree in which the folder [a] was
    collapsed and [a/x.txt] selected. *)
Lemma C5_flags_reconciled_witness :
  exists r s',
    createTree joinUri codeCompare previousModel defaultProps relativeTo 3
      tree
      (providerOf
         ["file:///repo/a/x.txt"; "file:///repo/a/y.txt"; "file:///repo/b.txt"])
      None = Done (r, s')
    /\ forall g, In g (root_children r) ->
         gn_expanded g = true
         /\ forall n, occursIn n (gn_children g) ->
              reconciled previousModel defaultProps (gn_groupId g) n.
Proof.
  exists selectedRoot, (Some selectedFile).
  split; [vm_compute; reflexivity|].
  intros g Hg.
  destruct (C5_flags_reconciled joinUri codeCompare previousModel defaultProps
              relativeTo 3 tree
              (providerOf ["file:///repo/a/x.txt"; "file:///repo/a/y.txt";
                           "file:///repo/b.txt"]) None
              selectedRoot (Some selectedFile)
              ltac:(vm_compute; reflexivity) g Hg) as [He Hn].
  split; [exact He|]. intros n Hocc.
  destruct (Hn n Hocc) as (_ & Hrec & _). apply Hrec. exact xyb_named.
Defined.

(** C5 as stated fails twice.  For group nodes: the previous tree holds
    the group [changes] collapsed, and the rebuilt group node with the
    same id is expanded.  For a switch of the view mode and back: in the
    sample tree the folder [c] is collapsed; the rebuild in [flat] mode
    over the model of that tree gives the flat tree, whose model holds no
    node under the key of [c]; the rebuild in [tree] mode over that model
    gives the folder [c], under the same key, expanded. *)
Lemma C5_counterexample :
  (exists old r s' g,
      previousModel "changes" = Some (GroupOf old)
      /\ gn_expanded old = false
      /\ createTree joinUri codeCompare previousModel defaultProps relativeTo
           3 tree
           (providerOf
              ["file:///repo/a/x.txt"; "file:///repo/a/y.txt";
               "file:///repo/b.txt"])
           None = Done (r, s')
      /\ In g (root_children r)
      /\ gn_id g = "changes"
      /\ gn_expanded g = true)
  /\ (let closed :=
        FileChangeFolderNode "changes:file:///repo/c" "changes" "c"
          "file:///repo/c"
          [FileChangeNode "changes:file:///repo/c/z.txt"
             "file:///repo/c/z.txt" None false]
          false false in
      let opened :=
        FileChangeFolderNode "changes:file:///repo/c" "changes" "c"
          "file:///repo/c"
          [FileChangeNode "changes:file:///repo/c/z.txt"
             "file:///repo/c/z.txt" None false]
          true false in
      modelOf sampleRoot "changes:file:///repo/c" = Some (NodeOf closed)
      /\ createTree joinUri codeCompare (modelOf sampleRoot) defaultProps
           relativeTo 3 flat sampleProvider None = Done (flatRoot, None)
      /\ modelOf flatRoot "changes:file:///repo/c" = None
      /\ createTree joinUri codeCompare (modelOf flatRoot) defaultProps
           relativeTo 3 tree sampleProvider None = Done (openRoot, None)
      /\ modelOf openRoot "changes:file:///repo/c" = Some (NodeOf opened)).
Proof.
  split.
  - do 4 eexists. split; [reflexivity|]. split; [reflexivity|].
    split; [vm_compute; reflexivity|].
    split; [left; reflexivity|]. split; reflexivity.
  - cbv zeta. repeat split; vm_compute; reflexivity.
Qed.

(** ** From a node back to its resource *)

Section BackToResources.

Variable URI_resolve : option string -> string -> string.
Variable localeCompare : string -> string -> Z.
Variable getNode : string -> option TreeNode.
Variable props : ScmTreeProps.
Variable URI_relative : string -> string -> option string.

Lemma getResourceFromNode_placed fuel viewMode provider s r s' w g p n :
  createTree URI_resolve localeCompare getNode props URI_relative fuel
    viewMode provider s = Done (r, s') ->
  selectedRepository w = Some provider ->
  NoDup (map group_id (provider_groups provider)) ->
  In g (root_children r) ->
  placed (ParentGroup (gn_groupId g) (root_rootUri r)) p n (gn_children g) ->
  FileChangeNode_is n = true ->
  exists group res,
    In group (provider_groups provider)
    /\ group_id group = gn_groupId g
    /\ In res (group_resources group)
    /\ getResourceFromNode {| e_node := n; e_parent := p |} w
       = Done (Some res)
    /\ resource_sourceUri res = sourceUri n.
Proof.
  intros H Hw Hnd Hg Hp Hfile.
  apply createTree_inv in H. destruct H as [Hroot Hgroups].
  destruct (Hgroups g Hg) as (group & s1 & s2 & Hin & Hgn).
  apply toGroupNode_forest in Hgn. destruct Hgn as (Hid & Hplaced & Hfiles).
  rewrite Hid, Hroot in Hp.
  destruct (Hplaced _ _ Hp) as [Hgid _].
  destruct (Hfiles n (placed_file_in _ _ _ _ Hp Hfile)) as (r0 & Hr0 & Hleaf).
  unfold getResourceFromNode. cbn [e_node e_parent]. rewrite Hw, Hgid.
  rewrite (find_first group_id _ group Hnd Hin).
  destruct (find_at resource_sourceUri _ r0 Hr0) as (res & Hfind & Huri).
  exists group, res. split; [exact Hin|]. split; [now rewrite Hid|]. split.
  { apply find_some in Hfind. tauto. }
  assert (Hu : sourceUri n = resource_sourceUri r0).
  { rewrite Hleaf. reflexivity. }
  rewrite Hu. split; [|exact Huri]. now rewrite Hfind.
Qed.

End BackToResources.

(** X5.  [getResourceFromNode] undoes the builder: in a tree that
    [createTree] returns for the selected repository, whose groups have
    distinct ids, every file of a group node, at any depth and with the
    parent link it has there, is mapped to a resource: the call returns,
    without a [TypeError], a resource of the group of that id that lies
    at the [sourceUri] of the file.  So it does for every file the model
    shows. *)
Theorem X5_files_map_back_to_their_resources URI_resolve localeCompare
    getNode props URI_relative fuel viewMode provider s r s' w :
  createTree URI_resolve localeCompare getNode props URI_relative fuel
    viewMode provider s = Done (r, s') ->
  selectedRepository w = Some provider ->
  NoDup (map group_id (provider_groups provider)) ->
  (forall g p n,
      In g (root_children r) ->
      placed (ParentGroup (gn_groupId g) (root_rootUri r)) p n
        (gn_children g) ->
      FileChangeNode_is n = true ->
      exists group res,
        In group (provider_groups provider)
        /\ group_id group = gn_groupId g
        /\ In res (group_resources group)
        /\ getResourceFromNode {| e_node := n; e_parent := p |} w
           = Done (Some res)
        /\ resource_sourceUri res = sourceUri n)
  /\ (forall e,
        In e (visibleEntries r) -> FileChangeNode_is (e_node e) = true ->
        exists res,
          getResourceFromNode e w = Done (Some res)
          /\ resource_sourceUri res = sourceUri (e_node e)).
Proof.
  intros H Hw Hnd. split.
  - intros g p n Hg Hp Hfile.
    exact (getResourceFromNode_placed URI_resolve localeCompare getNode props
             URI_relative fuel viewMode provider s r s' w g p n H Hw Hnd Hg
             Hp Hfile).
  - intros e He Hfile.
    unfold visibleEntries in He. apply in_flat_map in He.
    destruct He as (g & Hg & He).
    unfold visibleInGroup in He. destruct (gn_expanded g); [|destruct He].
    apply visible_placed in He.
    destruct (getResourceFromNode_placed URI_resolve localeCompare getNode
                props URI_relative fuel viewMode provider s r s' w g
                (e_parent e) (e_node e) H Hw Hnd Hg He Hfile)
      as (group & res & _ & _ & _ & Hres & Huri).
    exists res. destruct e as [n p]. auto.
Qed.

(** X5 on the sample tree: the file [c/z.txt] below the collapsed folder
    [c]. *)
Lemma X5_files_map_back_to_their_resources_witness :
  exists group res,
    In group (provider_groups sampleProvider)
    /\ group_id group = "changes"
    /\ In res (group_resources group)
    /\ getResourceFromNode
         {| e_node := FileChangeNode "changes:file:///repo/c/z.txt"
                        "file:///repo/c/z.txt" None false;
            e_parent := ParentFolder "changes" "file:///repo/c"
                          (ParentGroup "changes" (Some repo)) |}
         sampleWorld = Done (Some res)
    /\ resource_sourceUri res = "file:///repo/c/z.txt".
Proof.
  apply (proj1 (X5_files_map_back_to_their_resources joinUri codeCompare
                  collapsedC defaultProps relativeTo 3 tree sampleProvider
                  None sampleRoot None sampleWorld sampleRoot_built eq_refl
                  ltac:(repeat constructor; intros []))
           sampleGroupNode).
  - left. reflexivity.
  - eapply placed_below; [right; left; reflexivity|].
    apply placed_here. left. reflexivity.
  - reflexivity.
Defined.

(** ** The context menu of a folder *)

(** X6.  The context menu of a folder gets every file below it: for a
    group node of a tree that [createTree] returns there is a group of
    the repository with its id (the one [renderNode] finds when the ids
    of the groups are distinct) such that, for every node [n] of the
    group node at any depth, [contextMenuArgs] is [[uris, true]] where
    [uris] holds no [undefined] and has one resource of the group per
    file below [n], in display order, each at the [sourceUri] of its
    file. *)
Theorem X6_folder_menu_collects_every_file_below URI_resolve localeCompare
    getNode props URI_relative fuel viewMode provider s r s' :
  createTree URI_resolve localeCompare getNode props URI_relative fuel
    viewMode provider s = Done (r, s') ->
  forall g, In g (root_children r) ->
  exists group,
    In group (provider_groups provider)
    /\ group_id group = gn_groupId g
    /\ (NoDup (map group_id (provider_groups provider)) ->
        findGroup provider (gn_groupId g) = Some group)
    /\ forall n, occursIn n (gn_children g) ->
         exists resources,
           folderContextMenuArgs group n = (map Some resources, true)
           /\ map resource_sourceUri resources = map sourceUri (filesOf n)
           /\ Forall (fun res => In res (group_resources group)) resources.
Proof.
  intros H g Hg.
  apply createTree_inv in H. destruct H as [Hroot Hgroups].
  destruct (Hgroups g Hg) as (group & s1 & s2 & Hin & Hgn).
  apply toGroupNode_forest in Hgn. destruct Hgn as (Hid & _ & Hfiles).
  exists group. split; [exact Hin|]. split; [now rewrite Hid|]. split.
  { intros Hnd. unfold findGroup. rewrite Hid.
    exact (find_first group_id _ group Hnd Hin). }
  intros n Hn. unfold folderContextMenuArgs.
  rewrite collectUris_files. cbn [app].
  assert (Hall : forall m, In m (filesOf n) ->
            exists r0, In r0 (group_resources group) /\ m = leafOf getNode r0).
  { intros m Hm. apply Hfiles. eapply occursIn_files; eauto. }
  induction (filesOf n) as [|m ms IH].
  - exists []. repeat split. constructor.
  - destruct IH as (rs & Hargs & Huris & Hrs).
    { intros k Hk. apply Hall. now right. }
    destruct (Hall m (or_introl eq_refl)) as (r0 & Hr0 & ->).
    destruct (find_at resource_sourceUri _ r0 Hr0) as (res & Hfind & Huri).
    exists (res :: rs). split; [|split].
    + injection Hargs as Hargs. cbn [map]. rewrite Hargs.
      cbn [sourceUri leafOf]. now rewrite Hfind.
    + cbn [map]. rewrite Huris, Huri. reflexivity.
    + constructor; [|exact Hrs]. apply find_some in Hfind. tauto.
Qed.

(** X6 on the sample tree and its group [changes]. *)
Lemma X6_folder_menu_collects_every_file_below_witness :
  exists group,
    In group (provider_groups sampleProvider)
    /\ group_id group = "changes"
    /\ (NoDup (map group_id (provider_groups sampleProvider)) ->
        findGroup sampleProvider "changes" = Some group)
    /\ forall n, occursIn n (gn_children sampleGroupNode) ->
         exists resources,
           folderContextMenuArgs group n = (map Some resources, true)
           /\ map resource_sourceUri resources = map sourceUri (filesOf n)
           /\ Forall (fun res => In res (group_resources group)) resources.
Proof.
  apply (X6_folder_menu_collects_every_file_below joinUri codeCompare
           collapsedC defaultProps relativeTo 3 tree sampleProvider None
           sampleRoot None sampleRoot_built sampleGroupNode).
  left. reflexivity.
Defined.

(** ** What a rebuild leaves in the selection service *)

Lemma selectionWritten_nil s : selectionWritten [] s s.
Proof. left. split; [constructor|reflexivity]. Qed.

Lemma selectionWritten_app f1 f2 s s1 s2 :
  selectionWritten f1 s s1 -> selectionWritten f2 s1 s2 ->
  selectionWritten (f1 ++ f2) s s2.
Proof.
  intros [[H1 ->]|(n & Hn & Hsel & ->)] [[H2 ->]|(m & Hm & Hsel' & ->)].
  - left. split; [apply Forall_app; auto|reflexivity].
  - right. exists m. split; [apply in_or_app; auto|auto].
  - right. exists n. split; [apply in_or_app; auto|auto].
  - right. exists m. split; [apply in_or_app; auto|auto].
Qed.

Lemma selectionWritten_perm f f' s s' :
  (forall x, In x f <-> In x f') ->
  selectionWritten f s s' -> selectionWritten f' s s'.
Proof.
  intros Hf [[H ->]|(n & Hn & Hsel & ->)].
  - left. split; [|reflexivity]. rewrite Forall_forall in *.
    intros x Hx. apply H. now apply Hf.
  - right. exists n. split; [now apply Hf|auto].
Qed.

Section SelectionService.

Variable URI_resolve : option string -> string -> string.
Variable localeCompare : string -> string -> Z.
Variable getNode : string -> option TreeNode.
Variable props : ScmTreeProps.
Variable URI_relative : string -> string -> option string.

Local Abbreviation build :=
  (buildFileChangeTree URI_resolve localeCompare getNode props).
Local Abbreviation buildLoop := (buildLoop URI_resolve getNode props).

Lemma toFileChangeNode_selection r s n s' :
  toFileChangeNode getNode r s = Done (n, s') ->
  selectionWritten [n] s s'.
Proof.
  unfold toFileChangeNode. cbn [selected].
  destruct (SelectableTreeNode_is _ && old_selected _) eqn:Hsel; cbn;
    intros H; injection H as <- <-.
  - right. eexists. split; [left; reflexivity|]. split; reflexivity.
  - left. split; [|reflexivity]. constructor; [reflexivity|constructor].
Qed.

Lemma mapM_selection l : forall s ns s',
  mapM (toFileChangeNode getNode) l s = Done (ns, s') ->
  selectionWritten (flat_map filesOf ns) s s'.
Proof.
  induction l as [|r l IH]; intros s ns s' H; cbn in H.
  - injection H as <- <-. apply selectionWritten_nil.
  - apply bind_inv in H. destruct H as (n & s1 & Hn & H).
    apply bind_inv in H. destruct H as (ns0 & s2 & Hns & H).
    injection H as <- <-.
    pose proof (toFileChangeNode_inv _ _ _ _ _ Hn) as ->.
    apply toFileChangeNode_selection in Hn. apply IH in Hns.
    cbn [flat_map filesOf leafOf].
    apply (selectionWritten_app _ _ _ _ _ Hn Hns).
Qed.

Lemma inlineRun_selection resources n : forall i result s l s',
  inlineRun getNode resources n i result s = Done (l, s') ->
  exists added,
    flat_map filesOf l = flat_map filesOf result ++ added
    /\ selectionWritten added s s'.
Proof.
  induction n as [|n IH]; intros i result s l s' H; cbn in H.
  - injection H as <- <-. exists []. split; [now rewrite app_nil_r|].
    apply selectionWritten_nil.
  - destruct (nth_error resources i) as [r|]; [|discriminate].
    apply bind_inv in H. destruct H as (leaf & s1 & Hl & H).
    pose proof (toFileChangeNode_inv _ _ _ _ _ Hl) as ->.
    apply toFileChangeNode_selection in Hl.
    apply IH in H. destruct H as (added & Heq & Hsel).
    exists (leafOf getNode (resource r) :: added). split.
    + rewrite Heq, flat_map_app, <- app_assoc. reflexivity.
    + apply (selectionWritten_app [_] _ _ _ _ Hl Hsel).
Qed.

Lemma buildLoop_selection bld resources end_ level parent n :
  (forall resources start end_ level parent s c s',
      bld resources start end_ level parent s = Done (c, s') ->
      selectionWritten (flat_map filesOf c) s s') ->
  forall folderStart result s l s',
    buildLoop bld resources end_ level parent n folderStart result s
    = Done (l, s') ->
    exists added,
      flat_map filesOf l = flat_map filesOf result ++ added
      /\ selectionWritten added s s'.
Proof.
  intros Hbld.
  induction n as [|n IH]; intros folderStart result s l s' H;
    [discriminate|].
  cbn -[Nat.ltb Z.eqb Z.ltb Nat.sub runEnd extendLevel Js.join Js.slice
        threshold] in H.
  destruct (folderStart <? end_)%nat.
  2:{ injection H as <- <-. exists []. split; [now rewrite app_nil_r|].
      apply selectionWritten_nil. }
  destruct (nth_error resources folderStart) as [firstFileChange|];
    [|discriminate].
  destruct (Z.of_nat level =? lastIndex (pathParts firstFileChange))%Z.
  { apply bind_inv in H. destruct H as (leaf & s1 & Hl & H).
    pose proof (toFileChangeNode_inv _ _ _ _ _ Hl) as ->.
    apply toFileChangeNode_selection in Hl.
    apply IH in H. destruct H as (added & Heq & Hsel).
    exists (leafOf getNode (resource firstFileChange) :: added). split.
    - rewrite Heq, flat_map_app, <- app_assoc. reflexivity.
    - apply (selectionWritten_app [_] _ _ _ _ Hl Hsel). }
  destruct (runEnd _ _ _ _ _) as [folderEnd| |]; try discriminate.
  destruct (Z.of_nat (folderEnd - folderStart) <? threshold props)%Z.
  { apply bind_inv in H. destruct H as (result' & s1 & Hi & H).
    apply inlineRun_selection in Hi. destruct Hi as (a1 & Heq1 & Hsel1).
    apply IH in H. destruct H as (a2 & Heq2 & Hsel2).
    exists (a1 ++ a2). split.
    - rewrite Heq2, Heq1, <- app_assoc. reflexivity.
    - apply (selectionWritten_app _ _ _ _ _ Hsel1 Hsel2). }
  destruct (nth_error resources (folderEnd - 1)) as [lastFileChange|];
    [|discriminate].
  apply bind_inv in H. destruct H as (folder & s1 & Hf & H).
  apply toFileChangeFolderNode_inv in Hf.
  destruct Hf as (children & Hc & ->).
  apply Hbld in Hc.
  apply IH in H. destruct H as (a2 & Heq2 & Hsel2).
  exists (flat_map filesOf children ++ a2). split.
  - rewrite Heq2, flat_map_app. cbn [flat_map filesOf folderOf].
    rewrite app_nil_r, <- app_assoc. reflexivity.
  - apply (selectionWritten_app _ _ _ _ _ Hc Hsel2).
Qed.

Lemma build_selection fuel : forall resources start end_ level parent s l s',
  build fuel resources start end_ level parent s = Done (l, s') ->
  selectionWritten (flat_map filesOf l) s s'.
Proof.
  induction fuel as [|fuel IH]; intros resources start end_ level parent s l s'
    H; [discriminate|].
  rewrite buildFileChangeTree_S in H.
  apply bind_inv in H. destruct H as (result & s1 & Hloop & Hret).
  injection Hret as <- <-.
  apply (buildLoop_selection _ _ _ _ _ _ IH) in Hloop.
  destruct Hloop as (added & Heq & Hsel). cbn [flat_map app] in Heq.
  apply (selectionWritten_perm added); [|exact Hsel].
  intros x. rewrite <- Heq.
  split; apply Permutation_in; apply Permutation_flat_map;
    [symmetry|]; apply sort_Permutation.
Qed.

Lemma toGroupNode_selection fuel viewMode rootOfTree group s g s' :
  toGroupNode URI_resolve localeCompare getNode props URI_relative fuel
    viewMode rootOfTree group s = Done (g, s') ->
  selectionWritten (flat_map filesOf (gn_children g)) s s'.
Proof.
  unfold toGroupNode. intros H.
  apply bind_inv in H. destruct H as (c & s1 & Hc & H).
  injection H as <- <-. cbn [gn_children].
  destruct viewMode.
  - now apply mapM_selection in Hc.
  - destruct (group_provider_rootUri group) as [root|].
    + destruct (Js.truthy (Some root)).
      * now apply build_selection in Hc.
      * injection Hc as <- <-. apply selectionWritten_nil.
    + injection Hc as <- <-. apply selectionWritten_nil.
Qed.

Lemma mapM_groups_selection fuel viewMode rootOfTree groups : forall s gs s',
  mapM (toGroupNode URI_resolve localeCompare getNode props URI_relative fuel
          viewMode rootOfTree) groups s = Done (gs, s') ->
  selectionWritten
    (flat_map (fun g => flat_map filesOf (gn_children g)) gs) s s'.
Proof.
  induction groups as [|group groups IH]; intros s gs s' H; cbn in H.
  - injection H as <- <-. apply selectionWritten_nil.
  - apply bind_inv in H. destruct H as (g & s1 & Hg & H).
    apply bind_inv in H. destruct H as (gs0 & s2 & Hgs & H).
    injection H as <- <-.
    apply toGroupNode_selection in Hg. apply IH in Hgs.
    cbn [flat_map]. apply (selectionWritten_app _ _ _ _ _ Hg Hgs).
Qed.

End SelectionService.

(** X7.  A rebuild writes [selectionService.selection] only for a
    selected file: when [createTree] returns and no file of the new tree
    is selected, the selection is what it was before the call; otherwise
    it is a file of the new tree that is selected.  Folders, whose
    selection flag is carried over as well, never reach the selection
    service. *)
Theorem X7_selection_service_after_a_rebuild URI_resolve localeCompare getNode
    props URI_relative fuel viewMode provider s r s' :
  createTree URI_resolve localeCompare getNode props URI_relative fuel
    viewMode provider s = Done (r, s') ->
  (Forall (fun n => selected n = false) (filesOfRoot r) /\ s' = s)
  \/ (exists n, In n (filesOfRoot r) /\ selected n = true /\ s' = Some n).
Proof.
  unfold createTree. intros H.
  apply bind_inv in H. destruct H as (gs & s1 & Hgs & H).
  injection H as <- <-.
  apply mapM_groups_selection in Hgs. exact Hgs.
Qed.

(** X7 on [a/x.txt], [a/y.txt], [b.txt] over a model in which
    [a/x.txt] is selected. *)
Lemma X7_selection_service_after_a_rebuild_witness :
  (Forall (fun n => selected n = false) (filesOfRoot selectedRoot)
   /\ Some selectedFile = None)
  \/ (exists n, In n (filesOfRoot selectedRoot) /\ selected n = true
                /\ Some selectedFile = Some n).
Proof.
  apply (X7_selection_service_after_a_rebuild joinUri codeCompare
           previousModel defaultProps relativeTo 3 tree
           (providerOf ["file:///repo/a/x.txt"; "file:///repo/a/y.txt";
                        "file:///repo/b.txt"])
           None selectedRoot (Some selectedFile)).
  vm_compute. reflexivity.
Defined.

(** ** The editor [openResource] returns *)

Lemma find_app {A : Type} (f : A -> bool) l1 l2 :
  find f (l1 ++ l2) = match find f l1 with
                      | Some x => Some x
                      | None => find f l2
                      end.
Proof.
  induction l1 as [|x l1 IH]; cbn; [reflexivity|].
  destruct (f x); [reflexivity|exact IH].
Qed.

Section EditorFacts.

Variable URI_path : string -> string.
Variable DIFF_SCHEME : string.

Local Abbreviation findEditor := (findEditor URI_path DIFF_SCHEME).
Local Abbreviation samePath := (samePath URI_path).
Local Abbreviation diffEditorOf := (diffEditorOf URI_path DIFF_SCHEME).

Lemma findEditor_spec r all : forall standaloneEditor,
  findEditor r all standaloneEditor
  = match find (diffEditorOf r) all with
    | Some widget => Some widget
    | None =>
        match find (samePath r) (rev all) with
        | Some widget => Some widget
        | None => standaloneEditor
        end
    end.
Proof.
  induction all as [|widget rest IH]; intros st; [reflexivity|].
  cbn [findEditor find rev]. unfold diffEditorOf at 1, samePath at 1.
  fold (samePath r widget).
  rewrite find_app. cbn [find].
  destruct (samePath r widget) eqn:Hpath;
    destruct (String.eqb (ew_scheme widget) DIFF_SCHEME) eqn:Hdiff;
    cbn [andb orb].
  - reflexivity.
  - rewrite IH. destruct (find (diffEditorOf r) rest); [reflexivity|].
    destruct (find (samePath r) (rev rest)); reflexivity.
  - destruct (Js.strictEq (ew_resourceUri widget)
                (Some (resource_sourceUri r))); [reflexivity|].
    rewrite IH. destruct (find (diffEditorOf r) rest); [reflexivity|].
    destruct (find (samePath r) (rev rest)); reflexivity.
  - rewrite IH. destruct (find (diffEditorOf r) rest); [reflexivity|].
    destruct (find (samePath r) (rev rest)); reflexivity.
Qed.

End EditorFacts.

(** X8.  [openResource] prefers the diff editor: when [resource.open()]
    resolves, the editor it returns is the first editor of
    [editorManager.all] that is a diff editor on the path or on the
    location of the resource; without such an editor it is the last
    editor on the path of the resource, and [undefined] without one.
    When [resource.open()] rejects it returns [undefined]. *)
Theorem X8_openResource_prefers_the_diff_editor
    (open : ScmResource -> World -> option World)
    (URI_path : string -> string) (DIFF_SCHEME : string) r w :
  snd (openResource open URI_path DIFF_SCHEME r w)
  = match open r w with
    | Some w' => preferredEditor URI_path DIFF_SCHEME r (editors w')
    | None => None
    end.
Proof.
  unfold openResource, preferredEditor.
  destruct (open r w) as [w'|]; [|reflexivity]. cbn [snd].
  rewrite findEditor_spec.
  destruct (find (diffEditorOf URI_path DIFF_SCHEME r) (editors w'));
    [reflexivity|].
  destruct (find (samePath URI_path r) (rev (editors w'))); reflexivity.
Qed.

(** ** The groups of the tree, and the tree of [flat] mode *)

Section Groups.

Variable URI_resolve : option string -> string -> string.
Variable localeCompare : string -> string -> Z.
Variable getNode : string -> option TreeNode.
Variable props : ScmTreeProps.
Variable URI_relative : string -> string -> option string.

Local Abbreviation toGroupNode :=
  (toGroupNode URI_resolve localeCompare getNode props URI_relative).
Local Abbreviation createTree :=
  (createTree URI_resolve localeCompare getNode props URI_relative).

Lemma mapM_flat fuel rootOfTree groups : forall s,
  exists s',
    mapM (toGroupNode fuel flat rootOfTree) groups s
    = Done (map (flatGroupNode getNode) groups, s').
Proof.
  induction groups as [|group groups IH]; intros s; cbn [mapM map].
  - eexists; reflexivity.
  - unfold toGroupNode at 1.
    destruct (mapM_leaves getNode (group_resources group) s) as [s1 H1].
    erewrite bind_Done.
    2:{ erewrite bind_Done; [reflexivity|exact H1]. }
    destruct (IH s1) as [s2 H2].
    rewrite (bind_Done _ _ _ _ _ H2). eexists; reflexivity.
Qed.

Lemma mapM_groups fuel viewMode rootOfTree groups : forall s gs s',
  mapM (toGroupNode fuel viewMode rootOfTree) groups s = Done (gs, s') ->
  map gn_groupId gs = map group_id groups
  /\ map gn_id gs = map group_id groups
  /\ Forall (fun g => gn_expanded g = true) gs.
Proof.
  induction groups as [|group groups IH]; intros s gs s' H; cbn in H.
  - injection H as <- <-. repeat split. constructor.
  - apply bind_inv in H. destruct H as (g & s1 & Hg & H).
    apply bind_inv in H. destruct H as (gs0 & s2 & Hgs & H).
    injection H as <- <-.
    apply toGroupNode_inv in Hg. destruct Hg as (Hid & Hgid & Hexp & _).
    apply IH in Hgs. destruct Hgs as (H1 & H2 & H3).
    cbn [map]. rewrite Hid, Hgid, H1, H2. repeat split.
    constructor; assumption.
Qed.

End Groups.

(** X9.  In [flat] mode [createTree] always returns, at every recursion
    depth and for every configuration: the root carries the [rootUri] of
    the provider and has one expanded group node per shown group, in the
    order of the provider, with one leaf per resource in the order of the
    group.  In every mode a tree that [createTree] returns has exactly
    the shown groups as group nodes, in the order of the provider, each
    expanded and with the id of its group as [id] and [groupId]: a group
    is left out only when it has no resource and is hidden when empty. *)
Theorem X9_groups_shown_and_the_flat_tree :
  (forall URI_resolve localeCompare getNode props URI_relative fuel provider
          s,
      exists s',
        createTree URI_resolve localeCompare getNode props URI_relative fuel
          flat provider s
        = Done ({| root_rootUri := provider_rootUri provider;
                   root_children :=
                     map (flatGroupNode getNode) (shownGroups provider) |},
                s'))
  /\ (forall URI_resolve localeCompare getNode props URI_relative fuel
             viewMode provider s r s',
        createTree URI_resolve localeCompare getNode props URI_relative fuel
          viewMode provider s = Done (r, s') ->
        root_rootUri r = provider_rootUri provider
        /\ map gn_groupId (root_children r)
           = map group_id (shownGroups provider)
        /\ map gn_id (root_children r) = map group_id (shownGroups provider)
        /\ Forall (fun g => gn_expanded g = true) (root_children r)).
Proof.
  split.
  - intros. unfold createTree.
    destruct (mapM_flat URI_resolve localeCompare getNode props URI_relative
                fuel (provider_rootUri provider) (shownGroups provider) s)
      as [s' H].
    unfold shownGroups in H. rewrite (bind_Done _ _ _ _ _ H).
    exists s'. reflexivity.
  - intros URI_resolve localeCompare getNode props URI_relative fuel viewMode
      provider s r s' H.
    unfold createTree in H.
    apply bind_inv in H. destruct H as (gs & s1 & Hgs & H).
    injection H as <- <-. cbn [root_rootUri root_children].
    split; [reflexivity|].
    exact (mapM_groups _ _ _ _ _ _ _ _ _ _ _ _ Hgs).
Qed.

(** X9 on the sample tree, in [tree] mode. *)
Lemma X9_groups_shown_and_the_flat_tree_witness :
  root_rootUri sampleRoot = provider_rootUri sampleProvider
  /\ map gn_groupId (root_children sampleRoot)
     = map group_id (shownGroups sampleProvider)
  /\ map gn_id (root_children sampleRoot)
     = map group_id (shownGroups sampleProvider)
  /\ Forall (fun g => gn_expanded g = true) (root_children sampleRoot).
Proof.
  apply (proj2 X9_groups_shown_and_the_flat_tree joinUri codeCompare
           collapsedC defaultProps relativeTo 3 tree sampleProvider None
           sampleRoot None).
  exact sampleRoot_built.
Defined.

(** ** The type guards, and what [getRoot] returns *)

(** X10.  No object is a group and a folder at once, nor a file and a
    folder, for the guards of the source, and an object is a folder or a
    file exactly when it has a [sourceUri] (the test of [getName] and of
    [revealNode]); of the four object literals of the builder the root
    passes none of the three guards and the group, the folder and the
    file pass exactly their own.  So the loop of
    [getRoot], which climbs while a node is a group and a folder, never
    runs: [getRoot(node)] is [node.parent].  For a folder that is the
    root only when the folder stands directly below a group; for a
    folder below a folder it is a node without [rootUri], and
    [getRoot(parent).rootUri] is [undefined]. *)
Theorem X10_guards_and_getRoot :
  (forall node,
      Guards.FileChangeGroupNode_is node && Guards.FileChangeFolderNode_is node
      = false)
  /\ (forall node,
        Guards.FileChangeNode_is node && Guards.FileChangeFolderNode_is node
        = false)
  /\ (forall node,
        Guards.FileChangeFolderNode_is node || Guards.FileChangeNode_is node
        = Guards.has "sourceUri" node)
  /\ Guards.classify Guards.rootLiteral = (false, false, false)
  /\ Guards.classify Guards.groupLiteral = (true, false, false)
  /\ Guards.classify Guards.folderLiteral = (false, true, false)
  /\ Guards.classify Guards.fileLiteral = (false, false, true)
  /\ (forall p, getRoot p = parent_of p)
  /\ (forall g u q, Ancestor_rootUri (getRoot (ParentFolder g u q)) = None).
Proof.
  split; [|split; [|split]].
  - intros node. unfold Guards.FileChangeGroupNode_is.
    destruct (Guards.FileChangeFolderNode_is node);
      [now rewrite andb_false_r|apply andb_false_r].
  - intros node. unfold Guards.FileChangeNode_is.
    destruct (Guards.FileChangeFolderNode_is node);
      [now rewrite andb_false_r|apply andb_false_r].
  - intros node.
    unfold Guards.FileChangeNode_is, Guards.FileChangeFolderNode_is.
    destruct (Guards.has "groupId" node), (Guards.has "sourceUri" node),
      (Guards.has "path" node), (Guards.has "children" node); reflexivity.
  - do 4 (split; [reflexivity|]). split.
    + exact getRoot_parent.
    + intros g u q. rewrite getRoot_parent. reflexivity.
Qed.

(** ** The state of [ScmWidget] *)

(** X11.  The view mode survives [ScmWidget.storeState] and
    [ScmWidget.restoreState]: restoring what a view stored, into any
    view, gives the view mode of the view that stored it, whenever the
    commit widget restores its part without throwing.  And a stored
    object without [changesTreeState] (or with [null] there) makes
    [ScmWidget.restoreState] throw and leaves the tree widget, its view
    mode included, as it was. *)
Theorem X11_ScmWidget_state_round_trip (TreeState CommitState : Type)
    (TreeWidget_storeState : TreeState -> Js.value)
    (TreeWidget_restoreState : Js.value -> TreeState -> TreeState * completion)
    (ScmCommitWidget_storeState : CommitState -> Js.value)
    (ScmCommitWidget_restoreState :
       Js.value -> CommitState -> CommitState * completion) :
  (forall stored w,
      snd (ScmCommitWidget_restoreState
             (ScmCommitWidget_storeState (commitWidget stored))
             (commitWidget w)) = Normal ->
      ScmWidget_viewMode TreeState CommitState
        (fst (ScmWidget_restoreState TreeState TreeWidget_restoreState
                CommitState ScmCommitWidget_restoreState
                (ScmWidget_storeState TreeState TreeWidget_storeState
                   CommitState ScmCommitWidget_storeState stored) w))
      = ScmWidget_viewMode TreeState CommitState stored)
  /\ (forall fields w,
        (Js.lookup "changesTreeState" fields = Js.Undefined
         \/ Js.lookup "changesTreeState" fields = Js.Null) ->
        let after :=
          ScmWidget_restoreState TreeState TreeWidget_restoreState
            CommitState ScmCommitWidget_restoreState (Js.Obj fields) w in
        snd after = Throws
        /\ resourceWidget (fst after) = resourceWidget w).
Proof.
  split.
  - intros stored w Hc.
    unfold ScmWidget_restoreState, ScmWidget_storeState, ScmWidget_viewMode.
    cbn [ScmWidget_destructure Js.lookup String.eqb Ascii.eqb Bool.eqb].
    destruct (ScmCommitWidget_restoreState _ _) as [c k]. cbn in Hc. subst k.
    unfold restoreState, storeState.
    cbn [destructure Js.lookup String.eqb Ascii.eqb Bool.eqb].
    destruct (TreeWidget_restoreState _ _) as [t k]. cbn.
    destruct (_viewMode (resourceWidget stored)); reflexivity.
  - intros fields w Hmissing after. subst after.
    unfold ScmWidget_restoreState. cbn [ScmWidget_destructure].
    destruct (ScmCommitWidget_restoreState _ _) as [c [|]].
    + unfold restoreState.
      destruct Hmissing as [-> | ->]; cbn; auto.
    + cbn. auto.
Qed.

(** X11 on a view in [tree] mode restored into a view in [flat] mode. *)
Lemma X11_ScmWidget_state_round_trip_witness :
  ScmWidget_viewMode unit unit
    (fst (ScmWidget_restoreState unit restoreNothing unit restoreNothing
            (ScmWidget_storeState unit noState unit noState treeView)
            flatView))
  = tree.
Proof.
  apply (proj1 (X11_ScmWidget_state_round_trip unit unit noState
                  restoreNothing noState restoreNothing) treeView flatView).
  reflexivity.
Defined.

(** ** [revealNode] *)

Lemma expandIfCollapsed_spec p c :
  LinkedNode_isExpandable p = true ->
  let after := expandIfCollapsed p c in
  LinkedNode_expanded (fst after) = true
  /\ LinkedNode_id (fst after) = LinkedNode_id p
  /\ LinkedNode_isExpandable (fst after) = true
  /\ wayTo (fst after) = wayTo p
  /\ snd after = c ++ collapsedIds [p].
Proof.
  unfold expandIfCollapsed, collapsedIds.
  destruct p as [|id e|id e q|id q]; try discriminate; intros _;
    destruct e; cbn; repeat split; now rewrite ?app_nil_r.
Qed.

Lemma revealNode_kind node calls :
  LinkedNode_isExpandable (fst (revealNode node calls))
  = LinkedNode_isExpandable node
  /\ LinkedNode_expanded (fst (revealNode node calls))
     = LinkedNode_expanded node
  /\ LinkedNode_id (fst (revealNode node calls)) = LinkedNode_id node.
Proof.
  destruct node as [|id e|id e q|id q]; cbn; auto;
    destruct (LinkedNode_isExpandable q); cbn; auto;
    destruct (revealNode q calls) as [p c];
    destruct (expandIfCollapsed p c); cbn; auto.
Qed.

Lemma revealNode_spec node : forall calls,
  Forall (fun n => LinkedNode_expanded n = true)
    (wayTo (fst (revealNode node calls)))
  /\ map LinkedNode_id (wayTo (fst (revealNode node calls)))
     = map LinkedNode_id (wayTo node)
  /\ snd (revealNode node calls) = calls ++ rev (collapsedIds (wayTo node)).
Proof.
  assert (Hstep : forall q calls,
    (forall calls,
        Forall (fun n => LinkedNode_expanded n = true)
          (wayTo (fst (revealNode q calls)))
        /\ map LinkedNode_id (wayTo (fst (revealNode q calls)))
           = map LinkedNode_id (wayTo q)
        /\ snd (revealNode q calls) = calls ++ rev (collapsedIds (wayTo q))) ->
    LinkedNode_isExpandable q = true ->
    let '(p, c) := revealNode q calls in
    let '(p', c') := expandIfCollapsed p c in
    Forall (fun n => LinkedNode_expanded n = true) (p' :: wayTo p')
    /\ map LinkedNode_id (p' :: wayTo p') = map LinkedNode_id (q :: wayTo q)
    /\ LinkedNode_isExpandable p' = true
    /\ c' = calls ++ rev (collapsedIds (q :: wayTo q))).
  { intros q calls IH Hq.
    destruct (IH calls) as (Hall & Hids & Hcalls).
    destruct (revealNode_kind q calls) as (Hk & He & Hi).
    destruct (revealNode q calls) as [p c]. cbn [fst snd] in *.
    rewrite <- Hk in Hq.
    destruct (expandIfCollapsed_spec p c Hq) as (E1 & E2 & E3 & E4 & E5).
    destruct (expandIfCollapsed p c) as [p' c']. cbn [fst snd] in *.
    rewrite E4. split; [constructor; assumption|]. split.
    { cbn [map]. rewrite E2, Hi, Hids. reflexivity. }
    split; [exact E3|].
    rewrite E5, Hcalls. unfold collapsedIds. cbn [filter map].
    rewrite He.
    destruct (LinkedNode_expanded q); cbn [negb map rev app].
    - now rewrite app_nil_r.
    - rewrite Hi, <- app_assoc. reflexivity. }
  induction node as [|id e|id e q IH|id q IH]; intros calls;
    try (cbn; repeat split; try constructor; now rewrite app_nil_r).
  - cbn [revealNode wayTo].
    destruct (LinkedNode_isExpandable q) eqn:Hq.
    2:{ cbn. rewrite Hq. cbn. repeat split; try constructor.
        now rewrite app_nil_r. }
    specialize (Hstep q calls IH Hq).
    destruct (revealNode q calls) as [p c].
    destruct (expandIfCollapsed p c) as [p' c'].
    destruct Hstep as (H1 & H2 & H3 & H4).
    cbn [fst snd wayTo]. rewrite H3. auto.
  - cbn [revealNode wayTo].
    destruct (LinkedNode_isExpandable q) eqn:Hq.
    2:{ cbn. rewrite Hq. cbn. repeat split; try constructor.
        now rewrite app_nil_r. }
    specialize (Hstep q calls IH Hq).
    destruct (revealNode q calls) as [p c].
    destruct (expandIfCollapsed p c) as [p' c'].
    destruct Hstep as (H1 & H2 & H3 & H4).
    cbn [fst snd wayTo]. rewrite H3. auto.
Qed.

Lemma revealNode_expanded node : forall calls,
  Forall (fun n => LinkedNode_expanded n = true) (wayTo node) ->
  revealNode node calls = (node, calls).
Proof.
  induction node as [|id e|id e q IH|id q IH]; intros calls H;
    try reflexivity; cbn [revealNode wayTo] in *;
    destruct (LinkedNode_isExpandable q); try reflexivity;
    inversion H as [|x l Hq Hrest]; subst;
    rewrite (IH calls Hrest); unfold expandIfCollapsed; rewrite Hq;
    reflexivity.
Qed.

(** X12.  [revealNode] opens the way to a node from the outside in:
    after the call every node on the way from the parent of the node up
    to its group is expanded, the way is the same nodes as before,
    [expandNode] was called exactly for those of them that were
    collapsed, the outermost first, and a second [revealNode] changes
    nothing and calls nothing. *)
Theorem X12_revealNode_expands_the_way_outside_in node calls :
  let after := revealNode node calls in
  Forall (fun n => LinkedNode_expanded n = true) (wayTo (fst after))
  /\ map LinkedNode_id (wayTo (fst after)) = map LinkedNode_id (wayTo node)
  /\ snd after = calls ++ rev (collapsedIds (wayTo node))
  /\ revealNode (fst after) (snd after) = after.
Proof.
  intros after. subst after.
  destruct (revealNode_spec node calls) as (Hall & Hids & Hcalls).
  repeat split; auto.
  rewrite (revealNode_expanded _ _ Hall). now destruct (revealNode _ _).
Qed.

(** ** Thresholds of at most 1 *)

Lemma bind_ext {A B : Type} (m m' : M A) (k k' : A -> M B) s :
  m s = m' s -> (forall a s1, k a s1 = k' a s1) ->
  bind m k s = bind m' k' s.
Proof.
  intros Hm Hk. unfold bind. rewrite Hm.
  destruct (m' s) as [[a s1]| |]; auto.
Qed.

Lemma mapM_ext {A B : Type} (f f' : A -> M B) l :
  (forall a s, f a s = f' a s) -> forall s, mapM f l s = mapM f' l s.
Proof.
  intros Hf. induction l as [|x l IH]; intros s; cbn [mapM]; [reflexivity|].
  apply bind_ext; [apply Hf|]. intros a s1.
  apply bind_ext; [apply IH|reflexivity].
Qed.

Section Threshold.

Variable URI_resolve : option string -> string -> string.
Variable localeCompare : string -> string -> Z.
Variable getNode : string -> option TreeNode.
Variable props props' : ScmTreeProps.
Hypothesis Hth : (threshold props <= 1)%Z.
Hypothesis Hth' : (threshold props' <= 1)%Z.
Hypothesis Hexp : defaultExpansion props = defaultExpansion props'.

Lemma buildLoop_low_threshold bld bld' resources end_ level parent n :
  (forall resources start end_ level parent s,
      bld resources start end_ level parent s
      = bld' resources start end_ level parent s) ->
  forall folderStart result s,
    buildLoop URI_resolve getNode props bld resources end_ level parent n
      folderStart result s
    = buildLoop URI_resolve getNode props' bld' resources end_ level parent n
        folderStart result s.
Proof.
  intros Hbld.
  induction n as [|n IH]; intros folderStart result s; [reflexivity|].
  cbn -[Nat.ltb Z.eqb Z.ltb Nat.sub runEnd extendLevel Js.join Js.slice
        threshold].
  destruct (folderStart <? end_)%nat; [|reflexivity].
  destruct (nth_error resources folderStart) as [firstFileChange|];
    [|reflexivity].
  destruct (Z.of_nat level =? lastIndex (pathParts firstFileChange))%Z.
  { apply bind_ext; [reflexivity|]. intros; apply IH. }
  destruct (runEnd _ _ _ _ _) as [folderEnd| |] eqn:Hrun; try reflexivity.
  apply runEnd_bounds in Hrun.
  destruct (Z.ltb_spec (Z.of_nat (folderEnd - folderStart)) (threshold props));
    [lia|].
  destruct (Z.ltb_spec (Z.of_nat (folderEnd - folderStart)) (threshold props'));
    [lia|].
  destruct (nth_error resources (folderEnd - 1)) as [lastFileChange|];
    [|reflexivity].
  apply bind_ext; [|intros; apply IH].
  unfold toFileChangeFolderNode. rewrite Hexp.
  apply bind_ext; [apply Hbld|reflexivity].
Qed.

Lemma build_low_threshold fuel : forall resources start end_ level parent s,
  buildFileChangeTree URI_resolve localeCompare getNode props fuel resources
    start end_ level parent s
  = buildFileChangeTree URI_resolve localeCompare getNode props' fuel
      resources start end_ level parent s.
Proof.
  induction fuel as [|fuel IH]; intros resources start end_ level parent s;
    [reflexivity|].
  rewrite !buildFileChangeTree_S.
  apply bind_ext; [|reflexivity].
  apply buildLoop_low_threshold. exact IH.
Qed.

End Threshold.

(** X13.  A nesting threshold of at most 1 never inlines a run, so all
    such thresholds build the same tree: for two configurations with the
    same default expansion whose thresholds ([nestingThreshold || 1]) are
    at most 1 (not set, 0, 1 or negative), [createTree] has the same
    outcome, at every recursion depth and in every mode. *)
Theorem X13_thresholds_of_at_most_one_build_the_same_tree URI_resolve
    localeCompare getNode props props' URI_relative fuel viewMode provider s :
  (threshold props <= 1)%Z -> (threshold props' <= 1)%Z ->
  defaultExpansion props = defaultExpansion props' ->
  createTree URI_resolve localeCompare getNode props URI_relative fuel
    viewMode provider s
  = createTree URI_resolve localeCompare getNode props' URI_relative fuel
      viewMode provider s.
Proof.
  intros Hth Hth' Hexp. unfold createTree.
  apply bind_ext; [|reflexivity].
  apply mapM_ext. intros group s0. unfold toGroupNode.
  apply bind_ext; [|reflexivity].
  destruct viewMode; [reflexivity|].
  destruct (group_provider_rootUri group) as [root|]; [|reflexivity].
  destruct (Js.truthy (Some root)); [|reflexivity].
  now apply build_low_threshold.
Qed.

(** X13 on the sample repository: a threshold of -3 and no threshold. *)
Lemma X13_thresholds_of_at_most_one_build_the_same_tree_witness :
  createTree joinUri codeCompare collapsedC
    {| defaultExpansion := None; nestingThreshold := Some (-3)%Z |}
    relativeTo 3 tree sampleProvider None
  = createTree joinUri codeCompare collapsedC defaultProps relativeTo 3 tree
      sampleProvider None.
Proof.
  apply X13_thresholds_of_at_most_one_build_the_same_tree.
  - vm_compute. discriminate.
  - vm_compute. discriminate.
  - reflexivity.
Defined.

(** ** Both modes show the same files *)

Section SameFiles.

Variable URI_resolve : option string -> string -> string.
Variable localeCompare : string -> string -> Z.
Variable getNode : string -> option TreeNode.
Variable props : ScmTreeProps.
Variable URI_relative : string -> string -> option string.

Local Abbreviation toGroupNode :=
  (toGroupNode URI_resolve localeCompare getNode props URI_relative).

Lemma toGroupNode_files fuel viewMode rootOfTree group s g s' :
  (viewMode = tree -> Js.truthy (group_provider_rootUri group) = true) ->
  toGroupNode fuel viewMode rootOfTree group s = Done (g, s') ->
  gn_groupId g = group_id group
  /\ Permutation (flat_map filesOf (gn_children g))
       (map (leafOf getNode) (group_resources group)).
Proof.
  intros Hroot H. apply toGroupNode_inv in H.
  destruct H as (_ & Hg & _ & H). split; [exact Hg|].
  destruct viewMode.
  - rewrite H. clear. induction (group_resources group) as [|r l IH];
      cbn; [constructor|]. now constructor.
  - specialize (Hroot eq_refl).
    destruct (group_provider_rootUri group) as [root|]; [|discriminate].
    rewrite Hroot in H. destruct H as [s0 H].
    apply build_files in H; [|lia]. rewrite H.
    unfold leavesOf, Js.slice. cbn [skipn].
    rewrite Nat.sub_0_r, <- (length_map (toResourcePath URI_relative root)),
      firstn_all, map_map.
    reflexivity.
Qed.

Lemma mapM_groups_files fuel viewMode rootOfTree groups : forall s gs s',
  (viewMode = tree ->
   Forall (fun group => Js.truthy (group_provider_rootUri group) = true)
     groups) ->
  mapM (toGroupNode fuel viewMode rootOfTree) groups s = Done (gs, s') ->
  Forall2 (fun g group =>
             gn_groupId g = group_id group
             /\ Permutation (flat_map filesOf (gn_children g))
                  (map (leafOf getNode) (group_resources group)))
    gs groups.
Proof.
  induction groups as [|group groups IH]; intros s gs s' Hroot H; cbn in H.
  - injection H as <- <-. constructor.
  - apply bind_inv in H. destruct H as (g & s1 & Hg & H).
    apply bind_inv in H. destruct H as (gs0 & s2 & Hgs & H).
    injection H as <- <-. constructor.
    + eapply toGroupNode_files; [|exact Hg].
      intros Hv. specialize (Hroot Hv). now inversion Hroot.
    + eapply IH; [|exact Hgs].
      intros Hv. specialize (Hroot Hv). now inversion Hroot.
Qed.

End SameFiles.

(** X14.  Every shown group shows each of its resources once, in both
    modes: when [createTree] returns, and in [tree] mode every shown
    group has a root location, the group nodes of the tree and the shown
    groups of the provider correspond one to one in order, and the files
    below a group node, at all depths, are the leaves of the resources of
    its group, each once.  Switching the view mode neither loses nor
    repeats a file. *)
Theorem X14_each_group_shows_its_resources_once URI_resolve localeCompare
    getNode props URI_relative fuel viewMode provider s r s' :
  (viewMode = tree ->
   Forall (fun group => Js.truthy (group_provider_rootUri group) = true)
     (shownGroups provider)) ->
  createTree URI_resolve localeCompare getNode props URI_relative fuel
    viewMode provider s = Done (r, s') ->
  Forall2 (fun g group =>
             gn_groupId g = group_id group
             /\ Permutation (flat_map filesOf (gn_children g))
                  (map (leafOf getNode) (group_resources group)))
    (root_children r) (shownGroups provider).
Proof.
  intros Hroot H. unfold createTree in H.
  apply bind_inv in H. destruct H as (gs & s1 & Hgs & H).
  injection H as <- <-. cbn [root_children].
  eapply mapM_groups_files; [exact Hroot|exact Hgs].
Qed.

(** X14 on the sample tree, in [tree] mode. *)
Lemma X14_each_group_shows_its_resources_once_witness :
  Forall2 (fun g group =>
             gn_groupId g = group_id group
             /\ Permutation (flat_map filesOf (gn_children g))
                  (map (leafOf collapsedC) (group_resources group)))
    (root_children sampleRoot) (shownGroups sampleProvider).
Proof.
  apply (X14_each_group_shows_its_resources_once joinUri codeCompare
           collapsedC defaultProps relativeTo 3 tree sampleProvider None
           sampleRoot None).
  - intros _. repeat constructor.
  - exact sampleRoot_built.
Defined.

(** ** The right arrow on the last chunk of a file *)

Section NextFile.

Variable open : ScmResource -> World -> option World.
Variable URI_path : string -> string.
Variable DIFF_SCHEME : string.
Variable canNavigate hasNext : EditorWidget -> World -> bool.
Variable next : EditorWidget -> World -> World.
Variable TreeWidget_handleRight : World -> World.

Lemma handleRight_next_file w provider p e r w1 widget q e' r' :
  selectedRepository w = Some provider ->
  selectedNodes (model w) = [p] ->
  nth_error (visible (model w)) p = Some e ->
  FileChangeNode_is (e_node e) = true ->
  getResourceFromNode e w = Done (Some r) ->
  open r w = Some w1 ->
  model w1 = model w ->
  preferredEditor URI_path DIFF_SCHEME r (editors w1) = Some widget ->
  canNavigate widget w1 && hasNext widget w1 = false ->
  p < q ->
  nth_error (visible (model w)) q = Some e' ->
  FileChangeNode_is (e_node e') = true ->
  (forall i, p < i -> i < q -> isFileAt (model w) i = false) ->
  getResourceFromNode e' (withModel (selectNode q (model w)) w1)
  = Done (Some r') ->
  handleRight open URI_path DIFF_SCHEME canNavigate hasNext next
    TreeWidget_handleRight w
  = Done (fst (openResource open URI_path DIFF_SCHEME r'
                 (withModel (selectNode q (model w)) w1))).
Proof.
  intros Hrepo Hsel He Hfile Hres Hopen Hmodel Hwidget Hnav Hpq He' Hfile'
    Hskip Hres'.
  unfold handleRight, soleSelectedFile.
  rewrite Hrepo, Hsel, He, Hfile, Hres.
  unfold openResource at 1. rewrite Hopen.
  unfold preferredEditor in Hwidget. rewrite findEditor_spec.
  assert (Hfound :
    match find (diffEditorOf URI_path DIFF_SCHEME r) (editors w1) with
    | Some widget0 => Some widget0
    | None =>
        match find (samePath URI_path r) (rev (editors w1)) with
        | Some widget0 => Some widget0
        | None => None
        end
    end = Some widget).
  { destruct (find (diffEditorOf URI_path DIFF_SCHEME r) (editors w1));
      [exact Hwidget|].
    destruct (find (samePath URI_path r) (rev (editors w1)));
      [exact Hwidget|discriminate]. }
  rewrite Hfound, Hnav, Hmodel.
  rewrite (moveToNextFileNode_reaches (model w) p [] q Hsel Hpq).
  - unfold openMoved. cbn [model withModel selectNode visible].
    rewrite He', Hres'. reflexivity.
  - apply nth_error_Some. congruence.
  - unfold isFileAt. now rewrite He'.
  - exact Hskip.
Qed.

End NextFile.

(** X15.  The right arrow on the last chunk of a file goes on to the
    next file and opens it.  With a repository selected and one file
    selected whose resource opens, leaving the tree as it is, and has an
    editor with no further chunk to go to, [handleRight] selects the
    nearest file shown after the selection, passing the folders in
    between, and then opens the resource of that file: the world it
    leaves is the one [openResource] leaves for that resource, with the
    selection on the file (a rejected [open()] of that resource is logged
    there, the selection staying moved).  [TreeWidget.handleRight] is not
    called. *)
Theorem X15_right_arrow_on_the_last_chunk_opens_the_next_file
    (open : ScmResource -> World -> option World)
    (URI_path : string -> string) (DIFF_SCHEME : string)
    (canNavigate hasNext : EditorWidget -> World -> bool)
    (next : EditorWidget -> World -> World)
    (TreeWidget_handleRight : World -> World)
    w provider p e r w1 widget q e' r' :
  selectedRepository w = Some provider ->
  selectedNodes (model w) = [p] ->
  nth_error (visible (model w)) p = Some e ->
  FileChangeNode_is (e_node e) = true ->
  getResourceFromNode e w = Done (Some r) ->
  open r w = Some w1 ->
  model w1 = model w ->
  preferredEditor URI_path DIFF_SCHEME r (editors w1) = Some widget ->
  canNavigate widget w1 && hasNext widget w1 = false ->
  p < q ->
  nth_error (visible (model w)) q = Some e' ->
  FileChangeNode_is (e_node e') = true ->
  (forall i, p < i -> i < q -> isFileAt (model w) i = false) ->
  getResourceFromNode e' (withModel (selectNode q (model w)) w1)
  = Done (Some r') ->
  let moved := withModel (selectNode q (model w)) w1 in
  handleRight open URI_path DIFF_SCHEME canNavigate hasNext next
    TreeWidget_handleRight w
  = Done (fst (openResource open URI_path DIFF_SCHEME r' moved))
  /\ selectedNodes (model moved) = [q]
  /\ (open r' moved = None ->
      handleRight open URI_path DIFF_SCHEME canNavigate hasNext next
        TreeWidget_handleRight w
      = Done (logError "Failed to open a SCM resource" moved)).
Proof.
  intros Hrepo Hsel He Hfile Hres Hopen Hmodel Hwidget Hnav Hpq He' Hfile'
    Hskip Hres' moved.
  pose proof (handleRight_next_file open URI_path DIFF_SCHEME canNavigate
                hasNext next TreeWidget_handleRight w provider p e r w1
                widget q e' r' Hrepo Hsel He Hfile Hres Hopen Hmodel Hwidget
                Hnav Hpq He' Hfile' Hskip Hres') as H.
  fold moved in H. split; [exact H|]. split; [reflexivity|].
  intros Hreject. rewrite H.
  rewrite (openResource_rejected open URI_path DIFF_SCHEME _ _ Hreject).
  reflexivity.
Qed.

(** X15 on the files [a/x.txt] and [a/y.txt] below the folder [a], the
    first one selected and open in a diff editor without chunks. *)
Lemma X15_right_arrow_on_the_last_chunk_opens_the_next_file_witness :
  let moved := withModel (selectNode 2 twoFiles) twoFilesWorld in
  handleRight resolving pathOfUri "diff" noChunks noChunks stay untouched
    twoFilesWorld
  = Done (fst (openResource resolving pathOfUri "diff"
                 (change "file:///repo/a/y.txt") moved))
  /\ selectedNodes (model moved) = [2]
  /\ (resolving (change "file:///repo/a/y.txt") moved = None ->
      handleRight resolving pathOfUri "diff" noChunks noChunks stay
        untouched twoFilesWorld
      = Done (logError "Failed to open a SCM resource" moved)).
Proof.
  apply (X15_right_arrow_on_the_last_chunk_opens_the_next_file resolving
           pathOfUri "diff" noChunks noChunks stay untouched twoFilesWorld
           (providerOf ["file:///repo/a/x.txt"; "file:///repo/a/y.txt"]) 1
           {| e_node := FileChangeNode "changes:file:///repo/a/x.txt"
                          "file:///repo/a/x.txt" None false;
              e_parent := ParentFolder "changes" "file:///repo/a"
                            (ParentGroup "changes" (Some repo)) |}
           (change "file:///repo/a/x.txt") twoFilesWorld diffOfX 2
           {| e_node := FileChangeNode "changes:file:///repo/a/y.txt"
                          "file:///repo/a/y.txt" None false;
              e_parent := ParentFolder "changes" "file:///repo/a"
                            (ParentGroup "changes" (Some repo)) |}
           (change "file:///repo/a/y.txt"));
    try reflexivity; try lia.
Defined.

(** ** No folder is empty *)

Lemma leavesOf_length getNode resources a b :
  b <= length resources -> length (leavesOf getNode resources a b) = b - a.
Proof.
  intros H. unfold leavesOf, Js.slice.
  rewrite length_map, length_firstn, length_skipn. lia.
Qed.

Section FolderSize.

Variable URI_resolve : option string -> string -> string.
Variable localeCompare : string -> string -> Z.
Variable getNode : string -> option TreeNode.
Variable props : ScmTreeProps.

Local Abbreviation build :=
  (buildFileChangeTree URI_resolve localeCompare getNode props).
Local Abbreviation buildLoop := (buildLoop URI_resolve getNode props).

Local Abbreviation wellFilled := (wellFilled props).

Lemma occursIn_leavesOf resources a b n :
  occursIn n (leavesOf getNode resources a b) ->
  FileChangeFolderNode_is n = false.
Proof.
  unfold leavesOf. intros H.
  rewrite <- (map_map resource (leafOf getNode)) in H.
  apply occursIn_leaves in H.
  apply in_map_iff in H. destruct H as (r & <- & _). reflexivity.
Qed.

Lemma buildLoop_wellFilled bld resources end_ level parent n :
  (forall a b t p s c s',
      bld resources a b t p s = Done (c, s') ->
      forall x, occursIn x c -> wellFilled x) ->
  (forall a b t p s c s',
      a <= b -> bld resources a b t p s = Done (c, s') ->
      Permutation (flat_map filesOf c) (leavesOf getNode resources a b)) ->
  forall folderStart result s l s',
    (forall x, occursIn x result -> wellFilled x) ->
    buildLoop bld resources end_ level parent n folderStart result s
    = Done (l, s') ->
    forall x, occursIn x l -> wellFilled x.
Proof.
  intros Hbld Hfiles.
  induction n as [|n IH]; intros folderStart result s l s' Hres H;
    [discriminate|].
  cbn -[Nat.ltb Z.eqb Z.ltb Nat.sub runEnd extendLevel Js.join Js.slice
        threshold] in H.
  destruct (Nat.ltb_spec folderStart end_) as [Hlt|Hge].
  2:{ injection H as <- <-. exact Hres. }
  destruct (nth_error resources folderStart) as [firstFileChange|] eqn:Hr;
    [|discriminate].
  destruct (Z.of_nat level =? lastIndex (pathParts firstFileChange))%Z.
  { apply bind_inv in H. destruct H as (leaf & s1 & Hl & H).
    apply toFileChangeNode_inv in Hl. subst leaf.
    eapply IH; [|exact H].
    intros x Hx. apply occursIn_app in Hx. destruct Hx as [Hx|Hx]; auto.
    change [leafOf getNode (resource firstFileChange)]
      with (map (leafOf getNode) [resource firstFileChange]) in Hx.
    apply occursIn_leaves in Hx. destruct Hx as [<-|[]].
    intros Hf. discriminate. }
  destruct (runEnd _ _ _ _ _) as [folderEnd| |] eqn:Hrun; try discriminate.
  apply runEnd_bounds in Hrun.
  destruct (Z.ltb_spec (Z.of_nat (folderEnd - folderStart)) (threshold props))
    as [Hth|Hth].
  { apply bind_inv in H. destruct H as (result' & s1 & Hi & H).
    apply inlineRun_inv in Hi. subst result'.
    eapply IH; [|exact H].
    intros x Hx. apply occursIn_app in Hx. destruct Hx as [Hx|Hx]; auto.
    apply occursIn_leavesOf in Hx. intros Hf. congruence. }
  destruct (nth_error resources (folderEnd - 1)) as [lastFileChange|] eqn:Hl;
    [|discriminate].
  apply bind_inv in H. destruct H as (folder & s1 & Hf & H).
  apply toFileChangeFolderNode_inv in Hf. destruct Hf as (c & Hc & ->).
  eapply IH; [|exact H].
  intros x Hx. apply occursIn_app in Hx. destruct Hx as [Hx|Hx]; auto.
  inversion Hx as [l0 Hin|l0 f Hf Hbelow]; subst.
  - destruct Hin as [<-|[]]. intros _.
    cbn [filesOf folderOf].
    apply Hfiles in Hc; [|lia].
    rewrite (Permutation_length Hc), leavesOf_length.
    + lia.
    + assert (nth_error resources (folderEnd - 1) <> None) by congruence.
      apply nth_error_Some in H0. lia.
  - destruct Hf as [<-|[]]. cbn [children folderOf] in Hbelow.
    eapply Hbld; eauto.
Qed.

Lemma build_wellFilled fuel : forall resources start end_ level parent s l s',
  build fuel resources start end_ level parent s = Done (l, s') ->
  forall x, occursIn x l -> wellFilled x.
Proof.
  induction fuel as [|fuel IH]; intros resources start end_ level parent s l s'
    H x Hx; [discriminate|].
  rewrite buildFileChangeTree_S in H.
  apply bind_inv in H. destruct H as (result & s1 & Hloop & Hret).
  injection Hret as <- <-.
  apply (occursIn_perm _ _ result) in Hx.
  2:{ intros y. apply In_sort. }
  eapply buildLoop_wellFilled; [| | |exact Hloop|exact Hx].
  - intros a b t p s0 c s2 Hc. eapply IH; eauto.
  - intros a b t p s0 c s2 Hab Hc. eapply build_files; eauto.
  - intros y Hy. inversion Hy as [l0 Hin|l0 f Hf _]; subst;
      destruct Hin || destruct Hf.
Qed.

End FolderSize.

(** X16.  No folder of the tree is empty: in a tree that [createTree]
    returns, every folder, at any depth, has at least one file below it,
    and at least as many files as the nesting threshold. *)
Theorem X16_every_folder_holds_a_file URI_resolve localeCompare getNode props
    URI_relative fuel viewMode provider s r s' :
  createTree URI_resolve localeCompare getNode props URI_relative fuel
    viewMode provider s = Done (r, s') ->
  forall g x,
    In g (root_children r) -> occursIn x (gn_children g) ->
    FileChangeFolderNode_is x = true ->
    1 <= length (filesOf x)
    /\ (threshold props <= Z.of_nat (length (filesOf x)))%Z.
Proof.
  intros H g x Hg Hx Hfolder.
  apply createTree_inv in H. destruct H as [_ Hgroups].
  destruct (Hgroups g Hg) as (group & s1 & s2 & _ & Hgn).
  apply toGroupNode_inv in Hgn. destruct Hgn as (_ & _ & _ & Hc).
  destruct viewMode.
  - rewrite Hc in Hx. apply occursIn_leaves in Hx.
    apply in_map_iff in Hx. destruct Hx as (r0 & <- & _). discriminate.
  - assert (Hnone : gn_children g = [] ->
              1 <= length (filesOf x)
              /\ (threshold props <= Z.of_nat (length (filesOf x)))%Z).
    { intros E. rewrite E in Hx.
      inversion Hx as [l0 Hin|l0 f Hf _]; subst; destruct Hin || destruct Hf. }
    destruct (group_provider_rootUri group) as [root|]; [|auto].
    destruct (Js.truthy (Some root)); [|auto].
    destruct Hc as [s0 Hc].
    exact (build_wellFilled _ _ _ _ _ _ _ _ _ _ _ _ _ Hc x Hx Hfolder).
Qed.

(** X16 on the sample tree: the folder [c]. *)
Lemma X16_every_folder_holds_a_file_witness :
  1 <= length (filesOf
                 (FileChangeFolderNode "changes:file:///repo/c" "changes" "c"
                    "file:///repo/c"
                    [FileChangeNode "changes:file:///repo/c/z.txt"
                       "file:///repo/c/z.txt" None false]
                    false false))
  /\ (threshold defaultProps
      <= Z.of_nat
           (length (filesOf
                      (FileChangeFolderNode "changes:file:///repo/c"
                         "changes" "c" "file:///repo/c"
                         [FileChangeNode "changes:file:///repo/c/z.txt"
                            "file:///repo/c/z.txt" None false]
                         false false))))%Z.
Proof.
  apply (X16_every_folder_holds_a_file joinUri codeCompare collapsedC
           defaultProps relativeTo 3 tree sampleProvider None sampleRoot None
           sampleRoot_built sampleGroupNode).
  - left. reflexivity.
  - apply occurs_here. right. left. reflexivity.
  - reflexivity.
Defined.

(** ** A rebuild over the tree in place *)



Section Rebuild.

Variable URI_resolve : option string -> string -> string.
Variable localeCompare : string -> string -> Z.
Variable getNode getNode' : string -> option TreeNode.
Variable props : ScmTreeProps.
Variable URI_relative : string -> string -> option string.

Local Abbreviation build :=
  (buildFileChangeTree URI_resolve localeCompare getNode props).
Local Abbreviation build' :=
  (buildFileChangeTree URI_resolve localeCompare getNode' props).











End Rebuild.





(** ** The cursor comes back *)

(** X18.  The cursor comes back: between two files that are shown with
    only folders between them, [moveToNextFileNode] from the first one
    followed by [moveToPreviousFileNode] ends with the first one selected
    and returns it, the model being as it was; and
    [moveToPreviousFileNode] from the second one followed by
    [moveToNextFileNode] ends with the second one selected. *)
Theorem X18_the_cursor_comes_back m p q :
  selectedNodes m = [p] ->
  p < q -> q < length (visible m) ->
  isFileAt m p = true -> isFileAt m q = true ->
  (forall i, p < i -> i < q -> isFileAt m i = false) ->
  moveToPreviousFileNode (fst (moveToNextFileNode m)) = (m, Some p)
  /\ moveToNextFileNode (fst (moveToPreviousFileNode (selectNode q m)))
     = (selectNode q m, Some q).
Proof.
  intros Hsel Hpq Hq Hp Hfq Hskip.
  assert (Hback :
    moveToPreviousFileNode (selectNode q m) = (m, Some p)).
  { rewrite (moveToPreviousFileNode_reaches (selectNode q m) q [] p);
      try reflexivity; try assumption.
    - unfold selectNode. cbn. destruct m as [v sel]. cbn in *. now subst.
    - cbn. lia. }
  split.
  - rewrite (moveToNextFileNode_reaches m p [] q Hsel Hpq Hq Hfq Hskip).
    exact Hback.
  - rewrite Hback. cbn [fst].
    exact (moveToNextFileNode_reaches m p [] q Hsel Hpq Hq Hfq Hskip).
Qed.

Lemma X18_the_cursor_comes_back_witness :
  moveToPreviousFileNode (fst (moveToNextFileNode twoFiles))
  = (twoFiles, Some 1)
  /\ moveToNextFileNode (fst (moveToPreviousFileNode (selectNode 2 twoFiles)))
     = (selectNode 2 twoFiles, Some 2).
Proof.
  apply (X18_the_cursor_comes_back twoFiles 1 2); try reflexivity.
  - lia.
  - cbn. lia.
  - intros i Hi Hq. lia.
Defined.

(** ** The builder does not throw *)

Section NoTypeError.

Variable URI_resolve : option string -> string -> string.
Variable localeCompare : string -> string -> Z.
Variable getNode : string -> option TreeNode.
Variable props : ScmTreeProps.
Variable URI_relative : string -> string -> option string.

Local Abbreviation build :=
  (buildFileChangeTree URI_resolve localeCompare getNode props).
Local Abbreviation buildLoop := (buildLoop URI_resolve getNode props).

Lemma buildLoop_no_TypeError bld resources end_ level parent n :
  end_ <= length resources ->
  (forall a b t p s, b <= end_ -> bld resources a b t p s <> TypeError) ->
  forall folderStart result s,
    buildLoop bld resources end_ level parent n folderStart result s
    <> TypeError.
Proof.
  intros Hlen Hbld.
  induction n as [|n IH]; intros folderStart result s; [discriminate|].
  destruct (Nat.le_gt_cases end_ folderStart) as [Hge|Hlt].
  { rewrite buildLoop_end by exact Hge. discriminate. }
  destruct (nth_error resources folderStart) as [firstFileChange|] eqn:Hr.
  2:{ apply nth_error_None in Hr. lia. }
  destruct (Z.eq_dec (Z.of_nat level)
              (lastIndex (pathParts firstFileChange))) as [Hlev|Hlev].
  { rewrite (buildLoop_leaf _ _ _ _ _ _ _ _ _ _ _ _ _ Hlt Hr Hlev).
    destruct (toFileChangeNode_Done getNode (resource firstFileChange) s)
      as [s1 H1].
    rewrite (bind_Done _ _ _ _ _ H1). apply IH. }
  destruct (runEnd_spec resources level
              (nth_error (pathParts firstFileChange) level)
              (end_ - S folderStart) (S folderStart))
    as (fe & Hrun & Hle & _); [lia|].
  destruct (Z.lt_ge_cases (Z.of_nat (fe - folderStart)) (threshold props))
    as [Hth|Hth].
  { rewrite (buildLoop_inline _ _ _ _ _ _ _ _ _ _ _ _ _ _ Hlt Hr Hlev Hrun
               Hth).
    destruct (inlineRun_Done getNode resources (fe - folderStart)
                folderStart result s) as [s1 H1]; [lia|].
    rewrite (bind_Done _ _ _ _ _ H1). apply IH. }
  destruct (nth_error resources (fe - 1)) as [lastFileChange|] eqn:Hl.
  2:{ apply nth_error_None in Hl. lia. }
  rewrite (buildLoop_folder _ _ _ _ _ _ _ _ _ _ _ _ _ _ _ Hlt Hr Hlev Hrun
             Hth Hl).
  unfold bind at 1. unfold toFileChangeFolderNode at 1. unfold bind at 1.
  match goal with
  | |- context [bld ?r ?a ?b ?c ?d ?e] =>
      destruct (bld r a b c d e) as [[c0 s1]| |] eqn:Hc;
        [|destruct (Hbld a b c d e ltac:(lia) Hc)|discriminate]
  end.
  apply IH.
Qed.

Lemma build_no_TypeError fuel : forall resources start end_ level parent s,
  end_ <= length resources ->
  build fuel resources start end_ level parent s <> TypeError.
Proof.
  induction fuel as [|fuel IH]; intros resources start end_ level parent s
    Hlen; [discriminate|].
  rewrite buildFileChangeTree_S. unfold bind.
  destruct (buildLoop (build fuel) resources end_ level parent
              (S (end_ - start)) start [] s) as [[l s1]| |] eqn:Hloop;
    try discriminate.
  exfalso. revert Hloop. apply buildLoop_no_TypeError; [exact Hlen|].
  intros a b t p s0 Hb. apply IH. lia.
Qed.

Lemma toGroupNode_no_TypeError fuel viewMode rootOfTree group s :
  toGroupNode URI_resolve localeCompare getNode props URI_relative fuel
    viewMode rootOfTree group s <> TypeError.
Proof.
  unfold toGroupNode, bind.
  destruct viewMode.
  - destruct (mapM_leaves getNode (group_resources group) s) as [s1 ->].
    discriminate.
  - destruct (group_provider_rootUri group) as [root|]; [|discriminate].
    destruct (Js.truthy (Some root)); [|discriminate].
    match goal with
    | |- context [buildFileChangeTree ?a ?b ?c ?d ?e ?f ?g ?h ?i ?j ?k] =>
        destruct (buildFileChangeTree a b c d e f g h i j k)
          as [[c0 s1]| |] eqn:Hc; try discriminate
    end.
    exfalso. revert Hc. apply build_no_TypeError.
    rewrite length_map. lia.
Qed.

Lemma mapM_no_TypeError {A B : Type} (f : A -> M B) l :
  (forall a s, f a s <> TypeError) -> forall s, mapM f l s <> TypeError.
Proof.
  intros Hf. induction l as [|x l IH]; intros s; cbn [mapM]; [discriminate|].
  unfold bind at 1.
  destruct (f x s) as [[y s1]| |] eqn:Hx;
    [|destruct (Hf x s Hx)|discriminate].
  unfold bind.
  destruct (mapM f l s1) as [[ys s2]| |] eqn:Hl;
    [discriminate|destruct (IH s1 Hl)|discriminate].
Qed.

End NoTypeError.

(** X19.  The builder reads no resource outside the list:
    [buildFileChangeTree] on a range that ends within the list does not
    throw a [TypeError], whatever the paths of the resources, the level
    and the threshold; and [createTree], which passes whole lists, does
    not throw for any repository, in any mode.  A call returns or does
    not return at all. *)
Theorem X19_the_builder_does_not_throw :
  (forall URI_resolve localeCompare getNode props fuel resources start end_
          level parent s,
      end_ <= length resources ->
      buildFileChangeTree URI_resolve localeCompare getNode props fuel
        resources start end_ level parent s <> TypeError)
  /\ (forall URI_resolve localeCompare getNode props URI_relative fuel
             viewMode provider s,
        createTree URI_resolve localeCompare getNode props URI_relative fuel
          viewMode provider s <> TypeError).
Proof.
  split; [intros; now apply build_no_TypeError|].
  intros URI_resolve localeCompare getNode props URI_relative fuel viewMode
    provider s.
  unfold createTree, bind.
  match goal with
  | |- context [mapM ?f ?l ?s0] =>
      destruct (mapM f l s0) as [[gs s1]| |] eqn:Hgs; try discriminate
  end.
  exfalso. revert Hgs. apply mapM_no_TypeError.
  intros group s0. apply toGroupNode_no_TypeError.
Qed.

(** X19 on [a/x.txt] followed by [a], a list on which the call does not
    return. *)
Lemma X19_the_builder_does_not_throw_witness :
  buildFileChangeTree joinUri codeCompare emptyModel defaultProps 5
    folderThenFile 0 2 0 (ParentGroup "changes" (Some repo)) None
  <> TypeError.
Proof.
  apply (proj1 X19_the_builder_does_not_throw).
  cbn. lia.
Defined.

(** ** No directory is shown twice *)

Lemma untilSlash_append seg rest :
  noSlash seg -> untilSlash (seg ++ String "/" rest) = seg.
Proof.
  unfold noSlash. induction seg as [|c seg IH]; cbn; [reflexivity|].
  destruct (Ascii.eqb c "/"); [discriminate|].
  intros H. injection H as H. now rewrite IH.
Qed.

Lemma untilSlash_join seg rest :
  noSlash seg -> untilSlash (Js.join "/" (seg :: rest)) = seg.
Proof.
  intros H. unfold Js.join. destruct rest as [|x rest]; cbn [String.concat].
  - exact H.
  - change ("/" ++ String.concat "/" (x :: rest))%string
      with (String "/" (String.concat "/" (x :: rest))).
    now apply untilSlash_append.
Qed.

Lemma split_noSlash s : Forall noSlash (Js.split "/" s).
Proof.
  induction s as [|c s IH]; cbn [Js.split].
  - constructor; [reflexivity|constructor].
  - destruct (Ascii.eqb c "/") eqn:Hc.
    + constructor; [reflexivity|exact IH].
    + destruct (Js.split "/" s) as [|hd tl].
      * constructor; [|constructor]. unfold noSlash. cbn. now rewrite Hc.
      * inversion IH as [|x l Hhd Htl]; subst.
        constructor; [|exact Htl]. unfold noSlash in *. cbn.
        now rewrite Hc, Hhd.
Qed.

Lemma slice_cons {A : Type} (l : list A) a b x :
  nth_error l a = Some x -> a < b ->
  Js.slice a b l = x :: Js.slice (S a) b l.
Proof.
  intros Hx Hab. replace b with (a + S (b - S a)) at 1 by lia.
  rewrite (slice_step _ _ _ _ Hx). f_equal. f_equal. lia.
Qed.

Lemma firstn_S_nth {A : Type} level (p q : list A) :
  firstn level p = firstn level q ->
  nth_error p level = nth_error q level ->
  firstn (S level) p = firstn (S level) q.
Proof.
  intros Hpre Hnth. apply firstn_ext. intros k Hk.
  destruct (Nat.eq_dec k level) as [->|Hne]; [exact Hnth|].
  apply (firstn_nth level); [exact Hpre|lia].
Qed.

Lemma folders_app_leaves getNode l resources a b :
  filter FileChangeFolderNode_is (l ++ leavesOf getNode resources a b)
  = filter FileChangeFolderNode_is l.
Proof.
  rewrite filter_app. unfold leavesOf.
  induction (Js.slice a b resources) as [|r rs IH]; cbn;
    [apply app_nil_r|exact IH].
Qed.

Lemma distinctFolders_perm l l' :
  Permutation l l' -> distinctFolders l -> distinctFolders l'.
Proof.
  unfold distinctFolders. intros Hp.
  apply Permutation_NoDup, Permutation_map.
  clear - Hp. induction Hp; cbn.
  - constructor.
  - destruct (FileChangeFolderNode_is x); [constructor|]; assumption.
  - destruct (FileChangeFolderNode_is x), (FileChangeFolderNode_is y);
      try reflexivity. apply perm_swap.
  - etransitivity; eassumption.
Qed.

Section Distinct.

Variable URI_resolve : option string -> string -> string.
Variable localeCompare : string -> string -> Z.
Variable getNode : string -> option TreeNode.
Variable props : ScmTreeProps.

Local Abbreviation build :=
  (buildFileChangeTree URI_resolve localeCompare getNode props).
Local Abbreviation buildLoop := (buildLoop URI_resolve getNode props).

Lemma keyed_sub resources end_ level lo hi hi' f :
  hi <= hi' -> keyed resources end_ level lo hi f ->
  keyed resources end_ level lo hi' f.
Proof.
  intros H (i & e & H1 & H2 & H3 & H4). exists i, e.
  repeat split; try lia; tauto.
Qed.

Lemma buildLoop_distinct bld resources start end_ level parent :
  end_ <= length resources ->
  contiguous resources start end_ ->
  noLaterPrefix resources start end_ ->
  levelBelow resources start end_ level ->
  Forall (fun r => Forall noSlash (pathParts r)) resources ->
  (forall folderStart folderEnd thisLevel p s c s',
      start <= folderStart -> folderEnd <= end_ ->
      levelBelow resources folderStart folderEnd thisLevel ->
      bld resources folderStart folderEnd thisLevel p s = Done (c, s') ->
      forestDistinct c) ->
  forall n folderStart result s l s',
    start <= folderStart -> folderStart <= end_ ->
    forestDistinct result ->
    Forall (fun f => FileChangeFolderNode_is f = true ->
                     keyed resources end_ level start folderStart f) result ->
    buildLoop bld resources end_ level parent n folderStart result s
    = Done (l, s') ->
    forestDistinct l.
Proof.
  intros Hlen Hcont Hnlp Hbelow Hslash Hbld.
  induction n as [|n IH];
    intros folderStart result s l s' Hs Hfe Hres Hkeys H; [discriminate|].
  destruct (Nat.le_gt_cases end_ folderStart) as [Hge|Hlt].
  { rewrite buildLoop_end in H by exact Hge. injection H as <- <-. auto. }
  destruct (nth_error resources folderStart) as [firstFileChange|] eqn:Hr.
  2:{ apply nth_error_None in Hr. lia. }
  assert (Hleaves : forall a b,
            forestDistinct (result ++ leavesOf getNode resources a b)).
  { intros a b. destruct Hres as [Hd Hn]. split.
    - unfold distinctFolders. now rewrite folders_app_leaves.
    - intros x Hx. apply occursIn_app in Hx. destruct Hx as [Hx|Hx]; auto.
      unfold leavesOf in Hx.
      rewrite <- (map_map resource (leafOf getNode)) in Hx.
      apply occursIn_leaves in Hx. apply in_map_iff in Hx.
      destruct Hx as (r & <- & _). constructor. }
  assert (Hkleaves : forall a b k,
            folderStart <= k ->
            Forall (fun f => FileChangeFolderNode_is f = true ->
                             keyed resources end_ level start k f)
              (result ++ leavesOf getNode resources a b)).
  { intros a b k Hk. apply Forall_app. split.
    - eapply Forall_impl; [|exact Hkeys]. intros f Hf Hfold.
      eapply keyed_sub; [exact Hk|auto].
    - unfold leavesOf. apply Forall_forall. intros x Hx.
      apply in_map_iff in Hx. destruct Hx as (r & <- & _). discriminate. }
  destruct (Z.eq_dec (Z.of_nat level)
              (lastIndex (pathParts firstFileChange))) as [Hlev|Hlev].
  { rewrite (buildLoop_leaf _ _ _ _ _ _ _ _ _ _ _ _ _ Hlt Hr Hlev) in H.
    apply bind_inv in H. destruct H as (leaf & s1 & Hl & H).
    apply toFileChangeNode_inv in Hl. subst leaf.
    assert (E : [leafOf getNode (resource firstFileChange)]
                = leavesOf getNode resources folderStart (S folderStart)).
    { rewrite (leavesOf_step _ _ _ _ _ Hr) by lia.
      now rewrite leavesOf_nil by lia. }
    rewrite E in H.
    eapply (IH (S folderStart)); [lia|lia| | |exact H].
    - apply Hleaves.
    - apply Hkleaves. lia. }
  destruct (runEnd_spec resources level
              (nth_error (pathParts firstFileChange) level)
              (end_ - S folderStart) (S folderStart))
    as (fe & Hrun & Hle & Hin & Hout); [lia|].
  destruct (Z.lt_ge_cases (Z.of_nat (fe - folderStart)) (threshold props))
    as [Hth|Hth].
  { rewrite (buildLoop_inline _ _ _ _ _ _ _ _ _ _ _ _ _ _ Hlt Hr Hlev Hrun
               Hth) in H.
    destruct (inlineRun_Done getNode resources (fe - folderStart)
                folderStart result s) as [s1 H1]; [lia|].
    rewrite (bind_Done _ _ _ _ _ H1) in H.
    eapply (IH fe); [lia|lia| | |exact H].
    - apply Hleaves.
    - apply Hkleaves. lia. }
  destruct (nth_error resources (fe - 1)) as [lastFileChange|] eqn:Hl.
  2:{ apply nth_error_None in Hl. lia. }
  rewrite (buildLoop_folder _ _ _ _ _ _ _ _ _ _ _ _ _ _ _ Hlt Hr Hlev Hrun
             Hth Hl) in H.
  destruct (run_levelBelow resources start end_ level folderStart fe
              firstFileChange lastFileChange)
    as (Hlt' & Hmax & Hbelow'); auto; try lia.
  { intros i Hi Hie. destruct (Nat.eq_dec i folderStart) as [->|Hne].
    - now rewrite (partsAt_nth _ _ _ Hr).
    - apply Hin; lia. }
  apply bind_inv in H. destruct H as (folder & s1 & Hf & H).
  apply toFileChangeFolderNode_inv in Hf.
  destruct Hf as (c & Hc & ->).
  set (t1 := extendLevel (pathParts firstFileChange) (pathParts lastFileChange)
               (length (pathParts firstFileChange)) (level + 1)) in *.
  set (path := Js.join "/" (Js.slice level t1 (pathParts firstFileChange)))
    in *.
  pose proof (Hbld folderStart fe t1 _ _ _ _ Hs ltac:(lia) Hbelow' Hc) as Hcd.
  destruct (Hbelow folderStart Hs Hlt) as [Hlf Hpf].
  rewrite (partsAt_nth _ _ _ Hr) in Hlf, Hpf.
  destruct (nth_error (pathParts firstFileChange) level) as [sg|] eqn:Hsg.
  2:{ apply nth_error_None in Hsg. lia. }
  assert (Hns : noSlash sg).
  { rewrite Forall_forall in Hslash.
    specialize (Hslash _ (nth_error_In _ _ Hr)).
    rewrite Forall_forall in Hslash. apply Hslash.
    eapply nth_error_In; eauto. }
  assert (Hkey : untilSlash path = sg).
  { unfold path. rewrite (slice_cons _ _ _ _ Hsg Hlt').
    now apply untilSlash_join. }
  assert (Hnew : keyed resources end_ level start fe
                   (folderOf URI_resolve getNode props parent path c)).
  { exists folderStart, fe. cbn [node_path folderOf]. rewrite Hkey.
    split; [lia|]. split; [lia|]. split; [lia|]. split.
    - rewrite (partsAt_nth _ _ _ Hr). exact Hsg.
    - intros He. apply Hout. lia. }
  eapply (IH fe); [lia|lia| | |exact H].
  - destruct Hres as [Hd Hn]. split.
    + unfold distinctFolders in *. rewrite filter_app, map_app.
      cbn [filter folderOf FileChangeFolderNode_is map node_path].
      apply NoDup_app; [exact Hd|constructor; [intros []|constructor]|].
      intros x Hx [<-|[]].
      apply in_map_iff in Hx. destruct Hx as (f & Hpath & Hfin).
      apply filter_In in Hfin. destruct Hfin as [Hfin Hfold].
      rewrite Forall_forall in Hkeys.
      destruct (Hkeys f Hfin Hfold) as (i & e & Hi1 & Hi2 & Hi3 & Hi4 & Hi5).
      rewrite Hpath, Hkey in Hi4, Hi5.
      apply Hi5; [lia|].
      destruct (Hbelow i ltac:(lia) ltac:(lia)) as [Hli Hpi].
      assert (Hshare : sharePrefix (S level) (partsAt resources i)
                         (partsAt resources folderStart)).
      { split; [lia|]. apply firstn_S_nth.
        - rewrite (partsAt_nth _ _ _ Hr). congruence.
        - rewrite (partsAt_nth _ _ _ Hr). congruence. }
      destruct (Hcont i e folderStart (S level)) as [_ Hse]; try lia;
        [exact Hshare|].
      rewrite <- Hi4. symmetry.
      apply (firstn_nth (S level)); [exact Hse|lia].
    + intros x Hx. apply occursIn_app in Hx. destruct Hx as [Hx|Hx]; auto.
      destruct Hcd as [Hcd1 Hcd2].
      inversion Hx as [l0 Hin0|l0 f Hf0 Hbelow0]; subst.
      * destruct Hin0 as [<-|[]]. exact Hcd1.
      * destruct Hf0 as [<-|[]]. cbn [children folderOf] in Hbelow0.
        now apply Hcd2.
  - apply Forall_app. split.
    + eapply Forall_impl; [|exact Hkeys]. intros f Hf Hfold.
      eapply keyed_sub; [|auto]. lia.
    + constructor; [|constructor]. intros _. exact Hnew.
Qed.

Lemma build_distinct fuel : forall resources start end_ level parent s l s',
  end_ <= length resources ->
  contiguous resources start end_ ->
  noLaterPrefix resources start end_ ->
  levelBelow resources start end_ level ->
  Forall (fun r => Forall noSlash (pathParts r)) resources ->
  build fuel resources start end_ level parent s = Done (l, s') ->
  forestDistinct l.
Proof.
  induction fuel as [|fuel IH];
    intros resources start end_ level parent s l s' Hlen Hcont Hnlp Hbelow
      Hslash H; [discriminate|].
  rewrite buildFileChangeTree_S in H.
  apply bind_inv in H. destruct H as (result & s1 & Hloop & Hret).
  injection Hret as <- <-.
  assert (Hres : forestDistinct result).
  { destruct (Nat.le_gt_cases start end_) as [Hse|Hse].
    - eapply (buildLoop_distinct (build fuel) resources start end_ level parent
                Hlen Hcont Hnlp Hbelow Hslash);
        [| | | | |exact Hloop]; try lia.
      + intros fs fe t p s0 c s2 Hfs Hfe Hb Hc.
        eapply IH; [| | | | |exact Hc]; auto; try lia.
        * eapply contiguous_sub; [| |exact Hcont]; lia.
        * eapply noLaterPrefix_sub; [| |exact Hnlp]; lia.
      + split; [constructor|].
        intros n Hn. inversion Hn as [l0 Hin|l0 f Hf _]; subst;
          destruct Hin || destruct Hf.
      + constructor.
    - rewrite buildLoop_end in Hloop by lia. injection Hloop as <- <-.
      split; [constructor|].
      intros n Hn. inversion Hn as [l0 Hin|l0 f Hf _]; subst;
        destruct Hin || destruct Hf. }
  destruct Hres as [Hd Hn]. split.
  - eapply distinctFolders_perm; [|exact Hd].
    symmetry. apply sort_Permutation.
  - intros n Hocc. apply Hn. eapply occursIn_perm; [|exact Hocc].
    intros x. apply In_sort.
Qed.

End Distinct.

(** On [a/x], [b/y], [a/z], which is not contiguous, the folder [a] is
    made twice. *)
Lemma interleaved_directories_repeat :
  exists l,
    buildFileChangeTree joinUri codeCompare emptyModel defaultProps 3
      interleaved 0 3 0 (ParentGroup "changes" (Some repo)) None
    = Done (l, None)
    /\ ~ distinctFolders l.
Proof.
  eexists. split; [vm_compute; reflexivity|].
  unfold distinctFolders. cbn. intros H.
  inversion H as [|x l Hnot _]; subst. apply Hnot. left. reflexivity.
Qed.

(** X20.  No directory is shown twice among siblings: on a well-nested
    range (the conditions of C9) whose segments hold no slash, whenever
    [buildFileChangeTree] returns, no two folders of the list it returns
    have the same [path], and neither have two folders among the children
    of any folder below.  The segments [toGroupNode] passes, made by
    [split('/')], hold no slash.  Without contiguity the property fails,
    see [interleaved_directories_repeat]. *)
Theorem X20_no_directory_is_shown_twice :
  (forall URI_resolve localeCompare getNode props fuel resources start end_
          level parent s l s',
      end_ <= length resources ->
      levelBelow resources start end_ level ->
      contiguous resources start end_ ->
      noLaterPrefix resources start end_ ->
      Forall (fun r => Forall noSlash (pathParts r)) resources ->
      buildFileChangeTree URI_resolve localeCompare getNode props fuel
        resources start end_ level parent s = Done (l, s') ->
      distinctFolders l
      /\ forall n, occursIn n l -> distinctFolders (children n))
  /\ (forall URI_relative root r,
        Forall noSlash (pathParts (toResourcePath URI_relative root r))).
Proof.
  split.
  - intros URI_resolve localeCompare getNode props fuel resources start end_
      level parent s l s' Hlen Hbelow Hcont Hnlp Hslash H.
    exact (build_distinct URI_resolve localeCompare getNode props fuel
             resources start end_ level parent s l s' Hlen Hcont Hnlp Hbelow
             Hslash H).
  - intros URI_relative root r. unfold toResourcePath. cbn [pathParts].
    destruct (URI_relative root (resource_sourceUri r)) as [p|].
    + apply split_noSlash.
    + constructor.
Qed.

(** X20 on [a/x.txt], [a/y.txt], [b.txt]. *)
Lemma X20_no_directory_is_shown_twice_witness :
  distinctFolders xybForest
  /\ forall n, occursIn n xybForest -> distinctFolders (children n).
Proof.
  apply (proj1 X20_no_directory_is_shown_twice joinUri codeCompare emptyModel
           defaultProps 3 xyb 0 3 0 (ParentGroup "changes" (Some repo)) None
           xybForest None).
  - cbn. lia.
  - exact xyb_levelBelow.
  - exact xyb_contiguous.
  - exact xyb_noLaterPrefix.
  - repeat constructor.
  - vm_compute. reflexivity.
Defined.
